(** * TapTime Games: game loop, in-memory store, HTTP routes and client cache

A shallow embedding of
- [client/src/lib/game-engine.ts] (the abstract [GameEngine]) together
  with the Doodle Stack, Tap Snake and Color Trap subclasses,
- [server/storage.ts] ([MemStorage]) and [server/routes.ts],
- [client/src/lib/storage.ts] ([LocalStorage]),
and the properties the specification states about them. *)

From Stdlib Require Import String Ascii ZArith QArith Qround Qabs Qminmax List Bool Lia Lqa.
From Stdlib Require Import Sorting.Sorted Sorting.Permutation.
From Stdlib Require DecimalString DecimalNat DecimalFacts.
Import ListNotations.

Local Open Scope string_scope.
Local Open Scope list_scope.
Local Open Scope Z_scope.

Set Implicit Arguments.

(* ===================================================================== *)
(** * JavaScript primitives used by the sources *)
(* ===================================================================== *)

Module JS.

(** Outcome of an expression that may throw. *)
Inductive Completion (A : Type) : Type :=
| Normal (v : A)
| Throw.
Arguments Normal {A} v.
Arguments Throw {A}.

Definition bind {A B} (c : Completion A) (k : A -> Completion B) : Completion B :=
  match c with
  | Normal v => k v
  | Throw => Throw
  end.

Notation "x <- c ;; k" := (bind c (fun x => k))
  (at level 61, c at next level, right associativity).

(** ** [Array.prototype.slice(0, end)] *)

(** A negative [end] counts from the end of the array; the result index is
    clamped to [0 .. length]. *)
Definition slice0 {A} (l : list A) (end_ : Z) : list A :=
  let len := Z.of_nat (length l) in
  let final := if end_ <? 0 then Z.max (len + end_) 0 else Z.min end_ len in
  firstn (Z.to_nat final) l.

(** ** [Array.prototype.sort(compareFn)] *)

(** [compareFn x y > 0] asks for [x] to be placed after [y].  The sort is
    stable, so for a consistent comparator its result is determined; it is
    computed here by insertion from the right, which keeps an element in
    front of the later elements it compares equal to. *)
Section Sort.
Context {A : Type} (compareFn : A -> A -> Z).

Fixpoint insert (x : A) (l : list A) : list A :=
  match l with
  | [] => [x]
  | y :: l' => if 0 <? compareFn x y then y :: insert x l' else x :: l
  end.

Definition sort (l : list A) : list A := fold_right insert [] l.
End Sort.

(** The comparator [(a, b) => b.score - a.score] over records with an
    integer score. *)
Definition byScoreDesc {A} (score : A -> Z) (a b : A) : Z := score b - score a.

(** A list ordered by non-increasing score. *)
Definition descending {A} (score : A -> Z) (l : list A) : Prop :=
  StronglySorted (fun a b => score b <= score a) l.

(** ** [parseInt(string)] without a radix *)

(** Texts are held in UTF-8: a character up to U+007F is one byte, and
    a character above it is the sequence of its two or three bytes.

    [parseInt] skips the white space and the line terminators of
    JavaScript at the start of its argument.  Those of one byte are
    U+0009 to U+000D and U+0020. *)
Definition whiteSpace1 (a : nat) : bool :=
  (Nat.eqb a 32 || (Nat.leb 9 a && Nat.leb a 13))%bool.

(** Of two bytes: U+00A0, the no-break space (C2 A0). *)
Definition whiteSpace2 (a b : nat) : bool :=
  (Nat.eqb a 194 && Nat.eqb b 160)%bool.

(** Of three bytes: U+1680 (E1 9A 80), U+2000 to U+200A (E2 80 80 to
    E2 80 8A), the line and paragraph separators U+2028 and U+2029
    (E2 80 A8, E2 80 A9), U+202F (E2 80 AF), U+205F (E2 81 9F), U+3000
    (E3 80 80) and the byte order mark U+FEFF (EF BB BF). *)
Definition whiteSpace3 (a b c : nat) : bool :=
  ((Nat.eqb a 225 && Nat.eqb b 154 && Nat.eqb c 128)
   || (Nat.eqb a 226 && Nat.eqb b 128
       && ((Nat.leb 128 c && Nat.leb c 138) || Nat.eqb c 168 || Nat.eqb c 169
           || Nat.eqb c 175))
   || (Nat.eqb a 226 && Nat.eqb b 129 && Nat.eqb c 159)
   || (Nat.eqb a 227 && Nat.eqb b 128 && Nat.eqb c 128)
   || (Nat.eqb a 239 && Nat.eqb b 187 && Nat.eqb c 191))%bool.

Fixpoint trimStart (s : string) : string :=
  match s with
  | String a r1 =>
      let n := nat_of_ascii a in
      if whiteSpace1 n then trimStart r1
      else if Nat.ltb n 128 then s
      else
        match r1 with
        | String b r2 =>
            if whiteSpace2 n (nat_of_ascii b) then trimStart r2
            else
              match r2 with
              | String c r3 =>
                  if whiteSpace3 n (nat_of_ascii b) (nat_of_ascii c)
                  then trimStart r3
                  else s
              | EmptyString => s
              end
        | EmptyString => s
        end
  | EmptyString => s
  end.

(** The text of one character given by its bytes. *)
Definition character (bytes : list nat) : string :=
  fold_right (fun b s => String (ascii_of_nat b) s) EmptyString bytes.

(** Value of a character as a digit, for radices up to 36. *)
Definition digitValue (c : ascii) : option Z :=
  let n := Z.of_nat (nat_of_ascii c) in
  if (48 <=? n) && (n <=? 57) then Some (n - 48)
  else if (97 <=? n) && (n <=? 122) then Some (n - 87)
  else if (65 <=? n) && (n <=? 90) then Some (n - 55)
  else None.

(** The longest prefix of digits of the radix, read as a number; [None]
    when there is no digit at all. *)
Fixpoint parseDigits (radix : Z) (s : string) (acc : option Z) : option Z :=
  match s with
  | EmptyString => acc
  | String c s' =>
      match digitValue c with
      | Some d =>
          if d <? radix
          then parseDigits radix s'
                 (Some (radix * match acc with Some a => a | None => 0 end + d))
          else acc
      | None => acc
      end
  end.

(** [None] stands for [NaN].  Leading white space is skipped, then an
    optional sign, then an optional [0x]/[0X] prefix selecting radix 16.
    The result is kept exact; a JavaScript number is exact up to 2^53,
    far above any list length. *)
Definition parseInt (s : string) : option Z :=
  let s1 := trimStart s in
  let '(sign, s2) :=
    match s1 with
    | String "-"%char r => (-1, r)
    | String "+"%char r => (1, r)
    | _ => (1, s1)
    end in
  let '(radix, s3) :=
    match s2 with
    | String "0"%char (String "x"%char r) => (16, r)
    | String "0"%char (String "X"%char r) => (16, r)
    | _ => (10, s2)
    end in
  option_map (Z.mul sign) (parseDigits radix s3 None).

(** [parseInt(x) || d]: [NaN] and [0] are falsy. *)
Definition orDefault (n : option Z) (d : Z) : Z :=
  match n with
  | None => d
  | Some 0 => d
  | Some v => v
  end.

(** A query-string parameter read as [req.query.name as string] and given
    at most once in the URL: an absent parameter is [undefined], which
    [parseInt] turns into the text ["undefined"]. *)
Definition parseIntQuery (q : option string) : option Z :=
  parseInt (match q with Some s => s | None => "undefined" end).

(** The decimal text of a natural number, as a client writes a limit in
    a query string. *)
Definition decimal (n : nat) : string :=
  DecimalString.NilEmpty.string_of_uint (Nat.to_uint n).

(** JavaScript truthiness of an optional string. *)
Definition truthyString (s : option string) : bool :=
  match s with
  | Some (String _ _) => true
  | _ => false
  end.

(** ** Values *)

(** What [JSON.parse] can produce, and [undefined] for a property that is
    not there.  Numbers are integers, as the scores, timestamps and limits
    of this application are; the sources do nothing with a number but
    store it, subtract it from another and take the sign. *)
#[warnings="-register-all"]
Inductive value : Type :=
| VUndefined
| VNull
| VBool (b : bool)
| VNum (n : Z)
| VStr (s : string)
| VArr (items : list value)
| VObj (fields : list (string * value)).

Fixpoint lookup (fields : list (string * value)) (p : string) : value :=
  match fields with
  | [] => VUndefined
  | (k, v) :: rest => if String.eqb k p then v else lookup rest p
  end.

(** The property read [v.p], for the property names the sources read
    ([gameSlug], [score], [playerName]): it throws a [TypeError] on [null]
    and [undefined], and finds nothing on a primitive or an array. *)
Definition getProp (v : value) (p : string) : Completion value :=
  match v with
  | VUndefined | VNull => Throw
  | VObj fields => Normal (lookup fields p)
  | _ => Normal VUndefined
  end.

(** Whether [v] converts to a primitive.  [ToPrimitive] calls the
    [valueOf] and [toString] methods it finds; an object read from JSON
    inherits callable ones unless it has a property of its own named
    [toString], whose value cannot be called: the conversion then throws
    a [TypeError].  An array converts through [join], which converts its
    entries. *)
Fixpoint convertible (v : value) : bool :=
  match v with
  | VObj fields => negb (existsb (fun kv => String.eqb (fst kv) "toString") fields)
  | VArr items => forallb convertible items
  | _ => true
  end.

(** [v === s] for a string [s]. *)
Definition strictEqualsString (v : value) (s : string) : bool :=
  match v with
  | VStr s' => String.eqb s' s
  | _ => false
  end.

(** ** Object spread and [JSON.stringify] *)

(** Defining the property [k] of an object: a property that is there
    keeps its place and takes the new value, a new one comes last. *)
Fixpoint defineProperty (k : string) (v : value) (fields : list (string * value))
  : list (string * value) :=
  match fields with
  | [] => [(k, v)]
  | (k', v') :: rest =>
      if String.eqb k' k then (k, v) :: rest
      else (k', v') :: defineProperty k v rest
  end.

(** [{ ...target, ...source }]: the properties of [source] are defined
    on the copy of [target] one after the other. *)
Definition assign (target source : list (string * value)) : list (string * value) :=
  fold_left (fun fields kv => defineProperty (fst kv) (snd kv) fields) source target.

(** The elements of an array as the properties that a spread copies,
    named by their indices. *)
Definition indexed (items : list value) : list (string * value) :=
  combine (map decimal (seq 0 (List.length items))) items.

(** What [JSON.parse(JSON.stringify(v))] is: a property whose value is
    [undefined] is left out, an [undefined] element of an array becomes
    [null]. *)
Fixpoint stringified (v : value) : value :=
  match v with
  | VObj fields =>
      VObj (flat_map (fun kv => let '(k, w) := kv in
                                match w with
                                | VUndefined => []
                                | _ => [(k, stringified w)]
                                end) fields)
  | VArr items =>
      VArr (map (fun w => match w with
                          | VUndefined => VNull
                          | _ => stringified w
                          end) items)
  | _ => v
  end.

End JS.

Export JS.

(* ===================================================================== *)
(** * The generic game loop: [client/src/lib/game-engine.ts] *)
(* ===================================================================== *)

Module Engine.

(** [interface GameState].  Scores are the integers the games compute
    ([Math.floor] of a height or distance, or a multiple of ten). *)
Record GameState : Type := mkGameState {
  score : Z;
  isPlaying : bool;
  isPaused : bool;
  gameOver : bool
}.

(** [interface GameConfig]; it is fixed at construction and only read. *)
Record GameConfig : Type := mkGameConfig {
  width : Q;
  height : Q;
  fps : Q
}.

(** What a subclass method does to the base class: the six games reach the
    protected [state] only through [this.stop()] and
    [this.updateScore(n)]. *)
Inductive Call : Type :=
| CallStop
| CallUpdateScore (newScore : Z).

(** The abstract methods of [GameEngine], over the subclass's own fields
    [G].  A method sees the loop state on entry and returns its new fields
    with the base-class calls it made, in order.  [bindEvents] only
    registers DOM listeners and [render] only draws; neither touches the
    loop state. *)
Class GameHooks (G : Type) : Type := {
  update : Z -> GameState -> G -> G * list Call;
  reset : GameState -> G -> G * list Call
}.

(** A call received by one of the listeners of [setCallbacks]; the
    listeners are taken to return normally. *)
Inductive Notification : Type :=
| ScoreUpdate (newScore : Z)
| GameOver (finalScore : Z).

(** The engine object together with the part of the host it talks to:
    the frame callbacks handed to [requestAnimationFrame] that have
    neither run nor been cancelled, the next handle the host will give
    out (handles are positive), and the calls the listeners have received
    so far, oldest first. *)
Record Engine (G : Type) : Type := mkEngine {
  state : GameState;
  animationId : option nat;
  lastTime : Z;
  onScoreUpdate : bool;     (* is a score listener registered *)
  onGameOver : bool;        (* is a game-over listener registered *)
  game : G;
  frames : list nat;
  nextHandle : nat;
  notified : list Notification
}.

Arguments mkEngine {G}.
Arguments state {G}.
Arguments animationId {G}.
Arguments lastTime {G}.
Arguments onScoreUpdate {G}.
Arguments onGameOver {G}.
Arguments game {G}.
Arguments frames {G}.
Arguments nextHandle {G}.
Arguments notified {G}.

Section Loop.
Context {G : Type} {hooks : GameHooks G}.

(** The constructor, once the subclass constructor has set up [g]. *)
Definition create (g : G) : Engine G :=
  mkEngine (mkGameState 0 false false false) None 0 false false g [] 1%nat [].

Definition withState (s : GameState) (e : Engine G) : Engine G :=
  mkEngine s (animationId e) (lastTime e) (onScoreUpdate e) (onGameOver e)
           (game e) (frames e) (nextHandle e) (notified e).

Definition withGame (g : G) (e : Engine G) : Engine G :=
  mkEngine (state e) (animationId e) (lastTime e) (onScoreUpdate e)
           (onGameOver e) g (frames e) (nextHandle e) (notified e).

Definition withLastTime (t : Z) (e : Engine G) : Engine G :=
  mkEngine (state e) (animationId e) t (onScoreUpdate e) (onGameOver e)
           (game e) (frames e) (nextHandle e) (notified e).

Definition notify (n : Notification) (e : Engine G) : Engine G :=
  mkEngine (state e) (animationId e) (lastTime e) (onScoreUpdate e)
           (onGameOver e) (game e) (frames e) (nextHandle e)
           (notified e ++ [n]).

(** [requestAnimationFrame(cb)], its handle stored in [animationId]. *)
Definition requestAnimationFrame (e : Engine G) : Engine G :=
  mkEngine (state e) (Some (nextHandle e)) (lastTime e) (onScoreUpdate e)
           (onGameOver e) (game e) (frames e ++ [nextHandle e])
           (S (nextHandle e)) (notified e).

(** [if (this.animationId) { cancelAnimationFrame(id); this.animationId = null }];
    a zero handle would be falsy. *)
Definition cancelPendingFrame (e : Engine G) : Engine G :=
  match animationId e with
  | Some (S h) =>
      mkEngine (state e) None (lastTime e) (onScoreUpdate e) (onGameOver e)
               (game e) (filter (fun h' => negb (Nat.eqb h' (S h))) (frames e))
               (nextHandle e) (notified e)
  | _ => e
  end.

Definition updateScore (newScore : Z) (e : Engine G) : Engine G :=
  let s := state e in
  let e1 := withState (mkGameState newScore (isPlaying s) (isPaused s) (gameOver s)) e in
  if onScoreUpdate e1 then notify (ScoreUpdate newScore) e1 else e1.

Definition stop (e : Engine G) : Engine G :=
  let e1 := cancelPendingFrame e in
  let s := state e1 in
  let e2 := withState (mkGameState (score s) false (isPaused s) true) e1 in
  if onGameOver e2 then notify (GameOver (score (state e2))) e2 else e2.

Fixpoint runCalls (cs : list Call) (e : Engine G) : Engine G :=
  match cs with
  | [] => e
  | CallStop :: cs' => runCalls cs' (stop e)
  | CallUpdateScore n :: cs' => runCalls cs' (updateScore n e)
  end.

(** Run a subclass method on the engine. *)
Definition runHook (h : GameState -> G -> G * list Call) (e : Engine G) : Engine G :=
  let '(g', cs) := h (state e) (game e) in
  runCalls cs (withGame g' e).

Definition gameLoop (currentTime : Z) (e : Engine G) : Engine G :=
  if negb (isPlaying (state e)) then e
  else
    let deltaTime := currentTime - lastTime e in
    let e1 := withLastTime currentTime e in
    let e2 :=
      if negb (isPaused (state e1)) && negb (gameOver (state e1))
      then runHook (update deltaTime) e1
      else e1 in
    requestAnimationFrame e2.

(** [now] is the value of [performance.now()]. *)
Definition start (now : Z) (e : Engine G) : Engine G :=
  if isPlaying (state e) then e
  else
    let s := state e in
    let e1 := withState (mkGameState (score s) true false false) e in
    let e2 := withLastTime now e1 in
    gameLoop (lastTime e2) e2.

Definition pause (e : Engine G) : Engine G :=
  let s := state e in
  withState (mkGameState (score s) (isPlaying s) (negb (isPaused s)) (gameOver s)) e.

Definition restart (now : Z) (e : Engine G) : Engine G :=
  start now (runHook reset (stop e)).

Definition setCallbacks (scoreListener gameOverListener : bool) (e : Engine G) : Engine G :=
  mkEngine (state e) (animationId e) (lastTime e) scoreListener
           gameOverListener (game e) (frames e) (nextHandle e) (notified e).

Definition getState (e : Engine G) : GameState := state e.

Definition destroy (e : Engine G) : Engine G := stop e.

(** The host runs the frame callback registered under [handle], if it is
    still pending; every callback is [(time) => this.gameLoop(time)]. *)
Definition fireFrame (handle : nat) (time : Z) (e : Engine G) : Engine G :=
  if existsb (Nat.eqb handle) (frames e)
  then gameLoop time
         (mkEngine (state e) (animationId e) (lastTime e) (onScoreUpdate e)
                   (onGameOver e) (game e)
                   (filter (fun h' => negb (Nat.eqb h' handle)) (frames e))
                   (nextHandle e) (notified e))
  else e.

(** What can happen to an engine: the public operations, the host
    running a frame, and the host running a DOM listener or a timer that
    the subclass set up (a click handler that ends the game, say). *)
Inductive Op : Type :=
| Start (now : Z)
| Pause
| Stop
| Restart (now : Z)
| SetCallbacks (scoreListener gameOverListener : bool)
| Destroy
| Frame (handle : nat) (time : Z)
| Listener (handler : GameState -> G -> G * list Call).

Definition step (e : Engine G) (op : Op) : Engine G :=
  match op with
  | Start now => start now e
  | Pause => pause e
  | Stop => stop e
  | Restart now => restart now e
  | SetCallbacks s g => setCallbacks s g e
  | Destroy => destroy e
  | Frame h t => fireFrame h t e
  | Listener handler => runHook handler e
  end.

Definition exec (ops : list Op) (e : Engine G) : Engine G :=
  fold_left step ops e.

(** [isPlaying] and [gameOver] are not both set. *)
Definition exclusive (e : Engine G) : Prop :=
  isPlaying (state e) && gameOver (state e) = false.

(** Calls that neither end the game nor move the score away from [sc]. *)
Definition quietCalls (sc : Z) (cs : list Call) : bool :=
  forallb (fun c => match c with
                    | CallStop => false
                    | CallUpdateScore n => n =? sc
                    end) cs.

(** The game-over notifications among what the listeners received. *)
Definition gameOvers (e : Engine G) : list Z :=
  flat_map (fun n => match n with GameOver s => [s] | ScoreUpdate _ => [] end)
           (notified e).

(** Operations that begin a game run. *)
Definition runsRequested (ops : list Op) : nat :=
  List.length (filter (fun op => match op with Start _ | Restart _ => true | _ => false end) ops).

(** The score that a subclass method leaves, given the base-class calls
    it made: the argument of its last [updateScore]. *)
Definition scoreAfter (cs : list Call) (sc : Z) : Z :=
  fold_left (fun sc c => match c with
                         | CallStop => sc
                         | CallUpdateScore n => n
                         end) cs sc.

(** A property [I] of the score and the subclass's fields that a
    subclass method or listener [h] keeps. *)
Definition preserves (I : Z -> G -> Prop) (h : GameState -> G -> G * list Call) : Prop :=
  forall s g, I (score s) g -> I (scoreAfter (snd (h s g)) (score s)) (fst (h s g)).

(** The score that the score listener heard last, 0 before it heard
    any (the games' components start their display at 0). *)
Definition lastScoreHeard (heard : list Notification) : Z :=
  fold_left (fun sc n => match n with
                         | ScoreUpdate newScore => newScore
                         | GameOver _ => sc
                         end) heard 0.

(** A score listener is registered and has heard the current score. *)
Definition upToDate (e : Engine G) : Prop :=
  onScoreUpdate e = true /\ lastScoreHeard (notified e) = score (state e).

(** Operations that leave a score listener registered. *)
Definition keepsScoreListener (op : Op) : bool :=
  match op with
  | SetCallbacks false _ => false
  | _ => true
  end.

(** Operations that neither begin nor end a run: a frame run by the host,
    [pause] and [setCallbacks]. *)
Definition passive (op : Op) : bool :=
  match op with
  | Pause | SetCallbacks _ _ | Frame _ _ => true
  | _ => false
  end.

End Loop.

End Engine.

(* ===================================================================== *)
(** * Doodle Stack: [class DoodleStackGameEngine extends GameEngine] *)
(* ===================================================================== *)

Module DoodleStack.
Import Engine.
Local Open Scope Q_scope.

Inductive Shape : Type := rectangle | circle | triangle | star.

(** [interface DoodleBlock].  Numbers are taken as exact rationals. *)
Record DoodleBlock : Type := mkBlock {
  x : Q;
  y : Q;
  width : Q;
  height : Q;
  color : string;
  shape : Shape;
  velocityX : Q;
  velocityY : Q;
  rotation : Q;
  angularVelocity : Q
}.

(** The private fields that change; [draws] counts the calls made to
    [Math.random()] so far. *)
Record Fields : Type := mkFields {
  blocks : list DoodleBlock;
  currentBlock : option DoodleBlock;
  stackHeight : Q;
  draws : nat
}.

Definition gravity : Q := 0.5.
Definition friction : Q := 0.98.
Definition dropSpeed : Q := 5.
Definition colors : list string :=
  ["#ef4444"; "#3b82f6"; "#10b981"; "#f59e0b"; "#8b5cf6"; "#ec4899"].
Definition shapes : list Shape := [rectangle; circle; triangle; star].

Definition Qltb (a b : Q) : bool := negb (Qle_bool b a).

Section Game.
(** [random n] is the value of the [n]-th call to [Math.random()], in
    [0, 1); [config] is the engine's configuration. *)
Variable random : nat -> Q.
Variable config : GameConfig.

(** [spawnNewBlock()].  The arithmetic is exact; in floating point each
    operation rounds its result to the nearest number, which keeps [<=]
    between results but can turn [<] into an equality. *)
Definition spawnNewBlock (f : Fields) : Fields :=
  let size := 30 + random (draws f) * 40 in
  let shape :=
    nth (Z.to_nat (Qfloor (random (S (draws f)) * 4))) shapes rectangle in
  let color :=
    nth (Z.to_nat (Qfloor (random (S (S (draws f))) * 6))) colors "" in
  mkFields (blocks f)
           (Some (mkBlock (Engine.width config / 2 - size / 2)
                          50 size size color shape 0 0 0 0))
           (stackHeight f)
           (S (S (S (draws f)))).

(** The constructor body after [super(canvas, config)]. *)
Definition initialFields : Fields :=
  spawnNewBlock (mkFields [] None 0 0%nat).

(** [dropCurrentBlock()] *)
Definition dropCurrentBlock (f : Fields) : Fields :=
  match currentBlock f with
  | None => f
  | Some b =>
      let dropped :=
        mkBlock (x b) (y b) (width b) (height b) (color b) (shape b)
                (velocityX b) dropSpeed (rotation b)
                ((random (draws f) - 0.5) * 10) in
      mkFields (blocks f ++ [dropped]) None (stackHeight f) (S (draws f))
  end.

(** The click, touch and space-key listener of [bindEvents]. *)
Definition handleDrop (s : GameState) (f : Fields) : Fields * list Call :=
  match currentBlock f with
  | Some _ => if isPlaying s then (dropCurrentBlock f, []) else (f, [])
  | None => (f, [])
  end.

(** The timer set by [dropCurrentBlock], 500 ms later. *)
Definition spawnAfterDrop (s : GameState) (f : Fields) : Fields * list Call :=
  if isPlaying s then (spawnNewBlock f, []) else (f, []).

(** [checkCollisions(block)]; [others] are the elements of [this.blocks]
    that are not the block itself.  [Math.sqrt(d2) < m] is decided on
    the squares. *)
Definition checkCollisions (block : DoodleBlock) (others : list DoodleBlock) : bool :=
  if Qle_bool (Engine.height config - 20) (y block + height block) then true
  else
    existsb
      (fun otherBlock =>
         let dx := x block - x otherBlock in
         let dy := y block - y otherBlock in
         let minDistance := (width block + width otherBlock) / 2 - 5 in
         Qltb 0 minDistance
         && Qltb (dx * dx + dy * dy) (minDistance * minDistance))
      others.

Definition isStackStable (bs : list DoodleBlock) : bool :=
  forallb
    (fun block =>
       negb (Qltb 0.5 (Qabs (velocityX block))
             || Qltb 0.5 (Qabs (velocityY block))))
    bs.

(** One iteration of the loop over the falling blocks, for the block at
    index [i]: physics, friction, bounce and settle; the result is [None]
    when the block has fallen off the screen and is spliced out. *)
Definition stepBlock (block : DoodleBlock) (others : list DoodleBlock) : option DoodleBlock :=
  let vy1 := velocityY block + gravity in
  let x1 := x block + velocityX block in
  let y1 := y block + vy1 in
  let rot1 := rotation block + angularVelocity block in
  let vx2 := velocityX block * friction in
  let vy2 := vy1 * friction in
  let av2 := angularVelocity block * friction in
  let moved :=
    mkBlock x1 y1 (width block) (height block) (color block) (shape block)
            vx2 vy2 rot1 av2 in
  let settled :=
    if checkCollisions moved others then
      let vy3 := if Qltb 0 vy2 then - vy2 * 0.3 else vy2 in
      let vx4 := if Qltb (Qabs vx2) 0.1 then 0 else vx2 in
      let vy4 := if Qltb (Qabs vy3) 0.1 then 0 else vy3 in
      mkBlock x1 y1 (width block) (height block) (color block) (shape block)
              vx4 vy4 rot1 av2
    else moved in
  if Qltb (Engine.height config + 100) (y settled) then None
  else Some settled.

(** [for (let i = blocks.length - 1; i >= 0; i--)], entered with
    [n = i + 1]. *)
Fixpoint updateBlocks (n : nat) (bs : list DoodleBlock) : list DoodleBlock :=
  match n with
  | O => bs
  | S i =>
      match nth_error bs i with
      | Some block =>
          let before := firstn i bs in
          let after := skipn (S i) bs in
          match stepBlock block (before ++ after) with
          | Some block' => updateBlocks i (before ++ block' :: after)
          | None => updateBlocks i (before ++ after)
          end
      | None => updateBlocks i bs
      end
  end.

(** A block that is not more than 100 below the lower edge of the board. *)
Definition onBoard (b : DoodleBlock) : Prop :=
  y b <= Engine.height config + 100.

Definition lowestPoint (b : DoodleBlock) (bs : list DoodleBlock) : Q :=
  fold_left (fun m block => Qmin m (y block)) bs (y b).

(** [update(deltaTime)], with [updateStackHeight()] inlined at its end. *)
Definition doodleUpdate (deltaTime : Z) (s : GameState) (f : Fields) : Fields * list Call :=
  let bs := updateBlocks (List.length (blocks f)) (blocks f) in
  let collapse :=
    (Nat.ltb 3 (List.length bs)) && negb (isStackStable bs)
    && (let topBlocks :=
          filter (fun block => Qltb (y block) (Engine.height config / 2)) bs in
        Nat.ltb 0 (List.length topBlocks)
        && existsb (fun block => Qltb 2 (Qabs (velocityX block))
                                 || Qltb 2 (Qabs (velocityY block)))
                   topBlocks) in
  let stopCall := if collapse then [CallStop] else [] in
  match bs with
  | [] => (mkFields bs (currentBlock f) 0 (draws f), stopCall)
  | b :: bs' =>
      let h := Engine.height config - lowestPoint b bs' in
      (mkFields bs (currentBlock f) h (draws f),
       stopCall ++ [CallUpdateScore (Qfloor (h / 10))])
  end.

Definition doodleReset (s : GameState) (f : Fields) : Fields * list Call :=
  (spawnNewBlock (mkFields [] None 0 (draws f)), [CallUpdateScore 0%Z]).

#[local] Instance doodleHooks : GameHooks Fields :=
  {| update := doodleUpdate; reset := doodleReset |}.

(** [new DoodleStackGameEngine(canvas, config)]. *)
Definition newEngine : Engine Fields := create initialFields.

End Game.

(** The component's configuration, and a sample source of random numbers. *)
Definition componentConfig : GameConfig := mkGameConfig 400 500 60.
Definition halves : nat -> Q := fun _ => 1 # 2.

(** A session of one run: the component registers its listeners, the
    player starts the game, and [stop] is then called twice. *)
Definition twoStops : list (@Op Fields) :=
  [SetCallbacks true true; Start 0%Z; Stop; Stop].

(** The board after the first block has been dropped, and a board whose
    only block has sunk 20 below the lower edge. *)
Definition droppedOnce : Fields :=
  fst (handleDrop halves (mkGameState 0 true false false)
                  (initialFields halves componentConfig)).

Definition sunkBoard : Fields :=
  mkFields [mkBlock 180 520 40 40 "#ef4444" rectangle 0 0 0 0] None 0 0%nat.

End DoodleStack.

(* ===================================================================== *)
(** * Tap Snake: [class TapSnakeGameEngine extends GameEngine] *)
(* ===================================================================== *)

Module TapSnake.
Import Engine.

(** [interface Position], also the shape of [direction].  The
    coordinates the game computes are whole numbers. *)
Record Position : Type := mkPosition { x : Z; y : Z }.

(** The private fields; [draws] counts the calls made to
    [Math.random()] so far. *)
Record Fields : Type := mkFields {
  snake : list Position;
  food : Position;
  direction : Position;
  lastMoveTime : Z;
  moveInterval : Z;
  foodEaten : Z;
  draws : nat
}.

Definition gridSize : Z := 20.

Definition withSnake (segments : list Position) (f : Fields) : Fields :=
  mkFields segments (food f) (direction f) (lastMoveTime f) (moveInterval f)
           (foodEaten f) (draws f).

Definition withLastMoveTime (t : Z) (f : Fields) : Fields :=
  mkFields (snake f) (food f) (direction f) t (moveInterval f) (foodEaten f)
           (draws f).

(** [isPositionOnSnake(pos)] *)
Definition isPositionOnSnake (pos : Position) (segments : list Position) : bool :=
  existsb (fun segment => (x segment =? x pos) && (y segment =? y pos)) segments.

(** [changeDirection()]: a quarter turn clockwise. *)
Definition changeDirection (f : Fields) : Fields :=
  mkFields (snake f) (food f)
           (mkPosition (- y (direction f)) (x (direction f)))
           (lastMoveTime f) (moveInterval f) (foodEaten f) (draws f).

(** The click, touch and space-key listener of [bindEvents]. *)
Definition handleTap (s : GameState) (f : Fields) : Fields * list Call :=
  if isPlaying s then (changeDirection f, []) else (f, []).

Section Game.
(** [random n] is the value of the [n]-th call to [Math.random()], in
    [0, 1); [config] is the engine's configuration. *)
Variable random : nat -> Q.
Variable config : GameConfig.

(** The position that one round of the loop of [generateFood] draws,
    with the calls [d] and [d + 1] to [Math.random()]. *)
Definition candidate (d : nat) : Position :=
  mkPosition
    (Qfloor (random d * (Engine.width config / inject_Z gridSize)) * gridSize)
    (Qfloor (random (S d) * (Engine.height config / inject_Z gridSize)) * gridSize).

(** [do { ... attempts++ } while (isPositionOnSnake(newFood) && attempts < 100)],
    entered with [retries = 100 - attempts - 1]: the hundredth position
    is taken whether it is on the snake or not. *)
Fixpoint tryFood (retries : nat) (segments : list Position) (d : nat) : Position * nat :=
  let newFood := candidate d in
  match retries with
  | S retries' =>
      if isPositionOnSnake newFood segments
      then tryFood retries' segments (S (S d))
      else (newFood, S (S d))
  | O => (newFood, S (S d))
  end.

(** [generateFood()] *)
Definition generateFood (f : Fields) : Fields :=
  let '(newFood, d) := tryFood 99 (snake f) (draws f) in
  mkFields (snake f) newFood (direction f) (lastMoveTime f) (moveInterval f)
           (foodEaten f) d.

(** [initializeGame()] *)
Definition initializeGame (f : Fields) : Fields :=
  let centerX := Qfloor ((Engine.width config / 2) / inject_Z gridSize) * gridSize in
  let centerY := Qfloor ((Engine.height config / 2) / inject_Z gridSize) * gridSize in
  generateFood
    (mkFields [mkPosition centerX centerY;
               mkPosition (centerX - gridSize) centerY;
               mkPosition (centerX - gridSize * 2) centerY]
              (food f) (mkPosition 1 0) (lastMoveTime f) (moveInterval f)
              (foodEaten f) (draws f)).

(** The field initialisers followed by the constructor body. *)
Definition initialFields : Fields :=
  initializeGame (mkFields [] (mkPosition 0 0) (mkPosition 1 0) 0 200 0 0%nat).

(** [checkCollision()], called when the snake is [head :: body]. *)
Definition checkCollision (head : Position) (body : list Position) : bool :=
  (x head <? 0)
  || Qle_bool (Engine.width config) (inject_Z (x head))
  || (y head <? 0)
  || Qle_bool (Engine.height config) (inject_Z (y head))
  || existsb (fun segment => (x head =? x segment) && (y head =? y segment)) body.

(** [moveSnake()].  On an empty snake, which the game never has, the new
    head has no coordinates, collides with nothing and is popped again. *)
Definition moveSnake (f : Fields) : Fields * list Call :=
  match snake f with
  | [] => (f, [])
  | first :: _ =>
      let head := mkPosition (x first + x (direction f) * gridSize)
                             (y first + y (direction f) * gridSize) in
      if checkCollision head (snake f)
      then (withSnake (head :: snake f) f, [CallStop])
      else if (x head =? x (food f)) && (y head =? y (food f))
      then
        let eaten := foodEaten f + 1 in
        (generateFood
           (mkFields (head :: snake f) (food f) (direction f) (lastMoveTime f)
                     (moveInterval f) eaten (draws f)),
         [CallUpdateScore (eaten * 10)])
      else (withSnake (removelast (head :: snake f)) f, [])
  end.

(** [update(deltaTime)] *)
Definition snakeUpdate (deltaTime : Z) (s : GameState) (f : Fields) : Fields * list Call :=
  let elapsed := lastMoveTime f + deltaTime in
  if moveInterval f <=? elapsed
  then
    let '(f1, calls) := moveSnake (withLastMoveTime elapsed f) in
    (mkFields (snake f1) (food f1) (direction f1) 0
              (Z.max 100 (200 - foodEaten f1 * 5)) (foodEaten f1) (draws f1),
     calls)
  else (withLastMoveTime elapsed f, []).

(** [reset()] *)
Definition snakeReset (s : GameState) (f : Fields) : Fields * list Call :=
  let f1 := initializeGame f in
  (mkFields (snake f1) (food f1) (direction f1) 0 200 0 (draws f1),
   [CallUpdateScore 0]).

#[local] Instance snakeHooks : GameHooks Fields :=
  {| update := snakeUpdate; reset := snakeReset |}.

(** [new TapSnakeGameEngine(canvas, config)]. *)
Definition newEngine : Engine Fields := create initialFields.

(** What the snake game keeps true between any two operations: the
    score is ten times the food eaten, the interval between moves is
    the one the food eaten gives, the direction is one of the four
    along an axis, and the snake has its three segments and one more for
    each food eaten. *)
Definition consistent (sc : Z) (f : Fields) : Prop :=
  sc = foodEaten f * 10
  /\ 0 <= foodEaten f
  /\ moveInterval f = Z.max 100 (200 - foodEaten f * 5)
  /\ In (direction f)
        [mkPosition 1 0; mkPosition 0 1; mkPosition (-1) 0; mkPosition 0 (-1)]
  /\ 3 + foodEaten f <= Z.of_nat (List.length (snake f)).

(** A position of the grid that lies on the board. *)
Definition insideBoard (p : Position) : Prop :=
  0 <= x p /\ (inject_Z (x p) < Engine.width config)%Q
  /\ 0 <= y p /\ (inject_Z (y p) < Engine.height config)%Q
  /\ (gridSize | x p) /\ (gridSize | y p).

End Game.

(** The operations of a session of Tap Snake: those of the engine, and
    the tap listener. *)
Definition sessionOp (op : @Op Fields) : Prop :=
  match op with
  | Listener handler => handler = handleTap
  | _ => True
  end.

(** The component's configuration and a sample source of random numbers. *)
Definition componentConfig : GameConfig := mkGameConfig 400 500 60.
Definition halves : nat -> Q := fun _ => 1 # 2.

(** A session in which the player taps twice before the first move. *)
Definition doubleTap : list (@Op Fields) :=
  [Start 0; Listener handleTap; Listener handleTap].

End TapSnake.

(* ===================================================================== *)
(** * Color Trap: [class ColorTrapGameEngine extends GameEngine] *)
(* ===================================================================== *)

Module ColorTrap.
Import Engine.
Local Open Scope Q_scope.

(** [interface ColorButton] *)
Record ColorButton : Type := mkButton {
  x : Q;
  y : Q;
  width : Q;
  height : Q;
  color : string;
  isTarget : bool
}.

(** The private fields that change; [draws] counts the calls made to
    [Math.random()] so far. *)
Record Fields : Type := mkFields {
  buttons : list ColorButton;
  targetColor : string;
  timeLeft : Z;
  lastTimeUpdate : Z;
  correctClicks : Z;
  draws : nat
}.

Definition colors : list string :=
  ["#ef4444"; "#3b82f6"; "#10b981"; "#f59e0b"; "#8b5cf6"; "#ec4899"].
Definition buttonSize : Q := 60.
Definition spacing : Q := 20.

(** The number that the literal [0.3] denotes: the double nearest to
    three tenths, 5404319552844595 / 2^54. *)
Definition targetChance : Q := 5404319552844595 # 18014398509481984.

(** [Math.ceil(Math.sqrt(n))] for a whole number [n]. *)
Definition ceilSqrt (n : Z) : Z :=
  if (Z.sqrt n * Z.sqrt n =? n)%Z then Z.sqrt n else (Z.sqrt n + 1)%Z.

(** [buttons[index].color = target; buttons[index].isTarget = true] *)
Fixpoint retarget (index : nat) (target : string) (bs : list ColorButton)
  : list ColorButton :=
  match bs, index with
  | [], _ => []
  | b :: bs', O =>
      mkButton (x b) (y b) (width b) (height b) target true :: bs'
  | b :: bs', S index' => b :: retarget index' target bs'
  end.

(** Whether the point [(px, py)] lies on the button. *)
Definition contains (button : ColorButton) (px py : Q) : bool :=
  Qle_bool (x button) px && Qle_bool px (x button + width button)
  && Qle_bool (y button) py && Qle_bool py (y button + height button).

Section Game.
(** [random n] is the value of the [n]-th call to [Math.random()], in
    [0, 1); [config] is the engine's configuration. *)
Variable random : nat -> Q.
Variable config : GameConfig.

(** [this.colors[Math.floor(Math.random() * this.colors.length)]] *)
Definition pickColor (d : nat) : string :=
  nth (Z.to_nat (Qfloor (random d * 6))) colors "".

(** The loop of [generateLevel], entered at index [i] with [remaining]
    rounds to go.  The second call to [Math.random()] of a round is made
    only when no target has been placed and the round is not the last. *)
Fixpoint placeButtons (remaining : nat) (i buttonCount cols : Z) (startX startY : Q)
         (target : string) (placedButtons : list ColorButton) (targetPlaced : bool)
         (d : nat) : list ColorButton * bool * nat :=
  match remaining with
  | O => (placedButtons, targetPlaced, d)
  | S remaining' =>
      let row := (i / cols)%Z in
      let col := Z.rem i cols in
      let bx := startX + inject_Z col * (buttonSize + spacing) in
      let by_ := startY + inject_Z row * (buttonSize + spacing) in
      let drawn := pickColor d in
      let '(place, d') :=
        if targetPlaced then (false, S d)
        else if (i =? buttonCount - 1)%Z then (true, S d)
        else (DoodleStack.Qltb (random (S d)) targetChance, S (S d)) in
      let button :=
        if place then mkButton bx by_ buttonSize buttonSize target true
        else mkButton bx by_ buttonSize buttonSize drawn false in
      placeButtons remaining' (i + 1)%Z buttonCount cols startX startY target
                   (placedButtons ++ [button]) (targetPlaced || place) d'
  end.

(** The loop of [generateLevel] as it runs on the fields [f]: the
    buttons it leaves, whether it has placed the target, and the calls
    made to [Math.random()] by its end. *)
Definition levelLoop (f : Fields) : list ColorButton * bool * nat :=
  let target := pickColor (draws f) in
  let buttonCount := (4 + Qfloor (random (S (draws f)) * 6))%Z in
  let cols := ceilSqrt buttonCount in
  let rows := Qceiling (inject_Z buttonCount / inject_Z cols) in
  let totalWidth := inject_Z cols * buttonSize + (inject_Z cols - 1) * spacing in
  let totalHeight := inject_Z rows * buttonSize + (inject_Z rows - 1) * spacing in
  let startX := (Engine.width config - totalWidth) / 2 in
  let startY := (Engine.height config - totalHeight) / 2 in
  placeButtons (Z.to_nat buttonCount) 0 buttonCount cols startX startY target
               [] false (S (S (draws f))).

(** [generateLevel()] *)
Definition generateLevel (f : Fields) : Fields :=
  let target := pickColor (draws f) in
  let buttonCount := (4 + Qfloor (random (S (draws f)) * 6))%Z in
  let cols := ceilSqrt buttonCount in
  let rows := Qceiling (inject_Z buttonCount / inject_Z cols) in
  let totalWidth := inject_Z cols * buttonSize + (inject_Z cols - 1) * spacing in
  let totalHeight := inject_Z rows * buttonSize + (inject_Z rows - 1) * spacing in
  let startX := (Engine.width config - totalWidth) / 2 in
  let startY := (Engine.height config - totalHeight) / 2 in
  let '(placed, targetPlaced, d) :=
    placeButtons (Z.to_nat buttonCount) 0 buttonCount cols startX startY target
                 [] false (S (S (draws f))) in
  let '(final, d') :=
    if negb targetPlaced && Nat.ltb 0 (List.length placed)
    then
      let randomIndex :=
        Z.to_nat (Qfloor (random d * inject_Z (Z.of_nat (List.length placed)))) in
      (retarget randomIndex target placed, S d)
    else (placed, d) in
  mkFields final target (timeLeft f) (lastTimeUpdate f) (correctClicks f) d'.

(** The field initialisers followed by the constructor body. *)
Definition initialFields : Fields :=
  generateLevel (mkFields [] "" 30 0 0 0%nat).

(** [handleClickAtPosition(x, y)], which the click and the touch
    listeners call with the position on the canvas. *)
Definition handleClickAtPosition (px py : Q) (s : GameState) (f : Fields)
  : Fields * list Call :=
  if negb (isPlaying s) then (f, [])
  else
    match find (fun button => contains button px py) (buttons f) with
    | Some button =>
        if isTarget button
        then
          let clicks := (correctClicks f + 1)%Z in
          (generateLevel
             (mkFields (buttons f) (targetColor f) (timeLeft f) (lastTimeUpdate f)
                       clicks (draws f)),
           [CallUpdateScore (clicks * 10)%Z])
        else (f, [CallStop])
    | None => (f, [])
    end.

(** [update(deltaTime)] *)
Definition trapUpdate (deltaTime : Z) (s : GameState) (f : Fields) : Fields * list Call :=
  let elapsed := (lastTimeUpdate f + deltaTime)%Z in
  if (1000 <=? elapsed)%Z
  then
    let left := (timeLeft f - 1)%Z in
    (mkFields (buttons f) (targetColor f) left 0 (correctClicks f) (draws f),
     if (left <=? 0)%Z then [CallStop] else [])
  else
    (mkFields (buttons f) (targetColor f) (timeLeft f) elapsed (correctClicks f)
              (draws f),
     []).

(** [reset()] *)
Definition trapReset (s : GameState) (f : Fields) : Fields * list Call :=
  (generateLevel (mkFields (buttons f) (targetColor f) 30 0 0 (draws f)),
   [CallUpdateScore 0%Z]).

#[local] Instance trapHooks : GameHooks Fields :=
  {| update := trapUpdate; reset := trapReset |}.

(** [new ColorTrapGameEngine(canvas, config)]. *)
Definition newEngine : Engine Fields := create initialFields.

(** Successive calls of [update], with the base-class calls they make. *)
Fixpoint runUpdates (deltaTimes : list Z) (s : GameState) (f : Fields)
  : Fields * list Call :=
  match deltaTimes with
  | [] => (f, [])
  | deltaTime :: later =>
      let '(f1, calls) := trapUpdate deltaTime s f in
      let '(f2, calls') := runUpdates later s f1 in
      (f2, calls ++ calls')
  end.

End Game.

(** The number of buttons of a level that are the target. *)
Definition targets (bs : list ColorButton) : nat :=
  List.length (filter isTarget bs).

(** A button as the loop of [generateLevel] places it for the target
    colour [target]. *)
Definition placedFor (target : string) (b : ColorButton) : Prop :=
  width b = buttonSize /\ height b = buttonSize
  /\ (isTarget b = true -> color b = target).

(** What the game keeps true between any two operations: the score is
    ten times the correct clicks, and the countdown is at most 30. *)
Definition consistent (sc : Z) (f : Fields) : Prop :=
  (sc = correctClicks f * 10 /\ 0 <= correctClicks f /\ timeLeft f <= 30)%Z.

(** The operations of a session of Color Trap: those of the engine, and
    clicks or touches anywhere on the canvas. *)
Definition sessionOp (random : nat -> Q) (config : GameConfig) (op : @Op Fields) : Prop :=
  match op with
  | Listener handler => exists px py, handler = handleClickAtPosition random config px py
  | _ => True
  end.

(** The component's configuration and a sample source of random numbers. *)
Definition componentConfig : GameConfig := mkGameConfig 400 500 60.
Definition halves : nat -> Q := fun _ => 1 # 2.

End ColorTrap.

(* ===================================================================== *)
(** * The in-memory store: [server/storage.ts] *)
(* ===================================================================== *)

(** The row types of [shared/schema.ts].  Dates are milliseconds since the
    epoch; a nullable or optional column is an [option]. *)

Module User.
Record t : Type := make { id : string; username : string; password : string }.
End User.

Module InsertUser.
Record t : Type := make { username : string; password : string }.
End InsertUser.

Module Game.
Record t : Type := make {
  id : string;
  name : string;
  slug : string;
  description : string;
  category : string;
  size : string;
  thumbnail : option string;
  isActive : option Z;
  createdAt : option Z
}.
End Game.

Module InsertGame.
Record t : Type := make {
  name : string;
  slug : string;
  description : string;
  category : string;
  size : string;
  thumbnail : option string;
  isActive : option Z
}.
End InsertGame.

Module Score.
Record t : Type := make {
  id : string;
  gameId : string;
  userId : option string;
  playerName : option string;
  score : Z;
  gameData : option value;
  createdAt : option Z
}.
End Score.

Module InsertScore.
Record t : Type := make {
  gameId : string;
  userId : option string;
  playerName : option string;
  score : Z;
  gameData : option value
}.
End InsertScore.

Module Challenge.
Record t : Type := make {
  id : string;
  gameId : string;
  title : string;
  description : string;
  target : Z;
  reward : Z;
  startDate : Z;
  endDate : Z;
  isActive : option Z
}.
End Challenge.

Module InsertChallenge.
Record t : Type := make {
  gameId : string;
  title : string;
  description : string;
  target : Z;
  reward : Z;
  startDate : Z;
  endDate : Z;
  isActive : option Z
}.
End InsertChallenge.

(** What the host supplies to a call: the result of [randomUUID()] and the
    clock read by [new Date()]. *)
Record Env : Type := mkEnv { uuid : string; clock : Z }.

(** [interface IStorage]: every operation is asynchronous and may reject. *)
Module IStorage.
Class t (S : Type) : Type := {
  getUser : string -> S -> Completion (option User.t);
  getUserByUsername : string -> S -> Completion (option User.t);
  createUser : Env -> InsertUser.t -> S -> Completion (User.t * S);
  getGames : S -> Completion (list Game.t);
  getGame : string -> S -> Completion (option Game.t);
  getGameBySlug : string -> S -> Completion (option Game.t);
  createGame : Env -> InsertGame.t -> S -> Completion (Game.t * S);
  getScores : option string -> option Z -> S -> Completion (list Score.t);
  createScore : Env -> InsertScore.t -> S -> Completion (Score.t * S);
  getTopScores : string -> Z -> S -> Completion (list Score.t);
  getChallenges : S -> Completion (list Challenge.t);
  getActiveChallenge : Env -> string -> S -> Completion (option Challenge.t);
  createChallenge : Env -> InsertChallenge.t -> S -> Completion (Challenge.t * S)
}.
End IStorage.

Module MemStorage.

(** A JavaScript [Map] with string keys: entries in insertion order,
    [set] on an existing key replaces the value in place. *)
Definition Map (V : Type) : Type := list (string * V).

Fixpoint set {V} (k : string) (v : V) (m : Map V) : Map V :=
  match m with
  | [] => [(k, v)]
  | (k', v') :: m' =>
      if String.eqb k' k then (k, v) :: m' else (k', v') :: set k v m'
  end.

Fixpoint get {V} (k : string) (m : Map V) : option V :=
  match m with
  | [] => None
  | (k', v) :: m' => if String.eqb k' k then Some v else get k m'
  end.

Definition values {V} (m : Map V) : list V := map snd m.

(** [class MemStorage]. *)
Record t : Type := make {
  users : Map User.t;
  games : Map Game.t;
  scores : Map Score.t;
  challenges : Map Challenge.t
}.

Definition defaultGames : list InsertGame.t :=
  [ InsertGame.make "Bottle Flip 2D" "bottle-flip-2d"
      "Perfect your timing! Flip the bottle and land it upright. Looks easy? Think again!"
      "Timing" "2.1MB" (Some "/games/bottle-flip.jpg") (Some 1);
    InsertGame.make "Color Trap" "color-trap"
      "Match the colors as fast as you can! Wrong move = game over. Test your reflexes!"
      "Reaction" "1.8MB" (Some "/games/color-trap.jpg") (Some 1);
    InsertGame.make "Traffic Tapper" "traffic-tapper"
      "Control traffic flow with perfect timing. One crash and it's over!"
      "Strategy" "3.2MB" (Some "/games/traffic-tapper.jpg") (Some 1);
    InsertGame.make "Paper Plane Flight" "paper-plane-flight"
      "Guide your paper plane through endless obstacles. How far can you fly?"
      "Endless" "2.7MB" (Some "/games/paper-plane.jpg") (Some 1);
    InsertGame.make "Tap Snake" "tap-snake"
      "Classic snake with a twist - just tap to turn! Simple but addictive."
      "Classic" "1.5MB" (Some "/games/tap-snake.jpg") (Some 1);
    InsertGame.make "Doodle Stack" "doodle-stack"
      "Stack random doodles as high as possible without letting them fall!"
      "Balance" "2.9MB" (Some "/games/doodle-stack.jpg") (Some 1) ].

(** [{ ...insertGame, id, createdAt: new Date() }] and its likes. *)
Definition fullGame (id : string) (now : Z) (game : InsertGame.t) : Game.t :=
  Game.make id (InsertGame.name game) (InsertGame.slug game)
            (InsertGame.description game) (InsertGame.category game)
            (InsertGame.size game) (InsertGame.thumbnail game)
            (InsertGame.isActive game) (Some now).

Definition fullScore (id : string) (now : Z) (insertScore : InsertScore.t) : Score.t :=
  Score.make id (InsertScore.gameId insertScore)
             (InsertScore.userId insertScore) (InsertScore.playerName insertScore)
             (InsertScore.score insertScore) (InsertScore.gameData insertScore)
             (Some now).

Definition fullChallenge (id : string) (challenge : InsertChallenge.t) : Challenge.t :=
  Challenge.make id (InsertChallenge.gameId challenge)
                 (InsertChallenge.title challenge)
                 (InsertChallenge.description challenge)
                 (InsertChallenge.target challenge) (InsertChallenge.reward challenge)
                 (InsertChallenge.startDate challenge)
                 (InsertChallenge.endDate challenge)
                 (InsertChallenge.isActive challenge).

(** [initializeGames()]: the [n]-th default game gets the [n]-th UUID. *)
Fixpoint initializeGames (uuids : list string) (today : Z)
         (defaults : list InsertGame.t) (m : Map Game.t) : Map Game.t :=
  match defaults, uuids with
  | game :: defaults', id :: uuids' =>
      initializeGames uuids' today defaults'
        (set id (fullGame id today game) m)
  | _, _ => m
  end.

Definition day : Z := 24 * 60 * 60 * 1000.

(** [games.find(g => g.slug === slug)?.id || ''] *)
Definition idOfSlug (gs : list Game.t) (slug : string) : string :=
  match find (fun g => String.eqb (Game.slug g) slug) gs with
  | Some g => Game.id g
  | None => ""
  end.

Definition defaultChallenges (gs : list Game.t) (today : Z) : list InsertChallenge.t :=
  let tomorrow := today + day in
  [ InsertChallenge.make (idOfSlug gs "bottle-flip-2d") "Bottle Flip Master"
      "Land 10 consecutive flips" 10 500 today tomorrow (Some 1);
    InsertChallenge.make (idOfSlug gs "color-trap") "Speed Demon"
      "Complete Color Trap in under 30 seconds" 30 750 tomorrow
      (tomorrow + day) (Some 1);
    InsertChallenge.make (idOfSlug gs "traffic-tapper") "Traffic Master"
      "Guide 100 vehicles without a crash" 100 1000 (tomorrow + day)
      (tomorrow + 48 * 60 * 60 * 1000) (Some 1) ].

Fixpoint initializeChallenges (uuids : list string)
         (defaults : list InsertChallenge.t) (m : Map Challenge.t) : Map Challenge.t :=
  match defaults, uuids with
  | challenge :: defaults', id :: uuids' =>
      initializeChallenges uuids' defaults'
        (set id (fullChallenge id challenge) m)
  | _, _ => m
  end.

(** [new MemStorage()]; [uuids] are the values [randomUUID()] returns, in
    order, and [today] the clock during construction. *)
Definition create (uuids : list string) (today : Z) : t :=
  let gs := initializeGames uuids today defaultGames [] in
  let cs := initializeChallenges (skipn (List.length defaultGames) uuids)
              (defaultChallenges (values gs) today) [] in
  make [] gs [] cs.

Definition getUser (id : string) (s : t) : option User.t := get id (users s).

Definition getUserByUsername (username : string) (s : t) : option User.t :=
  find (fun user => String.eqb (User.username user) username) (values (users s)).

Definition createUser (env : Env) (insertUser : InsertUser.t) (s : t) : User.t * t :=
  let user := User.make (uuid env) (InsertUser.username insertUser)
                        (InsertUser.password insertUser) in
  (user, make (set (uuid env) user (users s)) (games s) (scores s) (challenges s)).

Definition isOne (n : option Z) : bool :=
  match n with
  | Some 1 => true
  | _ => false
  end.

Definition getGames (s : t) : list Game.t :=
  filter (fun game => isOne (Game.isActive game)) (values (games s)).

Definition getGame (id : string) (s : t) : option Game.t := get id (games s).

Definition getGameBySlug (slug : string) (s : t) : option Game.t :=
  find (fun game => String.eqb (Game.slug game) slug) (values (games s)).

Definition createGame (env : Env) (insertGame : InsertGame.t) (s : t) : Game.t * t :=
  let game := fullGame (uuid env) (clock env) insertGame in
  (game, make (users s) (set (uuid env) game (games s)) (scores s) (challenges s)).

(** [getScores(gameId?, limit = 100)] *)
Definition getScores (gameId : option string) (limit : option Z) (s : t) : list Score.t :=
  let limit := match limit with Some n => n | None => 100 end in
  let all := values (scores s) in
  let selected :=
    if truthyString gameId
    then filter (fun score =>
                   match gameId with
                   | Some g => String.eqb (Score.gameId score) g
                   | None => false
                   end) all
    else all in
  slice0 (sort (byScoreDesc Score.score) selected) limit.

Definition createScore (env : Env) (insertScore : InsertScore.t) (s : t) : Score.t * t :=
  let score := fullScore (uuid env) (clock env) insertScore in
  (score, make (users s) (games s) (set (uuid env) score (scores s)) (challenges s)).

Definition getTopScores (gameId : string) (limit : Z) (s : t) : list Score.t :=
  getScores (Some gameId) (Some limit) s.

Definition getChallenges (s : t) : list Challenge.t :=
  filter (fun challenge => isOne (Challenge.isActive challenge)) (values (challenges s)).

(** The predicate of [getActiveChallenge], [now] being [new Date()]. *)
Definition activeFor (gameId : string) (now : Z) (challenge : Challenge.t) : bool :=
  String.eqb (Challenge.gameId challenge) gameId
  && isOne (Challenge.isActive challenge)
  && (Challenge.startDate challenge <=? now)
  && (Challenge.endDate challenge >=? now).

Definition getActiveChallenge (env : Env) (gameId : string) (s : t) : option Challenge.t :=
  find (activeFor gameId (clock env)) (values (challenges s)).

Definition createChallenge (env : Env) (insertChallenge : InsertChallenge.t) (s : t)
  : Challenge.t * t :=
  let challenge := fullChallenge (uuid env) insertChallenge in
  (challenge,
   make (users s) (games s) (scores s) (set (uuid env) challenge (challenges s))).

(** What [shared/schema.ts] declares of the [slug] column, that it is
    unique: no two games of the store have the same slug. *)
Definition uniqueSlugs (s : t) : Prop :=
  NoDup (map Game.slug (values (games s))).

(** [MemStorage implements IStorage]; none of its operations rejects. *)
#[global] Instance storage : IStorage.t t := {|
  IStorage.getUser := fun id s => Normal (getUser id s);
  IStorage.getUserByUsername := fun username s => Normal (getUserByUsername username s);
  IStorage.createUser := fun env u s => Normal (createUser env u s);
  IStorage.getGames := fun s => Normal (getGames s);
  IStorage.getGame := fun id s => Normal (getGame id s);
  IStorage.getGameBySlug := fun slug s => Normal (getGameBySlug slug s);
  IStorage.createGame := fun env g s => Normal (createGame env g s);
  IStorage.getScores := fun gameId limit s => Normal (getScores gameId limit s);
  IStorage.createScore := fun env sc s => Normal (createScore env sc s);
  IStorage.getTopScores := fun gameId limit s => Normal (getTopScores gameId limit s);
  IStorage.getChallenges := fun s => Normal (getChallenges s);
  IStorage.getActiveChallenge := fun env gameId s => Normal (getActiveChallenge env gameId s);
  IStorage.createChallenge := fun env c s => Normal (createChallenge env c s)
|}.

End MemStorage.

(* ===================================================================== *)
(** * The HTTP layer: [server/routes.ts] *)
(* ===================================================================== *)

Module Routes.

(** What a handler sends: [res.json(x)] with the status set before it,
    200 by default.  [res.json(undefined)] sends no body. *)
Inductive Body : Type :=
| GamesBody (games : list Game.t)
| GameBody (game : Game.t)
| ScoresBody (scores : list Score.t)
| ScoreBody (score : Score.t)
| ChallengesBody (challenges : list Challenge.t)
| ChallengeBody (challenge : Challenge.t)
| EmptyBody
| MessageBody (message : string).

Record Response : Type := mkResponse { status : nat; body : Body }.

Definition failure (code : nat) (message : string) : Response :=
  mkResponse code (MessageBody message).

Section Handlers.
Context {S : Type} {storage : IStorage.t S}.

(** [insertScoreSchema.parse], which throws on a body that does not
    match the schema. *)
Variable insertScoreSchema : value -> Completion InsertScore.t.

(** [app.get("/api/games")] *)
Definition GET_api_games (s : S) : Response :=
  match IStorage.getGames s with
  | Normal games => mkResponse 200 (GamesBody games)
  | Throw => failure 500 "Failed to fetch games"
  end.

(** [app.get("/api/games/:slug")] *)
Definition GET_api_games_slug (slug : string) (s : S) : Response :=
  match IStorage.getGameBySlug slug s with
  | Normal None => failure 404 "Game not found"
  | Normal (Some game) => mkResponse 200 (GameBody game)
  | Throw => failure 500 "Failed to fetch game"
  end.

(** [app.get("/api/scores")], with [req.query.gameId] and
    [req.query.limit]. *)
Definition GET_api_scores (gameId limit : option string) (s : S) : Response :=
  let limit := orDefault (parseIntQuery limit) 10 in
  match IStorage.getScores gameId (Some limit) s with
  | Normal scores => mkResponse 200 (ScoresBody scores)
  | Throw => failure 500 "Failed to fetch scores"
  end.

(** [app.post("/api/scores")]: one [try] around the parse and the store
    call, one [catch].  When the store rejects, what it did to its data
    is not known; the store is returned as it was. *)
Definition POST_api_scores (env : Env) (body : value) (s : S) : Response * S :=
  match (scoreData <- insertScoreSchema body ;;
         IStorage.createScore env scoreData s) with
  | Normal (score, s') => (mkResponse 201 (ScoreBody score), s')
  | Throw => (failure 400 "Invalid score data", s)
  end.

(** [app.get("/api/leaderboard/:gameId")] *)
Definition GET_api_leaderboard (gameId : string) (limit : option string) (s : S) : Response :=
  let limit := orDefault (parseIntQuery limit) 10 in
  match IStorage.getTopScores gameId limit s with
  | Normal scores => mkResponse 200 (ScoresBody scores)
  | Throw => failure 500 "Failed to fetch leaderboard"
  end.

(** [app.get("/api/challenges")] *)
Definition GET_api_challenges (s : S) : Response :=
  match IStorage.getChallenges s with
  | Normal challenges => mkResponse 200 (ChallengesBody challenges)
  | Throw => failure 500 "Failed to fetch challenges"
  end.

(** [app.get("/api/challenges/:gameId")] *)
Definition GET_api_challenges_gameId (env : Env) (gameId : string) (s : S) : Response :=
  match IStorage.getActiveChallenge env gameId s with
  | Normal (Some challenge) => mkResponse 200 (ChallengeBody challenge)
  | Normal None => mkResponse 200 EmptyBody
  | Throw => failure 500 "Failed to fetch challenge"
  end.

End Handlers.

(** The records a score query selects: those of [gameId] when it is
    given and not empty, all of them otherwise; and their ranking. *)
Definition matching (gameId : option string) (s : MemStorage.t) : list Score.t :=
  if truthyString gameId
  then filter (fun score =>
                 match gameId with
                 | Some g => String.eqb (Score.gameId score) g
                 | None => false
                 end)
              (MemStorage.values (MemStorage.scores s))
  else MemStorage.values (MemStorage.scores s).

Definition ranked (gameId : option string) (s : MemStorage.t) : list Score.t :=
  sort (byScoreDesc Score.score) (matching gameId s).

(** The records with game identifier [gameId] held by the store. *)
Definition scoresOf (gameId : string) (s : MemStorage.t) : list Score.t :=
  filter (fun score => String.eqb (Score.gameId score) gameId)
         (MemStorage.values (MemStorage.scores s)).

(** The scores a response carries. *)
Definition sentScores (r : Response) : list Score.t :=
  match body r with
  | ScoresBody scores => scores
  | _ => []
  end.

End Routes.

(* ===================================================================== *)
(** * Sample data for the server *)
(* ===================================================================== *)

Module Samples.

(** The parser that [createInsertSchema(scores).omit({ id, createdAt })]
    describes: [gameId] a string, [score] an integer, [userId] and
    [playerName] optional nullable strings, [gameData] optional. *)
Definition optionalString (v : value) : Completion (option string) :=
  match v with
  | VUndefined | VNull => Normal None
  | VStr s => Normal (Some s)
  | _ => Throw
  end.

Definition insertScoreSchema (body : value) : Completion InsertScore.t :=
  match body with
  | VObj fields =>
      match lookup fields "gameId", lookup fields "score" with
      | VStr gameId, VNum score =>
          userId <- optionalString (lookup fields "userId") ;;
          playerName <- optionalString (lookup fields "playerName") ;;
          Normal (InsertScore.make gameId userId playerName score
                    (match lookup fields "gameData" with
                     | VUndefined => None
                     | v => Some v
                     end))
      | _, _ => Throw
      end
  | _ => Throw
  end.

Definition uuids : list string :=
  ["u1"; "u2"; "u3"; "u4"; "u5"; "u6"; "u7"; "u8"; "u9"].
Definition today : Z := 1700000000000.

(** The store as the server module creates it. *)
Definition fresh : MemStorage.t := MemStorage.create uuids today.

(** Request bodies [{gameId: "g1", score: 450}] and [{gameId: "g1", score: 900}]. *)
Definition body450 : value := VObj [("gameId", VStr "g1"); ("score", VNum 450)].
Definition body900 : value := VObj [("gameId", VStr "g1"); ("score", VNum 900)].

(** A body without a score. *)
Definition bodyNoScore : value := VObj [("gameId", VStr "g1")].

(** The store after [POST /api/scores] with [body450]. *)
Definition afterOne : MemStorage.t :=
  snd (Routes.POST_api_scores insertScoreSchema (mkEnv "s1" (today + 1)) body450 fresh).

(** The store after the two posts of the example scenario. *)
Definition afterTwo : MemStorage.t :=
  snd (Routes.POST_api_scores insertScoreSchema (mkEnv "s2" (today + 2)) body900 afterOne).

(** A game with a slug no other game has. *)
Definition pongGame : InsertGame.t :=
  InsertGame.make "Pong" "pong" "Two paddles." "Classic" "0.5MB" None (Some 1).

(** A second challenge for Bottle Flip, active over the same day as the
    default one. *)
Definition secondChallenge : InsertChallenge.t :=
  InsertChallenge.make "u1" "Bottle Flip Sprint" "Land 3 flips" 3 100 today
                       (today + MemStorage.day) (Some 1).

Definition afterCreateChallenge : Challenge.t * MemStorage.t :=
  MemStorage.createChallenge (mkEnv "c4" today) secondChallenge fresh.

End Samples.

(* ===================================================================== *)
(** * The client-side cache: [client/src/lib/storage.ts] *)
(* ===================================================================== *)

Module LocalStorage.

(** [interface GameScore] *)
Record GameScore : Type := mkGameScore {
  gameSlug : string;
  score : Z;
  playerName : option string;
  timestamp : Z;
  gameData : option value
}.

(** A text kept by the browser's [localStorage], told apart by what
    [JSON.parse] makes of it: the empty string, a text that [JSON.parse]
    rejects, or the JSON text of a value.  [JSON.stringify(v)] is the text
    of [v]. *)
Inductive Item : Type :=
| EmptyText
| Garbled
| Json (v : value).

Definition JSON_parse (text : Item) : Completion value :=
  match text with
  | Json v => Normal v
  | EmptyText | Garbled => Throw
  end.

(** The browser's storage: keys with their texts. *)
Definition Storage : Type := list (string * Item).

Fixpoint getItem (key : string) (ls : Storage) : option Item :=
  match ls with
  | [] => None
  | (k, text) :: ls' => if String.eqb k key then Some text else getItem key ls'
  end.

Fixpoint setItem (key : string) (text : Item) (ls : Storage) : Storage :=
  match ls with
  | [] => [(key, text)]
  | (k, old) :: ls' =>
      if String.eqb k key then (key, text) :: ls' else (k, old) :: setItem key text ls'
  end.

Definition removeItem (key : string) (ls : Storage) : Storage :=
  filter (fun entry => negb (String.eqb (fst entry) key)) ls.

Definition SCORES_KEY : string := "taptime-scores".
Definition PREFERENCES_KEY : string := "taptime-preferences".

(** The object a [GameScore] is once written and read back: optional
    fields that are [undefined] are left out by [JSON.stringify]. *)
Definition encode (s : GameScore) : value :=
  VObj ([("gameSlug", VStr (gameSlug s)); ("score", VNum (score s))]
        ++ match playerName s with Some n => [("playerName", VStr n)] | None => [] end
        ++ [("timestamp", VNum (timestamp s))]
        ++ match gameData s with
           | Some VUndefined | None => []
           | Some d => [("gameData", d)]
           end).

(** [Array.prototype.filter] with a callback that may throw. *)
Fixpoint filterM (cb : value -> Completion bool) (items : list value)
  : Completion (list value) :=
  match items with
  | [] => Normal []
  | x :: items' =>
      keep <- cb x ;;
      rest <- filterM cb items' ;;
      Normal (if keep then x :: rest else rest)
  end.

(** [v.filter(cb)]: only an array has the method. *)
Definition filterArray (cb : value -> Completion bool) (v : value)
  : Completion (list value) :=
  match v with
  | VArr items => filterM cb items
  | _ => Throw
  end.

(** [Array.prototype.sort] with a comparator that may throw; see
    [JS.sort]. *)
Section SortM.
Variable compareFn : value -> value -> Completion Z.

Fixpoint insertM (x : value) (l : list value) : Completion (list value) :=
  match l with
  | [] => Normal [x]
  | y :: l' =>
      c <- compareFn x y ;;
      if 0 <? c then (rest <- insertM x l' ;; Normal (y :: rest))
      else Normal (x :: l)
  end.

Fixpoint sortM (l : list value) : Completion (list value) :=
  match l with
  | [] => Normal []
  | x :: l' => sorted <- sortM l' ;; insertM x sorted
  end.
End SortM.

Section Cache.
(** The number that the text of a string or of an array stands for
    ([None] for [NaN]); reading a number off a text is left open. *)
Variable textToNumber : value -> option Z.

(** [ToNumber], [None] standing for [NaN]. *)
Definition toNumber (v : value) : Completion (option Z) :=
  match v with
  | VNum n => Normal (Some n)
  | VNull => Normal (Some 0)
  | VBool b => Normal (Some (if b then 1 else 0))
  | VUndefined => Normal None
  | VObj _ => if convertible v then Normal None else Throw
  | VStr _ => Normal (textToNumber v)
  | VArr _ => if convertible v then Normal (textToNumber v) else Throw
  end.

(** [(a, b) => b.score - a.score]; a [NaN] result counts as 0 for the
    sort. *)
Definition compareScores (a b : value) : Completion Z :=
  sb <- getProp b "score" ;;
  sa <- getProp a "score" ;;
  nb <- toNumber sb ;;
  na <- toNumber sa ;;
  Normal (match nb, na with
          | Some nb, Some na => nb - na
          | _, _ => 0
          end).

Definition hasSlug (slug : string) (s : value) : Completion bool :=
  p <- getProp s "gameSlug" ;; Normal (strictEqualsString p slug).

Definition hasOtherSlug (slug : string) (s : value) : Completion bool :=
  p <- getProp s "gameSlug" ;; Normal (negb (strictEqualsString p slug)).

(** [getScores(gameSlug?)]: the whole body is inside [try], and [catch]
    returns [[]]. *)
Definition getScores (gameSlug : option string) (ls : Storage) : value :=
  match
    (scores <- JSON_parse (match getItem SCORES_KEY ls with
                           | None | Some EmptyText => Json (VArr [])
                           | Some text => text
                           end) ;;
     if truthyString gameSlug
     then filtered <- filterArray
                        (hasSlug (match gameSlug with Some g => g | None => "" end))
                        scores ;;
          Normal (VArr filtered)
     else Normal scores)
  with
  | Normal v => v
  | Throw => VArr []
  end.

(** [v.sort(compareFn)]: only an array has the method. *)
Definition sortArray (v : value) : Completion (list value) :=
  match v with
  | VArr items => sortM compareScores items
  | _ => Throw
  end.

(** [getTopScores(gameSlug, limit = 10)] *)
Definition getTopScores (gameSlug : string) (limit : option Z) (ls : Storage)
  : Completion (list value) :=
  let limit := match limit with Some n => n | None => 10 end in
  sorted <- sortArray (getScores (Some gameSlug) ls) ;;
  Normal (slice0 sorted limit).

(** [getBestScore(gameSlug)] *)
Definition getBestScore (gameSlug : string) (ls : Storage) : Completion value :=
  scores <- getTopScores gameSlug (Some 1) ls ;;
  match scores with
  | first :: _ => getProp first "score"
  | [] => Normal (VNum 0)
  end.

(** [saveScore(score)]: [push] needs an array; nothing here is inside a
    [try]. *)
Definition saveScore (score : GameScore) (ls : Storage) : Completion Storage :=
  match getScores None ls with
  | VArr items =>
      let scores := items ++ [encode score] in
      gameScores <- filterM (hasSlug (gameSlug score)) scores ;;
      otherScores <- filterM (hasOtherSlug (gameSlug score)) scores ;;
      sorted <- sortM compareScores gameScores ;;
      let topGameScores := slice0 sorted 100 in
      let finalScores := otherScores ++ topGameScores in
      Normal (setItem SCORES_KEY (Json (VArr finalScores)) ls)
  | _ => Throw
  end.

(** Successive calls of [saveScore]. *)
Fixpoint saveScores (scores : list GameScore) (ls : Storage) : Completion Storage :=
  match scores with
  | [] => Normal ls
  | s :: scores' => ls' <- saveScore s ls ;; saveScores scores' ls'
  end.

Definition defaultPreferences : value :=
  VObj [("theme", VStr "system"); ("soundEnabled", VBool true)].

(** [getPreferences()] *)
Definition getPreferences (ls : Storage) : value :=
  match
    (match getItem PREFERENCES_KEY ls with
     | None | Some EmptyText => Normal defaultPreferences
     | Some text => JSON_parse text
     end)
  with
  | Normal v => v
  | Throw => defaultPreferences
  end.

(** [clearScores(gameSlug?)]; the filter is outside any [try]. *)
Definition clearScores (gameSlug : option string) (ls : Storage) : Completion Storage :=
  if truthyString gameSlug
  then kept <- filterArray
                 (hasOtherSlug (match gameSlug with Some g => g | None => "" end))
                 (getScores None ls) ;;
       Normal (setItem SCORES_KEY (Json (VArr kept)) ls)
  else Normal (removeItem SCORES_KEY ls).

Definition clearAll (ls : Storage) : Storage :=
  removeItem PREFERENCES_KEY (removeItem SCORES_KEY ls).

End Cache.

(** ** Saving preferences *)

(** The property names of [interface UserPreferences]. *)
Inductive PreferenceName : Type := Theme | SoundEnabled | PlayerName.

Definition nameOf (name : PreferenceName) : string :=
  match name with
  | Theme => "theme"
  | SoundEnabled => "soundEnabled"
  | PlayerName => "playerName"
  end.

(** The argument of [savePreferences], a [Partial<UserPreferences>]: the
    properties that the object has, in its order, each with its value
    (which may be [undefined]). *)
Definition PreferencesPatch : Type := list (PreferenceName * value).

Definition properties (preferences : PreferencesPatch) : list (string * value) :=
  map (fun p => (nameOf (fst p), snd p)) preferences.

Section Preferences.
(** The UTF-16 code units of a text, each as a text of its own; cutting
    a text into them is left open. *)
Variable codeUnits : string -> list string.

(** The properties that [{ ...v }] copies: those of an object, the
    elements of an array and the code units of a string under their
    indices, none for [null], [undefined], a boolean or a number. *)
Definition spread (v : value) : list (string * value) :=
  match v with
  | VObj fields => fields
  | VArr items => indexed items
  | VStr s => indexed (map VStr (codeUnits s))
  | _ => []
  end.

(** [savePreferences(preferences)] *)
Definition savePreferences (preferences : PreferencesPatch) (ls : Storage) : Storage :=
  let current := getPreferences ls in
  let updated := assign (assign [] (spread current)) (properties preferences) in
  setItem PREFERENCES_KEY (Json (stringified (VObj updated))) ls.

End Preferences.

(** ** Statistics *)

(** A running total of [reduce]: a number ([None] standing for [NaN]),
    or a text once [+] has met a text, an array or an object. *)
Inductive Total : Type :=
| TotalNumber (n : option Z)
| TotalText (t : string).

(** What [getGameStats] returns. *)
Record GameStats : Type := mkGameStats {
  gamesPlayed : Z;
  bestScore : option Z;
  averageScore : option Z;
  totalScore : Total
}.

Definition noStats : GameStats :=
  mkGameStats 0 (Some 0) (Some 0) (TotalNumber (Some 0)).

(** The sum and the maximum of numbers, one [NaN] making the result
    [NaN].  The sum is the exact one, which the floating-point sum of the
    source is when both numbers and their sum are whole numbers of
    magnitude at most 2^53. *)
Definition addNumbers (a b : option Z) : option Z :=
  match a, b with
  | Some x, Some y => Some (x + y)
  | _, _ => None
  end.

Definition maxNumbers (a b : option Z) : option Z :=
  match a, b with
  | Some x, Some y => Some (Z.max x y)
  | _, _ => None
  end.

(** [Math.round(t / n)] for whole numbers [t] and [n > 0]: the nearest
    whole number, a half going up.  The division of the source is a
    floating-point one; its rounding error is below [1 / (2 * n)], the
    least distance of a quotient from a half that it does not hit, as
    long as the magnitude of [t] is below 2^52, and the result is then
    this one. *)
Definition roundedQuotient (t n : Z) : Z := (2 * t + n) / (2 * n).

(** [items.map(f)] with a callback that may throw. *)
Fixpoint mapM {A B} (f : A -> Completion B) (items : list A) : Completion (list B) :=
  match items with
  | [] => Normal []
  | x :: items' =>
      y <- f x ;;
      rest <- mapM f items' ;;
      Normal (y :: rest)
  end.

Section Statistics.
Variable textToNumber : value -> option Z.

(** The text that [sum + v] is when [+] concatenates; writing a number,
    an array or an object as a text is left open. *)
Variable concatenation : Total -> value -> string.

(** [sum + v]: a concatenation as soon as one side is a text, and an
    array or an object is turned into a text first, which may throw;
    the sum of two numbers otherwise. *)
Definition plus (sum : Total) (v : value) : Completion Total :=
  match v with
  | VStr _ => Normal (TotalText (concatenation sum v))
  | VArr _ | VObj _ =>
      if convertible v then Normal (TotalText (concatenation sum v)) else Throw
  | VUndefined | VNull | VBool _ | VNum _ =>
      match sum with
      | TotalText _ => Normal (TotalText (concatenation sum v))
      | TotalNumber a =>
          n <- toNumber textToNumber v ;;
          Normal (TotalNumber (addNumbers a n))
      end
  end.

(** [items.reduce((sum, score) => sum + score.score, sum)] *)
Fixpoint totalOf (items : list value) (sum : Total) : Completion Total :=
  match items with
  | [] => Normal sum
  | score :: items' =>
      s <- getProp score "score" ;;
      sum' <- plus sum s ;;
      totalOf items' sum'
  end.

(** [Math.max(first, ...rest)], which turns every argument into a number
    before it compares; the spread arguments are taken to fit the call
    stack. *)
Definition mathMax (first : value) (rest : list value) : Completion (option Z) :=
  n <- toNumber textToNumber first ;;
  ns <- mapM (toNumber textToNumber) rest ;;
  Normal (fold_left maxNumbers ns n).

(** [Math.round(totalScore / n)] *)
Definition averageOf (total : Total) (n : Z) : option Z :=
  option_map (fun t => roundedQuotient t n)
             (match total with
              | TotalNumber a => a
              | TotalText t => textToNumber (VStr t)
              end).

(** [getGameStats(gameSlug)].  What [getScores] returns need not be an
    array: a value whose [length] is 0 gives the empty statistics, and
    any other value that is not an array has no [reduce] to call. *)
Definition getGameStats (gameSlug : string) (ls : Storage) : Completion GameStats :=
  match getScores (Some gameSlug) ls with
  | VArr [] => Normal noStats
  | VArr (first :: rest) =>
      total <- totalOf (first :: rest) (TotalNumber (Some 0)) ;;
      firstScore <- getProp first "score" ;;
      restScores <- mapM (fun s => getProp s "score") rest ;;
      best <- mathMax firstScore restScores ;;
      let played := Z.of_nat (List.length (first :: rest)) in
      Normal (mkGameStats played best (averageOf total played) total)
  | VStr EmptyString => Normal noStats
  | VObj fields =>
      match lookup fields "length" with
      | VNum 0 => Normal noStats
      | _ => Throw
      end
  | _ => Throw
  end.

End Statistics.

(** ** Reading the cache as a list of records *)

(** The cache holds the records [l]: its text is the JSON text of their
    array, or it is absent, empty or unparsable and [l] is empty. *)
Definition holds (ls : Storage) (l : list GameScore) : Prop :=
  match getItem SCORES_KEY ls with
  | Some (Json v) => v = VArr (map encode l)
  | _ => l = []
  end.

(** The score of [r] can be read and converts to a number. *)
Definition scoreConvertible (r : value) : bool :=
  match getProp r "score" with
  | Normal v => convertible v
  | Throw => false
  end.

(** [v] is an array whose entries all have such a score. *)
Definition sortable (v : value) : bool :=
  match v with
  | VArr items => forallb scoreConvertible items
  | _ => false
  end.

(** There is nothing to read under [key]: no text, an empty text, or a
    text that [JSON.parse] rejects. *)
Definition unreadable (key : string) (ls : Storage) : Prop :=
  match getItem key ls with
  | Some (Json _) => False
  | _ => True
  end.

Definition ofGame (slug : string) (l : list GameScore) : list GameScore :=
  filter (fun s => String.eqb (gameSlug s) slug) l.

Definition ofOtherGames (slug : string) (l : list GameScore) : list GameScore :=
  filter (fun s => negb (String.eqb (gameSlug s) slug)) l.

(** The records in the cache after [saveScore(s)] when it held [l]. *)
Definition saved (s : GameScore) (l : list GameScore) : list GameScore :=
  ofOtherGames (gameSlug s) (l ++ [s])
  ++ firstn 100 (sort (byScoreDesc score) (ofGame (gameSlug s) (l ++ [s]))).

Definition savedAll (saves l : list GameScore) : list GameScore :=
  fold_left (fun l s => saved s l) saves l.

(** [kept] are the [n] highest of [all]: as many as there are, up to [n],
    in descending order, and what is left out scores no higher. *)
Definition highest (n : nat) (all kept : list GameScore) : Prop :=
  List.length kept = Nat.min n (List.length all)
  /\ descending score kept
  /\ exists evicted,
      Permutation (kept ++ evicted) all
      /\ forall k e, In k kept -> In e evicted -> score e <= score k.

(** The highest score among [l], and 0 when there is none. *)
Definition highestScore (l : list GameScore) : Z :=
  match l with
  | [] => 0
  | first :: rest => fold_left (fun m r => Z.max m (score r)) rest (score first)
  end.

(** The sum of the scores of [l]. *)
(** The magnitudes of the scores of [l] add up to less than 2^52: every
    partial sum and the quotient that [getGameStats] computes in floating
    point are then the exact ones. *)
Definition exactlySummed (l : list GameScore) : Prop :=
  fold_left (fun t r => t + Z.abs (score r)) l 0 < 2 ^ 52.

Definition sumOfScores (l : list GameScore) : Z :=
  fold_left (fun t r => t + score r) l 0.

(** ** Sample data for the cache *)

(** A cache whose two texts are the JSON text [null]. *)
Definition nullCache : Storage :=
  [(SCORES_KEY, Json VNull); (PREFERENCES_KEY, Json VNull)].

(** A cache whose two texts are not JSON. *)
Definition garbledCache : Storage :=
  [(SCORES_KEY, Garbled); (PREFERENCES_KEY, Garbled)].

(** A cache with two entries for Tap Snake, the score of the first being
    the object [{"toString": 0}]. *)
Definition oddScoreCache : Storage :=
  [(SCORES_KEY,
    Json (VArr [VObj [("gameSlug", VStr "tap-snake");
                      ("score", VObj [("toString", VNum 0)])];
                VObj [("gameSlug", VStr "tap-snake"); ("score", VNum 1)]]))].

Definition snakeScore (n : Z) : GameScore :=
  mkGameScore "tap-snake" n None 1700000000000 None.

(** 101 scores, 0 to 100, for one game. *)
Definition manyScores : list GameScore :=
  map (fun n => snakeScore (Z.of_nat n)) (seq 0 101).

Definition noConversion : value -> option Z := fun _ => None.

(** Records of two games, and the cache that holds given records. *)
Definition twoGames : list GameScore :=
  [snakeScore 5; mkGameScore "color-trap" 30 (Some "Ann") 1700000000001 None;
   snakeScore 9].

Definition cacheOf (l : list GameScore) : Storage :=
  [(SCORES_KEY, Json (VArr (map encode l)))].

(** A patch that names the player and picks the dark theme; no text is
    cut into code units in the samples. *)
Definition annInTheDark : PreferencesPatch :=
  [(PlayerName, VStr "Ann"); (Theme, VStr "dark")].

Definition noCodeUnits : string -> list string := fun _ => [].

Definition noConcatenation : Total -> value -> string := fun _ _ => "".

End LocalStorage.

(* ===================================================================== *)
(** * Properties *)
(* ===================================================================== *)

(** ** Facts about [sort] and [slice0] *)

Section SortFacts.
Context {A : Type} (score : A -> Z).

Lemma insert_perm (x : A) (l : list A) :
  Permutation (insert (byScoreDesc score) x l) (x :: l).
Proof.
  induction l as [|y l IH]; simpl; [reflexivity|].
  destruct (0 <? byScoreDesc score x y); [|reflexivity].
  rewrite IH. apply perm_swap.
Qed.

Lemma sort_perm (l : list A) : Permutation (sort (byScoreDesc score) l) l.
Proof.
  induction l as [|x l IH]; simpl; [constructor|].
  rewrite insert_perm. now constructor.
Qed.

Lemma sort_length (l : list A) : length (sort (byScoreDesc score) l) = length l.
Proof. apply Permutation_length, sort_perm. Qed.

Lemma insert_descending (x : A) (l : list A) :
  descending score l -> descending score (insert (byScoreDesc score) x l).
Proof.
  unfold descending, byScoreDesc.
  induction 1 as [|y l Hs IH Hy]; simpl.
  - repeat constructor.
  - destruct (0 <? score y - score x) eqn:E.
    + apply Z.ltb_lt in E. constructor; [exact IH|].
      rewrite Forall_forall in *. intros z Hz.
      apply (Permutation_in _ (insert_perm x l)) in Hz.
      destruct Hz as [<-|Hz]; [lia|auto].
    + apply Z.ltb_ge in E. constructor; [now constructor|].
      constructor; [lia|]. rewrite Forall_forall in *.
      intros z Hz. specialize (Hy z Hz). lia.
Qed.

Lemma sort_descending (l : list A) : descending score (sort (byScoreDesc score) l).
Proof.
  induction l as [|x l IH]; simpl; [constructor|].
  now apply insert_descending.
Qed.

(** In a descending list every element of a prefix is at least every
    element of the rest. *)
Lemma descending_split (n : nat) (l : list A) :
  descending score l ->
  forall a b, In a (firstn n l) -> In b (skipn n l) -> score b <= score a.
Proof.
  unfold descending. intros H. revert n.
  induction H as [|x l Hs IH Hx]; intros n a b Ha Hb.
  - rewrite firstn_nil in Ha. contradiction.
  - destruct n as [|n]; simpl in *; [contradiction|].
    destruct Ha as [<-|Ha].
    + rewrite Forall_forall in Hx. apply Hx.
      rewrite <- (firstn_skipn n l). apply in_or_app. now right.
    + eauto.
Qed.

Lemma descending_firstn (n : nat) (l : list A) :
  descending score l -> descending score (firstn n l).
Proof.
  unfold descending. intros H. revert n.
  induction H as [|x l Hs IH Hx]; intros [|n]; simpl; try constructor.
  - apply IH.
  - rewrite Forall_forall in *. intros z Hz. apply Hx.
    rewrite <- (firstn_skipn n l). apply in_or_app. now left.
Qed.
End SortFacts.

Lemma slice0_nonneg {A} (l : list A) (k : Z) :
  0 <= k -> slice0 l k = firstn (Z.to_nat k) l.
Proof.
  intros Hk. unfold slice0.
  destruct (k <? 0) eqn:E; [apply Z.ltb_lt in E; lia|].
  destruct (Z.le_gt_cases k (Z.of_nat (length l))).
  - now rewrite Z.min_l.
  - rewrite Z.min_r by lia. rewrite Nat2Z.id.
    rewrite !firstn_all2; trivial; lia.
Qed.

Lemma slice0_neg {A} (l : list A) (k : Z) :
  k < 0 -> slice0 l k = firstn (length l - Z.to_nat (- k)) l.
Proof.
  intros Hk. unfold slice0.
  destruct (k <? 0) eqn:E; [|apply Z.ltb_ge in E; lia].
  f_equal. lia.
Qed.

(** [parseInt] on some query strings, as a JavaScript engine answers. *)
Example parseInt_examples :
  map parseInt ["12"; " 42abc"; "abc"; ""; "-7"; "+3"; "0x1F"; "0"; "-0"; "1e3"; "08"; "undefined"]
  = [Some 12; Some 42; None; None; Some (-7); Some 3; Some 31; Some 0; Some 0;
     Some 1; Some 8; None].
Proof. reflexivity. Qed.

(** White space that [parseInt] skips is not only ASCII: the no-break
    space U+00A0, the byte order mark U+FEFF, the line separator U+2028
    and the ideographic space U+3000 are skipped; the zero-width space
    U+200B and the next-line control U+0085 are not white space. *)
Example parseInt_white_space :
  map parseInt
      [ (character [194; 160]%nat ++ "7")%string;
        (character [239; 187; 191]%nat ++ " 12")%string;
        (character [226; 128; 168]%nat ++ character [227; 128; 128]%nat ++ "-3")%string;
        (character [226; 128; 139]%nat ++ "7")%string;
        (character [194; 133]%nat ++ "7")%string ]
  = [Some 7; Some 12; Some (-3); None; None].
Proof. reflexivity. Qed.

(* ===================================================================== *)
(** ** The game loop *)
(* ===================================================================== *)

Module EngineFacts.
Import Engine.

Section LoopFacts.
Context {G : Type} {hooks : GameHooks G}.

Lemma cancelPendingFrame_state (e : Engine G) :
  state (cancelPendingFrame e) = state e.
Proof. unfold cancelPendingFrame. now destruct (animationId e) as [[|h]|]. Qed.

Lemma cancelPendingFrame_listeners (e : Engine G) :
  onGameOver (cancelPendingFrame e) = onGameOver e
  /\ onScoreUpdate (cancelPendingFrame e) = onScoreUpdate e
  /\ notified (cancelPendingFrame e) = notified e
  /\ game (cancelPendingFrame e) = game e.
Proof. unfold cancelPendingFrame. now destruct (animationId e) as [[|h]|]. Qed.

Lemma stop_state (e : Engine G) :
  state (stop e) = mkGameState (score (state e)) false (isPaused (state e)) true.
Proof.
  unfold stop. rewrite <- (cancelPendingFrame_state e).
  now destruct (onGameOver _).
Qed.

Lemma stop_notified (e : Engine G) :
  notified (stop e)
  = notified e ++ (if onGameOver e then [GameOver (score (state e))] else []).
Proof.
  destruct (cancelPendingFrame_listeners e) as (Hg & _ & Hn & _).
  unfold stop. simpl. rewrite Hg, cancelPendingFrame_state.
  destruct (onGameOver e); simpl; rewrite Hn; [reflexivity|].
  now rewrite app_nil_r.
Qed.

Lemma updateScore_state (n : Z) (e : Engine G) :
  state (updateScore n e)
  = mkGameState n (isPlaying (state e)) (isPaused (state e)) (gameOver (state e)).
Proof. unfold updateScore. simpl. now destruct (onScoreUpdate e). Qed.

Lemma requestAnimationFrame_state (e : Engine G) :
  state (requestAnimationFrame e) = state e.
Proof. reflexivity. Qed.

(** *** Mutual exclusion of [isPlaying] and [gameOver] *)

Lemma stop_exclusive (e : Engine G) : exclusive (stop e).
Proof. unfold exclusive. now rewrite stop_state. Qed.

Lemma updateScore_exclusive (n : Z) (e : Engine G) :
  exclusive e -> exclusive (updateScore n e).
Proof. unfold exclusive. now rewrite updateScore_state. Qed.

Lemma runCalls_exclusive (cs : list Call) (e : Engine G) :
  exclusive e -> exclusive (runCalls cs e).
Proof.
  revert e. induction cs as [|[|n] cs IH]; intros e He; simpl; auto.
  - apply IH, stop_exclusive.
  - now apply IH, updateScore_exclusive.
Qed.

Lemma runHook_exclusive h (e : Engine G) :
  exclusive e -> exclusive (runHook h e).
Proof.
  intros He. unfold runHook. destruct (h (state e) (game e)) as [g' cs].
  now apply runCalls_exclusive.
Qed.

Lemma gameLoop_exclusive (t : Z) (e : Engine G) :
  exclusive e -> exclusive (gameLoop t e).
Proof.
  intros He. unfold gameLoop.
  destruct (negb (isPlaying (state e))); [exact He|].
  unfold exclusive. rewrite requestAnimationFrame_state.
  match goal with |- context [if ?c then _ else _] => destruct c end.
  - now apply runHook_exclusive.
  - exact He.
Qed.

Lemma start_exclusive (now : Z) (e : Engine G) :
  exclusive e -> exclusive (start now e).
Proof.
  intros He. unfold start.
  destruct (isPlaying (state e)); [exact He|].
  now apply gameLoop_exclusive.
Qed.

Lemma step_exclusive (e : Engine G) (op : Op) :
  exclusive e -> exclusive (step e op).
Proof.
  intros He. destruct op; simpl.
  - now apply start_exclusive.
  - unfold exclusive, pause in *. simpl. exact He.
  - apply stop_exclusive.
  - apply start_exclusive, runHook_exclusive, stop_exclusive.
  - exact He.
  - apply stop_exclusive.
  - unfold fireFrame. destruct (existsb _ _); [|exact He].
    now apply gameLoop_exclusive.
  - now apply runHook_exclusive.
Qed.

Lemma exec_exclusive (ops : list Op) (e : Engine G) :
  exclusive e -> exclusive (exec ops e).
Proof.
  unfold exec. revert e.
  induction ops as [|op ops IH]; intros e He; simpl; [exact He|].
  now apply IH, step_exclusive.
Qed.

(** C1.  Whatever sequence of [start], [pause], [stop] and [restart]
    calls (and, between them, frames and listeners run by the host,
    [setCallbacks] and [destroy]) is applied to a freshly constructed
    engine, the resulting state never has both [isPlaying] and
    [gameOver] set. *)
Theorem playing_and_gameOver_exclusive (g : G) (ops : list Op) :
  let e := exec ops (create g) in
  isPlaying (state e) && gameOver (state e) = false
  /\ ~ (isPlaying (state e) = true /\ gameOver (state e) = true).
Proof.
  intros e.
  assert (He : exclusive e) by (apply exec_exclusive; reflexivity).
  split; [exact He|]. intros [Hp Hg].
  unfold exclusive in He. rewrite Hp, Hg in He. discriminate.
Qed.

(** *** What [stop] does, and what the listeners hear *)

Lemma updateScore_notified (n : Z) (e : Engine G) :
  exists later, notified (updateScore n e) = notified e ++ later.
Proof.
  unfold updateScore. simpl. destruct (onScoreUpdate e); simpl.
  - now exists [ScoreUpdate n].
  - exists []. now rewrite app_nil_r.
Qed.

Lemma runCalls_notified (cs : list Call) (e : Engine G) :
  exists later, notified (runCalls cs e) = notified e ++ later.
Proof.
  revert e. induction cs as [|[|n] cs IH]; intros e; simpl.
  - exists []. now rewrite app_nil_r.
  - destruct (IH (stop e)) as [l Hl]. rewrite Hl, stop_notified, <- app_assoc.
    eauto.
  - destruct (IH (updateScore n e)) as [l Hl].
    destruct (updateScore_notified n e) as [l' Hl'].
    rewrite Hl, Hl', <- app_assoc. eauto.
Qed.

Lemma runHook_notified h (e : Engine G) :
  exists later, notified (runHook h e) = notified e ++ later.
Proof.
  unfold runHook. destruct (h (state e) (game e)) as [g' cs].
  apply (runCalls_notified cs (withGame g' e)).
Qed.

Lemma gameLoop_notified (t : Z) (e : Engine G) :
  exists later, notified (gameLoop t e) = notified e ++ later.
Proof.
  unfold gameLoop. destruct (negb (isPlaying (state e))).
  - exists []. now rewrite app_nil_r.
  - simpl. match goal with |- context [if ?c then _ else _] => destruct c end.
    + apply (runHook_notified (update (t - lastTime e)) (withLastTime t e)).
    + exists []. now rewrite app_nil_r.
Qed.

Lemma start_notified (now : Z) (e : Engine G) :
  exists later, notified (start now e) = notified e ++ later.
Proof.
  unfold start. destruct (isPlaying (state e)).
  - exists []. now rewrite app_nil_r.
  - match goal with |- context [gameLoop ?t ?x] =>
      destruct (gameLoop_notified t x) as [l Hl]; rewrite Hl end.
    now exists l.
Qed.

Lemma restart_notified (now : Z) (e : Engine G) :
  exists later, notified (restart now e) = notified (stop e) ++ later.
Proof.
  unfold restart.
  destruct (start_notified now (runHook reset (stop e))) as [l Hl].
  destruct (runHook_notified reset (stop e)) as [l' Hl'].
  rewrite Hl, Hl', <- app_assoc. eauto.
Qed.

(** C4 (amended).  In every state, [stop] leaves [isPlaying = false] and
    [gameOver = true] and calls the registered game-over listener
    exactly once, with the current score (no call when no listener is
    registered).  This holds per call: the [stop] inside [restart] does
    the same on an engine that is already stopped, so a finished run is
    reported again. *)
Theorem stop_notifies_once_per_call (e : Engine G) (now : Z) :
  isPlaying (state (stop e)) = false
  /\ gameOver (state (stop e)) = true
  /\ score (state (stop e)) = score (state e)
  /\ notified (stop e)
     = notified e ++ (if onGameOver e then [GameOver (score (state e))] else [])
  /\ exists later,
       notified (restart now e)
       = notified e
         ++ (if onGameOver e then [GameOver (score (state e))] else [])
         ++ later.
Proof.
  rewrite stop_state. simpl. repeat split.
  - apply stop_notified.
  - destruct (restart_notified now e) as [l Hl].
    exists l. now rewrite Hl, stop_notified, <- app_assoc.
Qed.

(** *** [restart] *)

Lemma runCalls_not_playing (cs : list Call) (e : Engine G) :
  isPlaying (state e) = false -> isPlaying (state (runCalls cs e)) = false.
Proof.
  revert e. induction cs as [|[|n] cs IH]; intros e He; simpl; trivial.
  - apply IH. now rewrite stop_state.
  - apply IH. now rewrite updateScore_state.
Qed.

Lemma runCalls_quiet (cs : list Call) (e : Engine G) :
  quietCalls (score (state e)) cs = true -> state (runCalls cs e) = state e.
Proof.
  revert e. induction cs as [|[|n] cs IH]; intros e H; simpl in *; trivial.
  - discriminate.
  - apply andb_prop in H. destruct H as [Hn Hcs]. apply Z.eqb_eq in Hn.
    assert (Hs : state (updateScore n e) = state e).
    { rewrite updateScore_state. subst n. now destruct (state e). }
    rewrite IH; rewrite Hs; trivial.
Qed.

(** [restart] ends in [Playing] with the score [reset] left, as soon as
    the first frame, which [start] runs at once with a zero
    [deltaTime], neither stops the game nor moves the score. *)
Lemma restart_playing_when_first_frame_quiet (e : Engine G) (now : Z) :
  let e1 := runHook reset (stop e) in
  quietCalls (score (state e1))
    (snd (update 0 (mkGameState (score (state e1)) true false false) (game e1)))
  = true ->
  state (restart now e) = mkGameState (score (state e1)) true false false.
Proof.
  intros e1 Hq. unfold restart. fold e1.
  assert (Hp : isPlaying (state e1) = false).
  { unfold e1, runHook. destruct (reset _ _) as [g' cs].
    apply runCalls_not_playing. simpl. now rewrite stop_state. }
  unfold start. rewrite Hp. unfold gameLoop. simpl.
  rewrite Z.sub_diag. unfold runHook. simpl.
  destruct (update 0 _ (game e1)) as [g' cs]. simpl in Hq.
  now rewrite runCalls_quiet.
Qed.

End LoopFacts.

(** *** Doodle Stack *)

Section Doodle.
Variable random : nat -> Q.
Variable config : GameConfig.

Let hooks : GameHooks DoodleStack.Fields := DoodleStack.doodleHooks random config.

Lemma doodle_after_reset (e : Engine DoodleStack.Fields) :
  let e1 := runHook (@reset _ hooks) (stop e) in
  score (state e1) = 0 /\ DoodleStack.blocks (game e1) = [].
Proof.
  unfold runHook. simpl. rewrite updateScore_state. split; [reflexivity|].
  unfold updateScore. simpl. now destruct (onScoreUpdate _).
Qed.

(** C7.  For every state of a Doodle Stack engine, [restart] returns
    with the loop in [Playing] ([isPlaying = true], [gameOver = false],
    not paused) and with the score that [reset] established, which is
    0.  More generally, for any subclass, [restart] returns in [Playing]
    with the score that [reset] established whenever the frame that
    [start] runs at once, with a zero [deltaTime], neither stops the game
    nor moves the score; the first part is an instance. *)
Theorem restart_leaves_playing :
  (forall (e : Engine DoodleStack.Fields) (now : Z),
      let e' := @restart _ hooks now e in
      isPlaying (state e') = true
      /\ gameOver (state e') = false
      /\ isPaused (state e') = false
      /\ score (state e') = score (state (runHook (@reset _ hooks) (stop e)))
      /\ score (state e') = 0)
  /\ (forall (G : Type) (any : GameHooks G) (e : Engine G) (now : Z),
        let e1 := runHook (@reset _ any) (stop e) in
        quietCalls (score (state e1))
          (snd (@update _ any 0 (mkGameState (score (state e1)) true false false)
                        (game e1)))
        = true ->
        let e' := @restart _ any now e in
        isPlaying (state e') = true
        /\ gameOver (state e') = false
        /\ score (state e') = score (state e1)).
Proof.
  split.
  - intros e now.
    destruct (doodle_after_reset e) as [Hs Hb].
    assert (H : state (@restart _ hooks now e)
                = mkGameState (score (state (runHook (@reset _ hooks) (stop e))))
                              true false false).
    { apply restart_playing_when_first_frame_quiet.
      change (@update _ hooks) with (DoodleStack.doodleUpdate config).
      unfold DoodleStack.doodleUpdate.
      rewrite Hb. reflexivity. }
    cbv zeta. rewrite H. cbn [isPlaying gameOver isPaused score].
    repeat split. exact Hs.
  - intros G any e now e1 Hq e'. unfold e'.
    rewrite (@restart_playing_when_first_frame_quiet G any e now Hq).
    cbn [isPlaying gameOver score]. repeat split.
Qed.

End Doodle.

Lemma restart_leaves_playing_witness :
  let hooks := DoodleStack.doodleHooks DoodleStack.halves DoodleStack.componentConfig in
  let fresh := DoodleStack.newEngine DoodleStack.halves DoodleStack.componentConfig in
  isPlaying (state (@restart _ hooks 16 fresh)) = true
  /\ gameOver (state (@restart _ hooks 16 fresh)) = false
  /\ score (state (@restart _ hooks 16 fresh))
     = score (state (runHook (@reset _ hooks) (stop fresh))).
Proof.
  intros hooks fresh.
  apply (proj2 (restart_leaves_playing DoodleStack.halves DoodleStack.componentConfig)
               DoodleStack.Fields hooks fresh 16).
  reflexivity.
Defined.

(** C4 as stated fails in its last part: in a session with a single
    [start], two calls of [stop] call the game-over listener twice, so the
    notifications outnumber the runs. *)
Lemma stop_twice_reports_one_run_twice :
  let hooks := DoodleStack.doodleHooks DoodleStack.halves DoodleStack.componentConfig in
  let fresh := DoodleStack.newEngine DoodleStack.halves DoodleStack.componentConfig in
  gameOvers (@exec _ hooks DoodleStack.twoStops fresh) = [0; 0]
  /\ runsRequested DoodleStack.twoStops = 1%nat
  /\ ~ (forall ops : list Op,
          (List.length (gameOvers (@exec _ hooks ops fresh)) <= runsRequested ops)%nat).
Proof.
  intros hooks fresh.
  assert (H : gameOvers (@exec _ hooks DoodleStack.twoStops fresh) = [0; 0])
    by (vm_compute; reflexivity).
  split; [exact H|]. split; [reflexivity|].
  intros Hall. specialize (Hall DoodleStack.twoStops).
  rewrite H in Hall. vm_compute in Hall. lia.
Qed.

End EngineFacts.

(* ===================================================================== *)
(** ** The store and the routes *)
(* ===================================================================== *)

Module ServerFacts.
Import MemStorage Routes.

(** [Array.prototype.find] returns the first element that satisfies the
    predicate. *)
Lemma find_first {A} (f : A -> bool) (l : list A) (x : A) :
  find f l = Some x <->
  exists before after,
    l = before ++ x :: after /\ f x = true /\ forallb (fun y => negb (f y)) before = true.
Proof.
  split.
  - induction l as [|y l IH]; simpl; [discriminate|].
    destruct (f y) eqn:E.
    + intros [= <-]. now exists [], l.
    + intros H. destruct (IH H) as (b & a & -> & Hx & Hb).
      exists (y :: b), a. simpl. now rewrite E.
  - intros (b & a & -> & Hx & Hb).
    induction b as [|y b IH]; simpl in *.
    + now rewrite Hx.
    + apply andb_prop in Hb. destruct Hb as [Hy Hb].
      apply negb_true_iff in Hy. rewrite Hy. auto.
Qed.

Lemma find_none {A} (f : A -> bool) (l : list A) :
  find f l = None <-> forall x, In x l -> f x = false.
Proof.
  split.
  - intros H x Hx. now apply (find_none f l H).
  - induction l as [|y l IH]; simpl; trivial.
    intros H. rewrite (H y (or_introl eq_refl)). auto.
Qed.

Lemma truthyString_nonempty (g : string) : g <> "" -> truthyString (Some g) = true.
Proof. destruct g; [congruence|reflexivity]. Qed.

Lemma matching_scoresOf (g : string) (s : MemStorage.t) :
  g <> "" -> matching (Some g) s = scoresOf g s.
Proof. intros H. unfold matching. now rewrite truthyString_nonempty. Qed.

Lemma getScores_ranked (gameId : option string) (limit : Z) (s : MemStorage.t) :
  getScores gameId (Some limit) s = slice0 (ranked gameId s) limit.
Proof. reflexivity. Qed.

(** *** Ranking *)

(** C2 (amended).  For a store holding N records of one game identifier
    (which a route parameter never leaves empty) and a limit k with
    1 <= k <= N, [GET /api/leaderboard/:gameId?limit=k] answers 200 with
    exactly k of those records, in descending order of score, and none of
    the records left out scores higher than one that is returned. *)
Theorem leaderboard_top_k (s : MemStorage.t) (gameId q : string) (k : Z) :
  gameId <> "" ->
  parseInt q = Some k ->
  1 <= k <= Z.of_nat (List.length (scoresOf gameId s)) ->
  exists top rest,
    GET_api_leaderboard gameId (Some q) s = mkResponse 200 (ScoresBody top)
    /\ List.length top = Z.to_nat k
    /\ descending Score.score top
    /\ Permutation (top ++ rest) (scoresOf gameId s)
    /\ forall a b, In a top -> In b rest -> Score.score b <= Score.score a.
Proof.
  intros Hg Hq Hk.
  set (sorted := ranked (Some gameId) s).
  exists (firstn (Z.to_nat k) sorted), (skipn (Z.to_nat k) sorted).
  assert (Hlen : List.length sorted = List.length (scoresOf gameId s)).
  { unfold sorted, ranked. now rewrite sort_length, matching_scoresOf. }
  repeat split.
  - unfold GET_api_leaderboard. simpl. unfold parseIntQuery. rewrite Hq.
    unfold getTopScores. rewrite getScores_ranked. fold sorted.
    assert (Hd : orDefault (Some k) 10 = k) by (destruct k; simpl; trivial; lia).
    rewrite Hd, slice0_nonneg by lia. reflexivity.
  - rewrite firstn_length_le; lia.
  - apply descending_firstn, sort_descending.
  - rewrite firstn_skipn. unfold sorted, ranked.
    rewrite matching_scoresOf by assumption. apply sort_perm.
  - apply descending_split, sort_descending.
Qed.

Lemma leaderboard_top_k_witness :
  exists top rest,
    GET_api_leaderboard "g1" (Some "1") Samples.afterTwo
    = mkResponse 200 (ScoresBody top)
    /\ List.length top = Z.to_nat 1
    /\ descending Score.score top
    /\ Permutation (top ++ rest) (scoresOf "g1" Samples.afterTwo)
    /\ forall a b, In a top -> In b rest -> Score.score b <= Score.score a.
Proof.
  apply (@leaderboard_top_k Samples.afterTwo "g1" "1" 1).
  - discriminate.
  - reflexivity.
  - simpl. lia.
Defined.

(** The example scenario of the specification. *)
Example leaderboard_scenario :
  sentScores (GET_api_leaderboard "g1" (Some "1") Samples.afterTwo)
  = [Score.make "s2" "g1" None None 900 None (Some (Samples.today + 2))].
Proof. reflexivity. Qed.

(** C2 as stated fails at k = 0: with one record stored for "g1",
    [limit=0] is replaced by the default of 10 and the record is sent,
    where the claim asks for no record. *)
Lemma leaderboard_limit_zero_sends_records :
  parseInt "0" = Some 0
  /\ 0 <= Z.of_nat (List.length (scoresOf "g1" Samples.afterOne))
  /\ List.length (sentScores (GET_api_leaderboard "g1" (Some "0") Samples.afterOne))
     = 1%nat
  /\ List.length (sentScores (GET_api_leaderboard "g1" (Some "0") Samples.afterOne))
     <> Z.to_nat 0.
Proof. repeat split; try reflexivity; discriminate. Qed.

(** *** The default limit *)

Lemma firstn_ranked_length (n : nat) (gameId : option string) (s : MemStorage.t) :
  List.length (firstn n (ranked gameId s))
  = Nat.min n (List.length (matching gameId s)).
Proof. unfold ranked. now rewrite length_firstn, sort_length. Qed.

Lemma absent_limit_is_NaN : parseIntQuery None = None.
Proof. reflexivity. Qed.

(** C10 (amended).  On [GET /api/scores] and [GET /api/leaderboard/:gameId],
    a limit that is absent, not a number, or 0 is replaced by 10: the
    response carries the first min(10, matching records) entries of the
    ranking.  A negative limit -m is not replaced: it is passed to
    [slice(0, -m)], which drops the last m entries of the ranking. *)
Theorem limit_defaults_to_ten
        (s : MemStorage.t) (gameId : option string) (boardId : string)
        (q : option string) :
  (q = None \/ parseIntQuery q = None \/ parseIntQuery q = Some 0 ->
   GET_api_scores gameId q s
   = mkResponse 200 (ScoresBody (firstn 10 (ranked gameId s)))
   /\ GET_api_leaderboard boardId q s
      = mkResponse 200 (ScoresBody (firstn 10 (ranked (Some boardId) s)))
   /\ List.length (sentScores (GET_api_scores gameId q s))
      = Nat.min 10 (List.length (matching gameId s))
   /\ List.length (sentScores (GET_api_leaderboard boardId q s))
      = Nat.min 10 (List.length (matching (Some boardId) s)))
  /\ (forall m : Z,
        0 < m -> parseIntQuery q = Some (- m) ->
        sentScores (GET_api_scores gameId q s)
        = firstn (List.length (matching gameId s) - Z.to_nat m) (ranked gameId s)
        /\ sentScores (GET_api_leaderboard boardId q s)
           = firstn (List.length (matching (Some boardId) s) - Z.to_nat m)
                    (ranked (Some boardId) s)).
Proof.
  split.
  - intros H.
    assert (Hd : orDefault (parseIntQuery q) 10 = 10).
    { destruct H as [-> | [-> | ->]]; reflexivity. }
    assert (H1 : GET_api_scores gameId q s
                 = mkResponse 200 (ScoresBody (firstn 10 (ranked gameId s)))).
    { unfold GET_api_scores. cbn [IStorage.getScores storage].
      rewrite getScores_ranked, Hd, slice0_nonneg by lia. reflexivity. }
    assert (H2 : GET_api_leaderboard boardId q s
                 = mkResponse 200 (ScoresBody (firstn 10 (ranked (Some boardId) s)))).
    { unfold GET_api_leaderboard. cbn [IStorage.getTopScores storage].
      unfold getTopScores.
      rewrite getScores_ranked, Hd, slice0_nonneg by lia. reflexivity. }
    rewrite H1, H2. cbn [sentScores body].
    rewrite !firstn_ranked_length. auto.
  - intros m Hm Hq.
    assert (Hd : orDefault (parseIntQuery q) 10 = - m).
    { rewrite Hq. destruct m; simpl; trivial; lia. }
    unfold GET_api_scores, GET_api_leaderboard.
    cbn [IStorage.getScores IStorage.getTopScores storage].
    unfold getTopScores. rewrite !getScores_ranked, Hd.
    rewrite !slice0_neg by lia. cbn [sentScores body].
    rewrite Z.opp_involutive. unfold ranked. now rewrite !sort_length.
Qed.

Lemma limit_defaults_to_ten_witness :
  (GET_api_scores (Some "g1") (Some "0") Samples.afterTwo
   = mkResponse 200 (ScoresBody (firstn 10 (ranked (Some "g1") Samples.afterTwo)))
   /\ GET_api_leaderboard "g1" (Some "0") Samples.afterTwo
      = mkResponse 200 (ScoresBody (firstn 10 (ranked (Some "g1") Samples.afterTwo)))
   /\ List.length (sentScores (GET_api_scores (Some "g1") (Some "0") Samples.afterTwo))
      = Nat.min 10 (List.length (matching (Some "g1") Samples.afterTwo))
   /\ List.length (sentScores (GET_api_leaderboard "g1" (Some "0") Samples.afterTwo))
      = Nat.min 10 (List.length (matching (Some "g1") Samples.afterTwo)))
  /\ (sentScores (GET_api_scores (Some "g1") (Some "-1") Samples.afterTwo)
      = firstn (List.length (matching (Some "g1") Samples.afterTwo) - Z.to_nat 1)
               (ranked (Some "g1") Samples.afterTwo)
      /\ sentScores (GET_api_leaderboard "g1" (Some "-1") Samples.afterTwo)
         = firstn (List.length (matching (Some "g1") Samples.afterTwo) - Z.to_nat 1)
                  (ranked (Some "g1") Samples.afterTwo)).
Proof.
  split.
  - apply (proj1 (limit_defaults_to_ten Samples.afterTwo (Some "g1") "g1" (Some "0"))).
    right. right. reflexivity.
  - apply (proj2 (limit_defaults_to_ten Samples.afterTwo (Some "g1") "g1" (Some "-1")) 1).
    + lia.
    + reflexivity.
Defined.

(** C10 as stated fails for a negative limit: with one record stored for
    "g1", [limit=-1] yields no record, fewer than min(10, 1) = 1. *)
Lemma negative_limit_sends_fewer :
  parseInt "-1" = Some (-1)
  /\ -1 <= 0
  /\ Nat.min 10 (List.length (scoresOf "g1" Samples.afterOne)) = 1%nat
  /\ List.length (sentScores (GET_api_leaderboard "g1" (Some "-1") Samples.afterOne))
     = 0%nat
  /\ List.length (sentScores (GET_api_scores (Some "g1") (Some "-1") Samples.afterOne))
     = 0%nat.
Proof. repeat split; try reflexivity. lia. Qed.

(** *** Active challenges *)

Lemma activeFor_spec (gameId : string) (now : Z) (c : Challenge.t) :
  activeFor gameId now c = true <->
  Challenge.gameId c = gameId
  /\ Challenge.isActive c = Some 1
  /\ Challenge.startDate c <= now <= Challenge.endDate c.
Proof.
  unfold activeFor. rewrite !andb_true_iff, String.eqb_eq, Z.leb_le, Z.geb_le.
  assert (Hone : isOne (Challenge.isActive c) = true <-> Challenge.isActive c = Some 1).
  { destruct (Challenge.isActive c) as [[|[p|p|]|p]|]; simpl; split;
      congruence || discriminate. }
  rewrite Hone. tauto.
Qed.

(** C6 (amended).  [GET /api/challenges/:gameId] answers 200 with the
    first challenge, in insertion order, that belongs to the game, has its
    active flag set to 1 and has the current time within
    [startDate, endDate], bounds included; a later challenge that
    satisfies the same conditions is not returned.  When no challenge
    satisfies them the body is empty. *)
Theorem active_challenge_is_first_active
        (s : MemStorage.t) (env : Env) (gameId : string) :
  let all := values (challenges s) in
  (forall c,
      GET_api_challenges_gameId env gameId s = mkResponse 200 (ChallengeBody c)
      <-> exists before after,
          all = before ++ c :: after
          /\ (Challenge.gameId c = gameId
              /\ Challenge.isActive c = Some 1
              /\ Challenge.startDate c <= clock env <= Challenge.endDate c)
          /\ forall c', In c' before -> activeFor gameId (clock env) c' = false)
  /\ (GET_api_challenges_gameId env gameId s = mkResponse 200 EmptyBody
      <-> forall c, In c all ->
                    ~ (Challenge.gameId c = gameId
                       /\ Challenge.isActive c = Some 1
                       /\ Challenge.startDate c <= clock env <= Challenge.endDate c)).
Proof.
  intros all. unfold GET_api_challenges_gameId. simpl.
  unfold getActiveChallenge. fold all. split.
  - intros c.
    destruct (find (activeFor gameId (clock env)) all) as [c0|] eqn:E.
    + split.
      * intros [= <-]. apply find_first in E.
        destruct E as (b & a & Hl & Hc & Hb). exists b, a.
        split; [exact Hl|]. split; [now apply activeFor_spec|].
        intros c' Hc'.
        rewrite forallb_forall in Hb. apply negb_true_iff. auto.
      * intros (b & a & Hl & Hc & Hb). apply activeFor_spec in Hc.
        assert (E' : find (activeFor gameId (clock env)) all = Some c).
        { apply find_first. exists b, a. repeat split; trivial.
          apply forallb_forall. intros y Hy. apply negb_true_iff. auto. }
        congruence.
    + split; [discriminate|].
      intros (b & a & Hl & Hc & _). apply activeFor_spec in Hc.
      rewrite find_none in E.
      rewrite E in Hc; [discriminate|]. rewrite Hl. apply in_elt.
  - destruct (find (activeFor gameId (clock env)) all) as [c0|] eqn:E.
    + split; [discriminate|]. intros H. exfalso.
      apply find_first in E. destruct E as (b & a & Hl & Hc & _).
      apply (H c0); [rewrite Hl; apply in_elt | now apply activeFor_spec].
    + split; [|reflexivity]. intros _ c Hc Hact.
      rewrite find_none in E. apply activeFor_spec in Hact.
      rewrite (E c Hc) in Hact. discriminate.
Qed.

(** C6 as stated fails when two challenges of one game are active at the
    same time: the second one has its flag set and the current time in its
    window, and is not the one returned. *)
Lemma second_active_challenge_not_returned :
  let c := fst Samples.afterCreateChallenge in
  let s := snd Samples.afterCreateChallenge in
  In c (values (challenges s))
  /\ Challenge.gameId c = "u1"
  /\ Challenge.isActive c = Some 1
  /\ Challenge.startDate c <= Samples.today <= Challenge.endDate c
  /\ GET_api_challenges_gameId (mkEnv "" Samples.today) "u1" s
     <> mkResponse 200 (ChallengeBody c).
Proof.
  repeat split; try reflexivity; try discriminate.
  vm_compute. tauto.
Qed.

(** *** Games by slug *)

Lemma find_set_new {V} (f : V -> bool) (k : string) (v : V) (m : Map V) :
  find f (values m) = None -> f v = true ->
  find f (values (set k v m)) = Some v.
Proof.
  unfold values. induction m as [|[k' v'] m IH]; simpl; intros Hn Hv.
  - now rewrite Hv.
  - destruct (f v') eqn:E; [discriminate|].
    destruct (String.eqb k' k); simpl.
    + now rewrite Hv.
    + rewrite E. auto.
Qed.

Lemma getGameBySlug_none (slug : string) (s : MemStorage.t) :
  getGameBySlug slug s = None <->
  forall old, In old (values (games s)) -> Game.slug old <> slug.
Proof.
  unfold getGameBySlug. rewrite find_none. split; intros H old Hin.
  - apply String.eqb_neq. auto.
  - apply String.eqb_neq. auto.
Qed.

Lemma In_values_set {V} (k : string) (v : V) (m : Map V) :
  In v (values (set k v m)).
Proof.
  unfold values. induction m as [|[k' v'] m IH]; simpl; [now left|].
  destruct (String.eqb k' k); simpl; auto.
Qed.

Lemma find_unique {A} (key : A -> string) (l : list A) (v : A) :
  NoDup (map key l) -> In v l ->
  find (fun y => String.eqb (key y) (key v)) l = Some v.
Proof.
  induction l as [|a l IH]; simpl; intros Hnd Hin; [contradiction|].
  inversion Hnd as [|? ? Ha Hl]; subst.
  destruct Hin as [-> | Hin]; [now rewrite String.eqb_refl|].
  destruct (String.eqb (key a) (key v)) eqn:E; [|auto].
  apply String.eqb_eq in E. exfalso. apply Ha. rewrite E. now apply in_map.
Qed.

(** C8.  Slugs are unique in the data model (the schema declares the
    column unique).  When a game is created under a slug that no game of
    the store has, or, put the other way, when the store holds no two
    games with the same slug once the game is created,
    [GET /api/games/:slug] with the slug answers 200 with exactly the
    created record, which is the given one with its new identifier and
    creation time.  The answer is 404 for a slug that no game in the
    store has, and only for such a slug. *)
Theorem game_by_slug (s : MemStorage.t) (env : Env) (g : InsertGame.t) (slug : string) :
  ((forall old, In old (values (games s)) -> Game.slug old <> InsertGame.slug g)
   \/ uniqueSlugs (snd (createGame env g s)) ->
   GET_api_games_slug (InsertGame.slug g) (snd (createGame env g s))
   = mkResponse 200 (GameBody (fst (createGame env g s)))
   /\ fst (createGame env g s) = fullGame (uuid env) (clock env) g)
  /\ ((forall old, In old (values (games s)) -> Game.slug old <> slug) <->
      GET_api_games_slug slug s = failure 404 "Game not found").
Proof.
  unfold GET_api_games_slug. cbn [IStorage.getGameBySlug storage].
  split; [|split].
  - intros H. split; [|reflexivity].
    assert (Hfound : getGameBySlug (InsertGame.slug g) (snd (createGame env g s))
                     = Some (fst (createGame env g s))).
    { unfold getGameBySlug, createGame. cbn [snd fst games].
      destruct H as [Hn | Hu].
      - apply getGameBySlug_none in Hn. unfold getGameBySlug in Hn.
        rewrite find_set_new; trivial. simpl. apply String.eqb_refl.
      - apply (find_unique Game.slug _ (fullGame (uuid env) (clock env) g) Hu).
        apply In_values_set. }
    now rewrite Hfound.
  - intros Hn. apply getGameBySlug_none in Hn. now rewrite Hn.
  - intros H. apply getGameBySlug_none.
    destruct (getGameBySlug slug s); [discriminate|reflexivity].
Qed.

Lemma game_by_slug_witness :
  let created := createGame (mkEnv "g7" Samples.today) Samples.pongGame Samples.fresh in
  uniqueSlugs (snd created)
  /\ GET_api_games_slug "pong" (snd created) = mkResponse 200 (GameBody (fst created))
  /\ GET_api_games_slug "unknown-slug" Samples.fresh = failure 404 "Game not found".
Proof.
  intros created.
  assert (Hu : uniqueSlugs (snd created)).
  { unfold uniqueSlugs. vm_compute.
    repeat (constructor; [simpl; intuition discriminate|]). constructor. }
  split; [exact Hu|]. split.
  - apply (proj1 (game_by_slug Samples.fresh (mkEnv "g7" Samples.today)
                    Samples.pongGame "unknown-slug")).
    right. exact Hu.
  - apply (proj1 (proj2 (game_by_slug Samples.fresh (mkEnv "g7" Samples.today)
                           Samples.pongGame "unknown-slug"))).
    apply getGameBySlug_none. reflexivity.
Defined.

(** *** Status codes *)

Section AnyStore.
Context {S : Type} {store : IStorage.t S}.
Variable schema : value -> Completion InsertScore.t.

(** Every [GET] handler answers 500, with a fixed message, when its
    store operation rejects. *)
Lemma GET_handlers_answer_500 (s : S) (env : Env) (p : string) (g q : option string) :
  (IStorage.getGames s = Throw ->
   GET_api_games s = failure 500 "Failed to fetch games")
  /\ (IStorage.getGameBySlug p s = Throw ->
      GET_api_games_slug p s = failure 500 "Failed to fetch game")
  /\ (IStorage.getScores g (Some (orDefault (parseIntQuery q) 10)) s = Throw ->
      GET_api_scores g q s = failure 500 "Failed to fetch scores")
  /\ (IStorage.getTopScores p (orDefault (parseIntQuery q) 10) s = Throw ->
      GET_api_leaderboard p q s = failure 500 "Failed to fetch leaderboard")
  /\ (IStorage.getChallenges s = Throw ->
      GET_api_challenges s = failure 500 "Failed to fetch challenges")
  /\ (IStorage.getActiveChallenge env p s = Throw ->
      GET_api_challenges_gameId env p s = failure 500 "Failed to fetch challenge").
Proof.
  unfold GET_api_games, GET_api_games_slug, GET_api_scores, GET_api_leaderboard,
    GET_api_challenges, GET_api_challenges_gameId.
  repeat split; intros ->; reflexivity.
Qed.

(** [POST /api/scores] answers 400 to a body the schema rejects, and 201
    with the created record when the schema accepts the body and the
    store creates the record. *)
Lemma POST_scores_400_and_201 (s : S) (env : Env) (body : value) :
  (schema body = Throw ->
   POST_api_scores schema env body s = (failure 400 "Invalid score data", s))
  /\ (forall data score s',
        schema body = Normal data ->
        IStorage.createScore env data s = Normal (score, s') ->
        POST_api_scores schema env body s = (mkResponse 201 (ScoreBody score), s')).
Proof.
  unfold POST_api_scores. split.
  - intros ->. reflexivity.
  - intros data score s' -> H. simpl. now rewrite H.
Qed.

(** The same handler answers 400 as well when the body is accepted and
    it is the store that rejects. *)
Lemma POST_scores_400_on_store_failure (s : S) (env : Env) (body : value) data :
  schema body = Normal data ->
  IStorage.createScore env data s = Throw ->
  POST_api_scores schema env body s = (failure 400 "Invalid score data", s).
Proof. unfold POST_api_scores. intros -> H. simpl. now rewrite H. Qed.
End AnyStore.

(** The two outcomes of [POST /api/scores] on the in-memory store. *)
Example POST_scores_examples :
  fst (POST_api_scores Samples.insertScoreSchema (mkEnv "s1" (Samples.today + 1))
         Samples.body450 Samples.fresh)
  = mkResponse 201
      (ScoreBody (Score.make "s1" "g1" None None 450 None (Some (Samples.today + 1))))
  /\ POST_api_scores Samples.insertScoreSchema (mkEnv "s1" (Samples.today + 1))
       Samples.bodyNoScore Samples.fresh
     = (failure 400 "Invalid score data", Samples.fresh).
Proof. split; reflexivity. Qed.

(** On the in-memory store, a body that matches the schema is answered
    with 201 and the record that is now stored under its identifier. *)
Lemma POST_scores_creates (s : MemStorage.t) (env : Env) (body : value) data
      (schema : value -> Completion InsertScore.t) :
  schema body = Normal data ->
  let score := fullScore (uuid env) (clock env) data in
  fst (POST_api_scores schema env body s) = mkResponse 201 (ScoreBody score)
  /\ get (uuid env) (scores (snd (POST_api_scores schema env body s))) = Some score.
Proof.
  intros H. unfold POST_api_scores. rewrite H. simpl. split; [reflexivity|].
  induction (scores s) as [|[k v] m IH]; simpl.
  - now rewrite String.eqb_refl.
  - destruct (String.eqb k (uuid env)) eqn:E; simpl.
    + now rewrite String.eqb_refl.
    + now rewrite E.
Qed.


End ServerFacts.

(* ===================================================================== *)
(** ** The client-side cache *)
(* ===================================================================== *)

Module CacheFacts.
Import LocalStorage.

(** *** The highest [n] of a growing list *)

Lemma filter_all {A} (f : A -> bool) (l : list A) :
  (forall x, In x l -> f x = true) -> filter f l = l.
Proof.
  induction l as [|x l IH]; simpl; intros H; trivial.
  rewrite (H x (or_introl eq_refl)), IH; auto.
Qed.

Lemma filter_nothing {A} (f : A -> bool) (l : list A) :
  (forall x, In x l -> f x = false) -> filter f l = [].
Proof.
  induction l as [|x l IH]; simpl; intros H; trivial.
  rewrite (H x (or_introl eq_refl)), IH; auto.
Qed.

Lemma In_firstn {A} (n : nat) (l : list A) (x : A) : In x (firstn n l) -> In x l.
Proof.
  intros H. rewrite <- (firstn_skipn n l). apply in_or_app. now left.
Qed.

Lemma top_ofGame (g : string) (l : list GameScore) (x : GameScore) :
  In x (firstn 100 (sort (byScoreDesc score) (ofGame g l))) -> gameSlug x = g.
Proof.
  intros H. apply In_firstn in H.
  apply (Permutation_in _ (sort_perm score (ofGame g l))) in H.
  apply filter_In in H. now apply String.eqb_eq.
Qed.

Lemma ofGame_saved (s : GameScore) (l : list GameScore) :
  ofGame (gameSlug s) (saved s l)
  = firstn 100 (sort (byScoreDesc score) (ofGame (gameSlug s) l ++ [s])).
Proof.
  unfold saved. set (g := gameSlug s).
  assert (HX : ofGame g (l ++ [s]) = ofGame g l ++ [s]).
  { unfold ofGame. rewrite filter_app. simpl. fold g. now rewrite String.eqb_refl. }
  rewrite HX. unfold ofGame at 1. rewrite filter_app. fold (ofGame g).
  rewrite (@filter_nothing _ _ (ofOtherGames g (l ++ [s]))).
  - simpl. rewrite <- HX. apply filter_all. intros x Hx.
    apply String.eqb_eq. now apply (top_ofGame g (l ++ [s])).
  - intros x Hx. apply filter_In in Hx. now apply negb_true_iff.
Qed.

Lemma ofOtherGames_saved (s : GameScore) (l : list GameScore) :
  ofOtherGames (gameSlug s) (saved s l) = ofOtherGames (gameSlug s) l.
Proof.
  unfold saved. set (g := gameSlug s).
  unfold ofOtherGames at 1. rewrite filter_app. fold (ofOtherGames g).
  rewrite (@filter_nothing _ _ (firstn 100 _)).
  - rewrite app_nil_r. unfold ofOtherGames. rewrite filter_app. simpl. fold g.
    rewrite String.eqb_refl. simpl. rewrite app_nil_r.
    apply filter_all. intros x Hx. now apply filter_In in Hx.
  - intros x Hx. apply top_ofGame in Hx. apply negb_false_iff.
    now apply String.eqb_eq.
Qed.

Lemma highest_first (n : nat) (all : list GameScore) :
  highest n all (firstn n (sort (byScoreDesc score) all)).
Proof.
  unfold highest. split; [|split].
  - now rewrite length_firstn, sort_length.
  - apply descending_firstn, sort_descending.
  - exists (skipn n (sort (byScoreDesc score) all)). split.
    + rewrite firstn_skipn. apply sort_perm.
    + apply descending_split, sort_descending.
Qed.

Lemma highest_step (n : nat) (all kept : list GameScore) (x : GameScore) :
  highest n all kept ->
  highest n (all ++ [x]) (firstn n (sort (byScoreDesc score) (kept ++ [x]))).
Proof.
  intros (Hlen & _ & ev & Hperm & Hle).
  set (sorted := sort (byScoreDesc score) (kept ++ [x])).
  assert (Hsp : Permutation sorted (kept ++ [x])) by apply sort_perm.
  assert (Hsl : List.length sorted = S (List.length kept)).
  { unfold sorted. rewrite sort_length, length_app. simpl. lia. }
  assert (Hall : List.length all = (List.length kept + List.length ev)%nat).
  { rewrite <- (Permutation_length Hperm). apply length_app. }
  assert (Hdesc : descending score sorted) by apply sort_descending.
  unfold highest. split; [|split].
  - rewrite length_firstn, Hsl, length_app. simpl. lia.
  - now apply descending_firstn.
  - exists (skipn n sorted ++ ev). split.
    + rewrite app_assoc, firstn_skipn, Hsp.
      rewrite <- app_assoc.
      rewrite (Permutation_app_comm [x] ev), app_assoc.
      now apply Permutation_app_tail.
    + intros k e Hk He. apply in_app_or in He. destruct He as [He|He].
      * now apply (@descending_split _ score n sorted).
      * assert (Hkx : In k (kept ++ [x])).
        { apply (Permutation_in _ Hsp). now apply In_firstn in Hk. }
        apply in_app_or in Hkx. destruct Hkx as [Hkk|[<-|[]]]; [now apply Hle|].
(* the new record is kept and something had been evicted before *)
assert (Hn : List.length kept = n).
{ destruct ev as [|e0 ev]; [contradiction|]. simpl in Hall. lia. }
assert (Hd : List.length (skipn n sorted) = 1%nat).
{ rewrite length_skipn. lia. }
destruct (skipn n sorted) as [|d [|d' rest]] eqn:Esk; try discriminate.
assert (Hdx : score d <= score x).
{ apply (@descending_split _ score n sorted); trivial. rewrite Esk. now left. }
assert (Hdin : In d (kept ++ [x])).
{ apply (Permutation_in _ Hsp). rewrite <- (firstn_skipn n sorted), Esk.
  apply in_or_app. right. now left. }
apply in_app_or in Hdin. destruct Hdin as [Hdk|[Hxd|[]]].
-- specialize (Hle d e Hdk He). lia.
-- subst d. apply Hle; trivial.
   assert (Hp : Permutation (firstn n sorted) kept).
   { apply Permutation_app_inv_r with (l := [x]).
     pose proof (firstn_skipn n sorted) as Hfs.
     rewrite Esk in Hfs. now rewrite Hfs. }
   now apply (Permutation_in _ Hp).
Qed.

Lemma highest_savedAll (g : string) (saves l all : list GameScore) :
  (forall s, In s saves -> gameSlug s = g) ->
  highest 100 all (ofGame g l) ->
  highest 100 (all ++ saves) (ofGame g (savedAll saves l))
  /\ ofOtherGames g (savedAll saves l) = ofOtherGames g l.
Proof.
  revert l all. induction saves as [|s saves IH]; intros l all Hg H; simpl.
  - now rewrite app_nil_r.
  - assert (Hs : gameSlug s = g) by (apply Hg; now left).
    destruct (IH (saved s l) (all ++ [s])) as [H1 H2].
    + intros s' Hs'. apply Hg. now right.
    + rewrite <- Hs, ofGame_saved, Hs. now apply highest_step.
    + rewrite <- app_assoc in H1. simpl in H1. split; [exact H1|].
      rewrite H2, <- Hs. apply ofOtherGames_saved.
Qed.

(** *** [saveScore] on a cache that holds a list of records *)

Lemma getItem_setItem (key : string) (text : Item) (ls : Storage) :
  getItem key (setItem key text ls) = Some text.
Proof.
  induction ls as [|[k old] ls IH]; simpl.
  - now rewrite String.eqb_refl.
  - destruct (String.eqb k key) eqn:E; simpl.
    + now rewrite String.eqb_refl.
    + now rewrite E.
Qed.

Lemma getItem_setItem_other (key key' : string) (text : Item) (ls : Storage) :
  key' <> key -> getItem key' (setItem key text ls) = getItem key' ls.
Proof.
  intros Hne. induction ls as [|[k old] ls IH]; simpl.
  - apply String.eqb_neq in Hne. rewrite String.eqb_sym. now rewrite Hne.
  - destruct (String.eqb k key) eqn:E; simpl.
    + apply String.eqb_eq in E. subst k.
      apply String.eqb_neq in Hne. rewrite String.eqb_sym. now rewrite Hne.
    + now rewrite IH.
Qed.

Section Typed.
Variable textToNumber : value -> option Z.

Lemma hasSlug_encode (g : string) (s : GameScore) :
  hasSlug g (encode s) = Normal (String.eqb (gameSlug s) g).
Proof. reflexivity. Qed.

Lemma hasOtherSlug_encode (g : string) (s : GameScore) :
  hasOtherSlug g (encode s) = Normal (negb (String.eqb (gameSlug s) g)).
Proof. reflexivity. Qed.

Lemma filterM_hasSlug (g : string) (l : list GameScore) :
  filterM (hasSlug g) (map encode l) = Normal (map encode (ofGame g l)).
Proof.
  induction l as [|s l IH]; [reflexivity|].
  cbn [map filterM]. rewrite hasSlug_encode, IH. simpl.
  now destruct (String.eqb (gameSlug s) g).
Qed.

Lemma filterM_hasOtherSlug (g : string) (l : list GameScore) :
  filterM (hasOtherSlug g) (map encode l) = Normal (map encode (ofOtherGames g l)).
Proof.
  induction l as [|s l IH]; [reflexivity|].
  cbn [map filterM]. rewrite hasOtherSlug_encode, IH. simpl.
  now destruct (String.eqb (gameSlug s) g).
Qed.

Lemma compareScores_encode (a b : GameScore) :
  compareScores textToNumber (encode a) (encode b)
  = Normal (byScoreDesc score a b).
Proof. reflexivity. Qed.

Lemma insertM_encode (x : GameScore) (l : list GameScore) :
  insertM (compareScores textToNumber) (encode x) (map encode l)
  = Normal (map encode (insert (byScoreDesc score) x l)).
Proof.
  induction l as [|y l IH]; [reflexivity|].
  cbn [map insertM insert]. rewrite compareScores_encode. cbn [bind].
  destruct (0 <? byScoreDesc score x y); [|reflexivity].
  now rewrite IH.
Qed.

Lemma sortM_encode (l : list GameScore) :
  sortM (compareScores textToNumber) (map encode l)
  = Normal (map encode (sort (byScoreDesc score) l)).
Proof.
  induction l as [|x l IH]; [reflexivity|].
  cbn [map sortM]. rewrite IH. cbn [bind]. apply insertM_encode.
Qed.

Lemma getScores_holds (ls : Storage) (l : list GameScore) :
  holds ls l -> getScores None ls = VArr (map encode l).
Proof.
  unfold holds, getScores.
  destruct (getItem SCORES_KEY ls) as [[| |v]|]; intros ->; reflexivity.
Qed.

Lemma saveScore_holds (s : GameScore) (ls : Storage) (l : list GameScore) :
  holds ls l ->
  saveScore textToNumber s ls
  = Normal (setItem SCORES_KEY (Json (VArr (map encode (saved s l)))) ls).
Proof.
  intros H. unfold saveScore. rewrite (getScores_holds ls l H).
  change [encode s] with (map encode [s]). rewrite <- map_app.
  rewrite filterM_hasSlug, filterM_hasOtherSlug. cbn [bind].
  rewrite sortM_encode. cbn [bind].
  rewrite slice0_nonneg by lia. change (Z.to_nat 100) with 100%nat.
  unfold saved. now rewrite firstn_map, <- map_app.
Qed.

Lemma saveScores_holds (saves : list GameScore) (ls : Storage) (l : list GameScore) :
  holds ls l ->
  exists ls',
    saveScores textToNumber saves ls = Normal ls'
    /\ holds ls' (savedAll saves l)
    /\ (saves <> [] ->
        getItem SCORES_KEY ls' = Some (Json (VArr (map encode (savedAll saves l)))))
    /\ forall key, key <> SCORES_KEY -> getItem key ls' = getItem key ls.
Proof.
  revert ls l. induction saves as [|s saves IH]; intros ls l H.
  - exists ls. simpl. repeat split; trivial. congruence.
  - cbn [saveScores savedAll fold_left]. rewrite (saveScore_holds s ls l H). cbn [bind].
    set (ls1 := setItem SCORES_KEY (Json (VArr (map encode (saved s l)))) ls).
    assert (H1 : holds ls1 (saved s l)).
    { unfold holds, ls1. now rewrite getItem_setItem. }
    destruct (IH ls1 (saved s l) H1) as (ls' & Hrun & Hh & Hget & Hother).
    exists ls'. repeat split; trivial.
    + intros _. destruct saves as [|s' saves'].
      * simpl in *. injection Hrun as <-. unfold ls1. apply getItem_setItem.
      * apply Hget. discriminate.
    + intros key Hk. rewrite (Hother key Hk). unfold ls1.
      now apply getItem_setItem_other.
Qed.

(** C3 (amended).  Let the cache hold a list of score records (or be
    absent, empty or unparsable, which reads as the empty list), and let
    one or more scores be saved for one game identifier, so that the
    scores of that game number more than 100 in all.  Then every
    [saveScore] returns, and the cache afterwards holds exactly 100
    scores for that game, in descending order; every score of the game
    left out is no higher than any that is kept; the entries of the
    other games are the same as before. *)
Theorem cache_keeps_top_100
        (ls : Storage) (l : list GameScore) (g : string) (saves : list GameScore) :
  holds ls l ->
  saves <> [] ->
  (forall s, In s saves -> gameSlug s = g) ->
  (List.length (ofGame g l) + List.length saves > 100)%nat ->
  exists ls' final,
    saveScores textToNumber saves ls = Normal ls'
    /\ getItem SCORES_KEY ls' = Some (Json (VArr (map encode final)))
    /\ List.length (ofGame g final) = 100%nat
    /\ descending score (ofGame g final)
    /\ (exists evicted,
          Permutation (ofGame g final ++ evicted) (ofGame g l ++ saves)
          /\ forall k e, In k (ofGame g final) -> In e evicted -> score e <= score k)
    /\ ofOtherGames g final = ofOtherGames g l
    /\ forall key, key <> SCORES_KEY -> getItem key ls' = getItem key ls.
Proof.
  intros H Hne Hg Hcount.
  destruct (saveScores_holds saves ls l H) as (ls' & Hrun & _ & Hget & Hother).
  exists ls', (savedAll saves l). split; [exact Hrun|]. split; [now apply Hget|].
  destruct saves as [|s saves]; [congruence|]. clear Hne.
  assert (Hs : gameSlug s = g) by (apply Hg; now left).
  cbn [savedAll fold_left]. fold (savedAll saves (saved s l)).
  destruct (@highest_savedAll g saves (saved s l) (ofGame g l ++ [s]))
    as [(Hlen & Hdesc & Hev) Hoth].
  - intros s' Hs'. apply Hg. now right.
  - rewrite <- Hs, ofGame_saved. apply highest_first.
  - rewrite <- app_assoc in Hlen, Hev. cbn [app] in Hlen, Hev.
    repeat split; trivial.
    + rewrite Hlen, length_app. cbn [List.length] in *. lia.
    + rewrite Hoth, <- Hs. apply ofOtherGames_saved.
Qed.

End Typed.

Lemma cache_keeps_top_100_witness :
  exists ls' final,
    saveScores noConversion manyScores [] = Normal ls'
    /\ getItem SCORES_KEY ls' = Some (Json (VArr (map encode final)))
    /\ List.length (ofGame "tap-snake" final) = 100%nat
    /\ descending score (ofGame "tap-snake" final)
    /\ (exists evicted,
          Permutation (ofGame "tap-snake" final ++ evicted)
                      (ofGame "tap-snake" [] ++ manyScores)
          /\ forall k e,
              In k (ofGame "tap-snake" final) -> In e evicted -> score e <= score k)
    /\ ofOtherGames "tap-snake" final = ofOtherGames "tap-snake" []
    /\ forall key, key <> SCORES_KEY -> getItem key ls' = getItem key [].
Proof.
  apply (@cache_keeps_top_100 noConversion [] [] "tap-snake" manyScores).
  - reflexivity.
  - discriminate.
  - intros s Hs. apply String.eqb_eq. revert s Hs.
    apply forallb_forall. vm_compute. reflexivity.
  - simpl. lia.
Defined.

(** C3 as stated fails for a cache whose text parses to something other
    than an array: with the text [null], [saveScore] throws at [push],
    the cache stays as it was, and no score is retained however many are
    saved. *)
Lemma saveScore_throws_on_null_cache :
  getScores None nullCache = VNull
  /\ saveScore noConversion (snakeScore 7) nullCache = Throw
  /\ saveScores noConversion manyScores nullCache = Throw
  /\ getScores (Some "tap-snake") nullCache = VArr [].
Proof. repeat split. Qed.

(** *** Reading a cache of any content *)

Section Reads.
Variable textToNumber : value -> option Z.

Lemma compareScores_convertible (a b : value) :
  scoreConvertible a = true -> scoreConvertible b = true ->
  exists c, compareScores textToNumber a b = Normal c.
Proof.
  unfold scoreConvertible, compareScores. intros Ha Hb.
  destruct (getProp b "score") as [sb|]; [|discriminate].
  destruct (getProp a "score") as [sa|]; [|discriminate].
  cbn [bind].
  assert (Hn : forall v, convertible v = true -> exists n, toNumber textToNumber v = Normal n).
  { intros v Hv. destruct v; cbn [toNumber]; try rewrite Hv; eauto. }
  destruct (Hn sb Hb) as [nb ->]. destruct (Hn sa Ha) as [na ->].
  cbn [bind]. eauto.
Qed.

Definition allConvertible (l : list value) : Prop :=
  Forall (fun r => scoreConvertible r = true) l.

Lemma insertM_convertible (x : value) (l : list value) :
  scoreConvertible x = true -> allConvertible l ->
  exists r, insertM (compareScores textToNumber) x l = Normal r /\ allConvertible r.
Proof.
  unfold allConvertible. intros Hx Hl.
  induction Hl as [|y l Hy Hl IH]; cbn [insertM].
  - exists [x]. split; [reflexivity|]. now constructor.
  - destruct (@compareScores_convertible x y Hx Hy) as [c ->]. cbn [bind].
    destruct (0 <? c).
    + destruct IH as (r & -> & Hr). cbn [bind]. exists (y :: r).
      split; [reflexivity|]. now constructor.
    + exists (x :: y :: l). split; [reflexivity|]. repeat constructor; trivial.
Qed.

Lemma sortM_convertible (l : list value) :
  allConvertible l ->
  exists r, sortM (compareScores textToNumber) l = Normal r /\ allConvertible r.
Proof.
  unfold allConvertible. induction 1 as [|x l Hx Hl IH]; cbn [sortM].
  - exists []. split; [reflexivity|constructor].
  - destruct IH as (r & -> & Hr). cbn [bind]. now apply insertM_convertible.
Qed.

Lemma slice0_convertible (l : list value) (n : Z) :
  allConvertible l -> allConvertible (slice0 l n).
Proof.
  unfold allConvertible, slice0. rewrite !Forall_forall.
  intros H x Hx. apply H. now apply In_firstn in Hx.
Qed.

Lemma getScores_of_slug (g : string) (ls : Storage) :
  g <> "" -> exists l, getScores (Some g) ls = VArr l.
Proof.
  intros Hg. unfold getScores.
  assert (Ht : truthyString (Some g) = true) by (destruct g; [congruence|reflexivity]).
  rewrite Ht.
  destruct (JSON_parse _) as [v|]; cbn [bind]; [|now exists []].
  destruct v; cbn [filterArray bind]; try (now exists []).
  destruct (filterM (hasSlug g) items) as [r|]; cbn [bind]; eauto.
Qed.

Lemma getScores_unreadable (slug : option string) (ls : Storage) :
  unreadable SCORES_KEY ls -> getScores slug ls = VArr [].
Proof.
  unfold unreadable, getScores.
  destruct (getItem SCORES_KEY ls) as [[| |v]|]; try contradiction; intros _;
    cbn [JSON_parse bind]; trivial;
    destruct (truthyString slug); reflexivity.
Qed.

Lemma encode_scoreConvertible (l : list GameScore) :
  forallb scoreConvertible (map encode l) = true.
Proof. induction l as [|s l IH]; [reflexivity|]. simpl. exact IH. Qed.

Lemma getScores_of_records (slug : string) (ls : Storage) (l : list GameScore) :
  holds ls l -> sortable (getScores (Some slug) ls) = true.
Proof.
  unfold holds, getScores.
  destruct (getItem SCORES_KEY ls) as [[| |v]|]; intros ->;
    cbn [JSON_parse bind]; try reflexivity;
    destruct (truthyString (Some slug)); cbn [filterArray filterM bind sortable map];
    try reflexivity.
  - rewrite filterM_hasSlug. cbn [bind sortable]. apply encode_scoreConvertible.
  - apply encode_scoreConvertible.
Qed.

(** C9 (amended).  Whatever the browser's storage holds, [getScores] and
    [getPreferences] return (they are total), and [getScores] with a
    non-empty game slug returns a list.  [getTopScores] and
    [getBestScore] return whenever what [getScores] hands them is an
    array whose entries have a score that converts to a number, which is
    so whenever the cache holds score records or is absent, empty or
    unparsable.  When the stored text is absent, empty or rejected by
    [JSON.parse], the four operations return the empty list, the empty
    list, 0 and the default preferences.  A stored text that parses is
    handed back as parsed, whatever value it is the text of, by
    [getScores] without a game slug and by [getPreferences]. *)
Theorem reads_return_and_degrade
        (ls : Storage) (gameSlug : string) (limit : option Z) :
  (gameSlug <> "" -> exists l, getScores (Some gameSlug) ls = VArr l)
  /\ (sortable (getScores (Some gameSlug) ls) = true ->
      (exists l, getTopScores textToNumber gameSlug limit ls = Normal l)
      /\ (exists v, getBestScore textToNumber gameSlug ls = Normal v))
  /\ (forall l, holds ls l -> sortable (getScores (Some gameSlug) ls) = true)
  /\ (unreadable SCORES_KEY ls ->
      getScores None ls = VArr []
      /\ getScores (Some gameSlug) ls = VArr []
      /\ getTopScores textToNumber gameSlug limit ls = Normal []
      /\ getBestScore textToNumber gameSlug ls = Normal (VNum 0))
  /\ (unreadable PREFERENCES_KEY ls -> getPreferences ls = defaultPreferences)
  /\ (forall v, getItem SCORES_KEY ls = Some (Json v) ->
        getScores None ls = v /\ getScores (Some "") ls = v)
  /\ (forall v, getItem PREFERENCES_KEY ls = Some (Json v) -> getPreferences ls = v).
Proof.
  split; [apply getScores_of_slug|]. split; [|split; [|split; [|split; [|split]]]].
  - intros Hs. unfold getBestScore, getTopScores.
    destruct (getScores (Some gameSlug) ls) as [| | | | |items|]; try discriminate.
    cbn [sortable] in Hs. cbn [sortArray].
    assert (Hitems : allConvertible items).
    { apply Forall_forall. now apply forallb_forall. }
    destruct (sortM_convertible Hitems) as (sorted & -> & Hsorted).
    cbn [bind]. split; [eauto|].
    pose proof (@slice0_convertible sorted 1 Hsorted) as Hfirst.
    destruct (slice0 sorted 1) as [|first rest]; [eauto|].
    inversion Hfirst as [|? ? Hf _]. unfold scoreConvertible in Hf.
    destruct (getProp first "score"); [eauto|discriminate].
  - intros l. apply getScores_of_records.
  - intros Hu.
    assert (Hn : forall slug, getScores slug ls = VArr [])
      by (intros slug; now apply getScores_unreadable).
    split; [apply Hn|]. split; [apply Hn|].
    unfold getBestScore, getTopScores. rewrite Hn. cbn [sortArray sortM bind].
    split; [|reflexivity]. unfold slice0. now rewrite firstn_nil.
  - unfold unreadable, getPreferences.
    destruct (getItem PREFERENCES_KEY ls) as [[| |v]|]; try contradiction;
      reflexivity.
  - intros v Hv. unfold getScores. rewrite Hv. split; reflexivity.
  - intros v Hv. unfold getPreferences. now rewrite Hv.
Qed.

End Reads.

Lemma reads_return_and_degrade_witness :
  (exists l, getScores (Some "tap-snake") garbledCache = VArr l)
  /\ (exists l, getTopScores noConversion "tap-snake" (Some 10) garbledCache = Normal l)
  /\ (exists v, getBestScore noConversion "tap-snake" garbledCache = Normal v)
  /\ sortable (getScores (Some "tap-snake") garbledCache) = true
  /\ getScores None garbledCache = VArr []
  /\ getScores (Some "tap-snake") garbledCache = VArr []
  /\ getTopScores noConversion "tap-snake" (Some 10) garbledCache = Normal []
  /\ getBestScore noConversion "tap-snake" garbledCache = Normal (VNum 0)
  /\ getPreferences garbledCache = defaultPreferences
  /\ getScores None nullCache = VNull
  /\ getPreferences nullCache = VNull.
Proof.
  destruct (@reads_return_and_degrade noConversion nullCache "tap-snake" (Some 10))
    as (_ & _ & _ & _ & _ & H6 & H7).
  destruct (@reads_return_and_degrade noConversion garbledCache "tap-snake" (Some 10))
    as (H1 & H2 & H3 & H4 & H5 & _).
  split; [apply H1; discriminate|].
  split; [apply H2; reflexivity|].
  split; [apply H2; reflexivity|].
  split; [apply (H3 []); reflexivity|].
  split; [apply H4; exact I|].
  split; [apply H4; exact I|].
  split; [apply H4; exact I|].
  split; [apply H4; exact I|].
  split; [apply H5; exact I|].
  split; [apply (H6 VNull); reflexivity|].
  apply (H7 VNull). reflexivity.
Defined.

(** C9 as stated fails on stored texts that parse to something other than
    what the cache writes.  With the text [null], [getScores()] hands
    back [null] instead of a list, [getPreferences()] hands back [null]
    instead of the default preferences, and [getTopScores] and
    [getBestScore], called with an empty slug, throw at [sort].  With two
    entries for a game, one of them with an object for a score that cannot
    be converted to a number, [getTopScores] and [getBestScore] throw for
    that game's slug, inside the comparator. *)
Lemma reads_fail_on_unexpected_json :
  getScores None nullCache = VNull
  /\ getPreferences nullCache = VNull
  /\ getPreferences nullCache <> defaultPreferences
  /\ getTopScores noConversion "" (Some 10) nullCache = Throw
  /\ getBestScore noConversion "" nullCache = Throw
  /\ getTopScores noConversion "tap-snake" (Some 10) oddScoreCache = Throw
  /\ getBestScore noConversion "tap-snake" oddScoreCache = Throw.
Proof. repeat split. discriminate. Qed.

End CacheFacts.

(* ===================================================================== *)
(** ** Frames, pausing and stale callbacks *)
(* ===================================================================== *)

Module FrameFacts.
Import Engine.

Section Frames.
Context {G : Type} {hooks : GameHooks G}.

Lemma cancelPendingFrame_host (e : Engine G) :
  nextHandle (cancelPendingFrame e) = nextHandle e
  /\ lastTime (cancelPendingFrame e) = lastTime e
  /\ incl (frames (cancelPendingFrame e)) (frames e).
Proof.
  unfold cancelPendingFrame.
  destruct (animationId e) as [[|h]|]; simpl; repeat split;
    try apply incl_refl.
  intros a Ha. apply filter_In in Ha. tauto.
Qed.

Lemma stop_host (e : Engine G) :
  game (stop e) = game e
  /\ nextHandle (stop e) = nextHandle e
  /\ lastTime (stop e) = lastTime e
  /\ incl (frames (stop e)) (frames e).
Proof.
  destruct (cancelPendingFrame_host e) as (Hn & Hl & Hf).
  destruct (EngineFacts.cancelPendingFrame_listeners e) as (_ & _ & _ & Hg).
  unfold stop. destruct (onGameOver _); simpl; auto.
Qed.

Lemma updateScore_host (n : Z) (e : Engine G) :
  game (updateScore n e) = game e
  /\ nextHandle (updateScore n e) = nextHandle e
  /\ lastTime (updateScore n e) = lastTime e
  /\ frames (updateScore n e) = frames e
  /\ animationId (updateScore n e) = animationId e.
Proof. unfold updateScore. simpl. now destruct (onScoreUpdate e). Qed.

Lemma runCalls_host (cs : list Call) (e : Engine G) :
  game (runCalls cs e) = game e
  /\ nextHandle (runCalls cs e) = nextHandle e
  /\ lastTime (runCalls cs e) = lastTime e
  /\ incl (frames (runCalls cs e)) (frames e).
Proof.
  revert e. induction cs as [|[|n] cs IH]; intros e; simpl.
  - repeat split. apply incl_refl.
  - destruct (IH (stop e)) as (Hg & Hn & Hl & Hf).
    destruct (stop_host e) as (Hg' & Hn' & Hl' & Hf').
    rewrite Hg, Hn, Hl. repeat split; trivial.
    eapply incl_tran; eassumption.
  - destruct (IH (updateScore n e)) as (Hg & Hn & Hl & Hf).
    destruct (updateScore_host n e) as (Hg' & Hn' & Hl' & Hf' & _).
    rewrite Hg, Hn, Hl. repeat split; trivial. now rewrite <- Hf'.
Qed.

Lemma existsb_handle (h : nat) (l : list nat) :
  In h l -> existsb (Nat.eqb h) l = true.
Proof.
  intros H. apply existsb_exists. exists h. split; [exact H|].
  apply Nat.eqb_refl.
Qed.

(** X1.  While the loop is paused a frame neither updates the game nor calls
    a listener, but it records its time and asks for the next frame; when
    the game is resumed, [update] receives the time since that frame, not
    the time since the pause began. *)
Theorem paused_time_is_not_played (e : Engine G) (h : nat) (t1 t2 : Z) :
  isPlaying (state e) = true ->
  isPaused (state e) = false ->
  gameOver (state e) = false ->
  In h (frames e) ->
  let paused := fireFrame h t1 (pause e) in
  let resumed := fireFrame (nextHandle e) t2 (pause paused) in
  game paused = game e
  /\ state paused = state (pause e)
  /\ notified paused = notified e
  /\ lastTime paused = t1
  /\ animationId paused = Some (nextHandle e)
  /\ game resumed = fst (update (t2 - t1) (state e) (game e)).
Proof.
  intros Hp Hq Hg Hh.
  destruct e as [[sc pl pa go] aid lt osu ogo g fr nh nt].
  simpl in Hp, Hq, Hg, Hh. subst pl pa go.
  assert (E1 : fireFrame h t1
                 (pause (mkEngine (mkGameState sc true false false) aid lt osu
                                  ogo g fr nh nt))
               = mkEngine (mkGameState sc true true false) (Some nh) t1 osu ogo g
                          (filter (fun h' => negb (Nat.eqb h' h)) fr ++ [nh])
                          (S nh) nt).
  { unfold fireFrame, pause. simpl. now rewrite (existsb_handle _ _ Hh). }
  cbv zeta. rewrite E1. cbn [game state notified lastTime animationId nextHandle].
  repeat split.
  unfold fireFrame, pause. simpl.
  rewrite existsb_handle by (apply in_or_app; right; now left).
  unfold gameLoop, runHook. simpl.
  destruct (update (t2 - t1) (mkGameState sc true false false) g) as [g' cs].
  simpl. apply runCalls_host.
Qed.

Lemma gameLoop_idle (t : Z) (e : Engine G) :
  isPlaying (state e) = false -> gameLoop t e = e.
Proof. intros H. unfold gameLoop. now rewrite H. Qed.

Lemma step_passive_idle (op : Op) (e : Engine G) :
  isPlaying (state e) = false -> passive op = true ->
  game (step e op) = game e
  /\ notified (step e op) = notified e
  /\ score (state (step e op)) = score (state e)
  /\ isPlaying (state (step e op)) = false
  /\ gameOver (state (step e op)) = gameOver (state e)
  /\ nextHandle (step e op) = nextHandle e
  /\ incl (frames (step e op)) (frames e).
Proof.
  intros Hp Hop. destruct op; try discriminate; simpl.
  - repeat split; trivial. apply incl_refl.
  - repeat split; trivial. apply incl_refl.
  - unfold fireFrame. destruct (existsb _ _).
    + rewrite gameLoop_idle by exact Hp. simpl. repeat split; trivial.
      intros a Ha. apply filter_In in Ha. tauto.
    + repeat split; trivial. apply incl_refl.
Qed.

(** X2.  While the loop is not playing (before the first [start], after a
    [stop]), frames run by the host, stale or not, together with [pause] and
    [setCallbacks], never run [update], never call a listener, never move
    the score and never ask for another frame. *)
Theorem idle_engine_runs_no_update (ops : list Op) (e : Engine G) :
  isPlaying (state e) = false ->
  forallb passive ops = true ->
  let e' := exec ops e in
  game e' = game e
  /\ notified e' = notified e
  /\ score (state e') = score (state e)
  /\ isPlaying (state e') = false
  /\ gameOver (state e') = gameOver (state e)
  /\ nextHandle e' = nextHandle e
  /\ incl (frames e') (frames e).
Proof.
  unfold exec. revert e.
  induction ops as [|op ops IH]; intros e Hp Hops; simpl in *.
  - repeat split; trivial. apply incl_refl.
  - apply andb_prop in Hops. destruct Hops as [Hop Hops].
    destruct (step_passive_idle op e Hp Hop) as (Hg & Hn & Hs & Hp' & Ho & Hh & Hf).
    destruct (IH (step e op) Hp' Hops) as (Hg2 & Hn2 & Hs2 & Hp2 & Ho2 & Hh2 & Hf2).
    rewrite Hg2, Hn2, Hs2, Hp2, Ho2, Hh2. repeat split; trivial.
    eapply incl_tran; eassumption.
Qed.

(** *** A frame left pending by a game that ends inside [update] *)

Lemma fireFrame_runs_update (h : nat) (t : Z) (e : Engine G) :
  isPlaying (state e) = true ->
  isPaused (state e) = false ->
  gameOver (state e) = false ->
  In h (frames e) ->
  game (fireFrame h t e) = fst (update (t - lastTime e) (state e) (game e)).
Proof.
  intros Hp Hq Hg Hh.
  destruct e as [[sc pl pa go] aid lt osu ogo g fr nh nt].
  simpl in Hp, Hq, Hg, Hh. subst pl pa go.
  unfold fireFrame. simpl. rewrite (existsb_handle _ _ Hh).
  unfold gameLoop, runHook. simpl.
  destruct (update (t - lt) (mkGameState sc true false false) g) as [g' cs].
  simpl. apply runCalls_host.
Qed.

Lemma runCalls_still_playing (cs : list Call) (e : Engine G) :
  isPlaying (state (runCalls cs e)) = true ->
  frames (runCalls cs e) = frames e
  /\ isPaused (state (runCalls cs e)) = isPaused (state e)
  /\ gameOver (state (runCalls cs e)) = gameOver (state e).
Proof.
  revert e. induction cs as [|[|n] cs IH]; intros e H; simpl in *.
  - repeat split.
  - rewrite EngineFacts.runCalls_not_playing in H; [discriminate|].
    now rewrite EngineFacts.stop_state.
  - destruct (IH _ H) as (Hf & Hq & Hg). rewrite Hf, Hq, Hg.
    rewrite EngineFacts.updateScore_state.
    now destruct (updateScore_host n e) as (_ & _ & _ & -> & _).
Qed.

(** What [gameLoop] does on a loop that is playing. *)
Lemma gameLoop_playing (t : Z) (e : Engine G) :
  isPlaying (state e) = true ->
  exists e2,
    gameLoop t e = requestAnimationFrame e2
    /\ nextHandle e2 = nextHandle e
    /\ lastTime e2 = t
    /\ (isPlaying (state e2) = true ->
        frames e2 = frames e
        /\ isPaused (state e2) = isPaused (state e)
        /\ gameOver (state e2) = gameOver (state e)).
Proof.
  intros Hp. unfold gameLoop. rewrite Hp. cbn [negb].
  match goal with |- context [if ?c then _ else _] => destruct c end.
  - eexists. split; [reflexivity|]. unfold runHook.
    destruct (update _ _ _) as [g' cs].
    destruct (runCalls_host cs (withGame g' (withLastTime t e)))
      as (_ & Hn & Hl & _).
    rewrite Hn, Hl. split; [reflexivity|]. split; [reflexivity|].
    intros Hstill. exact (runCalls_still_playing _ _ Hstill).
  - eexists. split; [reflexivity|]. repeat split.
Qed.

(** X3.  A game that ends inside [update] leaves the frame that [gameLoop]
    requests at its end pending. If [start] is called before the host runs
    that frame, and the game is playing when [start] returns, two frame
    callbacks are pending, the stale one and the one of the new run; when
    the host runs the stale one, it runs [update] as well. *)
Theorem start_before_stale_frame_doubles_the_loop
        (e : Engine G) (h : nat) (t now t' : Z) :
  isPlaying (state e) = true ->
  In h (frames e) ->
  isPlaying (state (fireFrame h t e)) = false ->
  isPlaying (state (start now (fireFrame h t e))) = true ->
  let ended := fireFrame h t e in
  let again := start now ended in
  In (nextHandle e) (frames ended)
  /\ In (nextHandle e) (frames again)
  /\ In (S (nextHandle e)) (frames again)
  /\ game (fireFrame (nextHandle e) t' again)
     = fst (update (t' - now) (state again) (game again)).
Proof.
  intros Hp Hh He Ha ended again.
  (* the frame in which the game ends *)
  destruct (@gameLoop_playing t
              (mkEngine (state e) (animationId e) (lastTime e) (onScoreUpdate e)
                        (onGameOver e) (game e)
                        (filter (fun h' => negb (Nat.eqb h' h)) (frames e))
                        (nextHandle e) (notified e)) Hp)
    as (e2 & E2 & Hn2 & _ & _).
  assert (Eended : ended = requestAnimationFrame e2).
  { unfold ended, fireFrame. now rewrite (existsb_handle _ _ Hh). }
  cbn [nextHandle] in Hn2.
  assert (Hin : In (nextHandle e) (frames ended)).
  { rewrite Eended. cbn [requestAnimationFrame frames]. rewrite Hn2.
    apply in_or_app. right. now left. }
  (* the call of start *)
  fold ended in He, Ha. fold again in Ha.
  destruct (@gameLoop_playing now
              (withLastTime now
                 (withState (mkGameState (score (state ended)) true false false)
                            ended)) eq_refl)
    as (e4 & E4 & Hn4 & Hl4 & Hkeep).
  assert (Eagain : again = requestAnimationFrame e4).
  { unfold again, start. rewrite He. exact E4. }
  cbn [withLastTime withState nextHandle frames state isPaused gameOver] in Hn4, Hkeep.
  assert (Hp4 : isPlaying (state e4) = true) by (now rewrite Eagain in Ha).
  destruct (Hkeep Hp4) as (Hf4 & Hq4 & Hg4).
  assert (Hnext : nextHandle ended = S (nextHandle e)).
  { rewrite Eended. cbn [requestAnimationFrame nextHandle]. now rewrite Hn2. }
  assert (Hin2 : In (nextHandle e) (frames again)).
  { rewrite Eagain. cbn [requestAnimationFrame frames]. rewrite Hf4.
    apply in_or_app. now left. }
  repeat split; trivial.
  - rewrite Eagain. cbn [requestAnimationFrame frames]. rewrite Hn4, Hnext.
    apply in_or_app. right. now left.
  - assert (Hl : lastTime again = now) by (rewrite Eagain; exact Hl4).
    rewrite <- Hl.
    apply fireFrame_runs_update; trivial; rewrite Eagain; assumption.
Qed.

(** *** Properties that the subclass methods keep *)

Lemma runCalls_score (cs : list Call) (e : Engine G) :
  score (state (runCalls cs e)) = scoreAfter cs (score (state e)).
Proof.
  unfold scoreAfter. revert e.
  induction cs as [|[|n] cs IH]; intros e; simpl; trivial.
  - rewrite IH. now rewrite EngineFacts.stop_state.
  - rewrite IH. now rewrite EngineFacts.updateScore_state.
Qed.

Section Preserved.
Variable I : Z -> G -> Prop.
Hypothesis update_preserves : forall dt, preserves I (update dt).
Hypothesis reset_preserves : preserves I reset.

Lemma runHook_preserves h (e : Engine G) :
  preserves I h -> I (score (state e)) (game e) ->
  I (score (state (runHook h e))) (game (runHook h e)).
Proof.
  intros Hh He. unfold runHook. specialize (Hh (state e) (game e) He).
  destruct (h (state e) (game e)) as [g' cs]. simpl in Hh.
  rewrite runCalls_score.
  now destruct (runCalls_host cs (withGame g' e)) as (-> & _).
Qed.

Lemma gameLoop_preserves (t : Z) (e : Engine G) :
  I (score (state e)) (game e) ->
  I (score (state (gameLoop t e))) (game (gameLoop t e)).
Proof.
  intros He. unfold gameLoop.
  destruct (negb (isPlaying (state e))); [exact He|].
  cbn [requestAnimationFrame state game].
  match goal with |- context [if ?c then _ else _] => destruct c end.
  - apply runHook_preserves; [apply update_preserves | exact He].
  - exact He.
Qed.

Lemma stop_preserves (e : Engine G) :
  I (score (state e)) (game e) -> I (score (state (stop e))) (game (stop e)).
Proof.
  intros He. rewrite EngineFacts.stop_state.
  now destruct (stop_host e) as (-> & _).
Qed.

Lemma start_preserves (now : Z) (e : Engine G) :
  I (score (state e)) (game e) ->
  I (score (state (start now e))) (game (start now e)).
Proof.
  intros He. unfold start. destruct (isPlaying (state e)); [exact He|].
  now apply gameLoop_preserves.
Qed.

Lemma exec_preserves (ops : list Op) (e : Engine G) :
  Forall (fun op => match op with
                    | Listener handler => preserves I handler
                    | _ => True
                    end) ops ->
  I (score (state e)) (game e) ->
  I (score (state (exec ops e))) (game (exec ops e)).
Proof.
  unfold exec. intros Hops. revert e.
  induction Hops as [|op ops Hop _ IH]; intros e He; simpl; [exact He|].
  apply IH. destruct op; simpl.
  - now apply start_preserves.
  - exact He.
  - now apply stop_preserves.
  - apply start_preserves, runHook_preserves; [exact reset_preserves|].
    now apply stop_preserves.
  - exact He.
  - now apply stop_preserves.
  - unfold fireFrame. destruct (existsb _ _); [|exact He].
    now apply gameLoop_preserves.
  - now apply runHook_preserves.
Qed.

End Preserved.

(** *** What the score listener hears *)

Lemma lastScoreHeard_snoc (heard : list Notification) (n : Notification) :
  lastScoreHeard (heard ++ [n])
  = match n with
    | ScoreUpdate newScore => newScore
    | GameOver _ => lastScoreHeard heard
    end.
Proof. unfold lastScoreHeard. now rewrite fold_left_app. Qed.

Lemma stop_upToDate (e : Engine G) : upToDate e -> upToDate (stop e).
Proof.
  unfold upToDate. intros [Hl Hs].
  destruct (EngineFacts.cancelPendingFrame_listeners e) as (Hg & Hu & Hn & _).
  rewrite EngineFacts.stop_notified, EngineFacts.stop_state. cbn [score].
  split.
  - unfold stop. destruct (onGameOver _); simpl; now rewrite Hu.
  - destruct (onGameOver e); [|now rewrite app_nil_r].
    now rewrite lastScoreHeard_snoc.
Qed.

Lemma updateScore_upToDate (n : Z) (e : Engine G) :
  upToDate e -> upToDate (updateScore n e).
Proof.
  unfold upToDate, updateScore. intros [Hl Hs]. simpl. rewrite Hl. simpl.
  split; [exact Hl|]. apply lastScoreHeard_snoc.
Qed.

Lemma runHook_upToDate h (e : Engine G) : upToDate e -> upToDate (runHook h e).
Proof.
  intros He. unfold runHook. destruct (h (state e) (game e)) as [g' cs].
  assert (H : upToDate (withGame g' e)) by exact He.
  revert H. generalize (withGame g' e). clear He.
  induction cs as [|[|n] cs IH]; intros e0 H; simpl; auto.
  - apply IH. now apply stop_upToDate.
  - apply IH. now apply updateScore_upToDate.
Qed.

Lemma gameLoop_upToDate (t : Z) (e : Engine G) :
  upToDate e -> upToDate (gameLoop t e).
Proof.
  intros He. unfold gameLoop.
  destruct (negb (isPlaying (state e))); [exact He|].
  match goal with |- context [if ?c then _ else _] => destruct c end.
  - assert (H : upToDate (runHook (update (t - lastTime e)) (withLastTime t e)))
      by (now apply runHook_upToDate).
    exact H.
  - exact He.
Qed.

Lemma start_upToDate (now : Z) (e : Engine G) :
  upToDate e -> upToDate (start now e).
Proof.
  intros He. unfold start. destruct (isPlaying (state e)); [exact He|].
  now apply gameLoop_upToDate.
Qed.

(** X23.  Once a score listener is registered on a new engine, and as long
    as it is not taken away, the score it heard last is the score of the
    engine after every operation (and 0 while it has heard none): the score
    never changes without the listener being told. *)
Theorem score_listener_is_up_to_date
        (g : G) (gameOverListener : bool) (ops : list Op) :
  forallb keepsScoreListener ops = true ->
  let e := exec (SetCallbacks true gameOverListener :: ops) (create g) in
  lastScoreHeard (notified e) = score (state e).
Proof.
  intros Hops e.
  assert (H : upToDate e); [|exact (proj2 H)].
  unfold e, exec. cbn [fold_left step].
  assert (H0 : upToDate (setCallbacks true gameOverListener (create g)))
    by (split; reflexivity).
  revert H0. generalize (setCallbacks true gameOverListener (create g)).
  induction ops as [|op ops IH]; intros e0 H0; cbn [fold_left]; [exact H0|].
  cbn [forallb] in Hops. apply andb_prop in Hops. destruct Hops as [Hop Hops].
  apply (IH Hops). destruct op; cbn [step].
  - now apply start_upToDate.
  - exact H0.
  - now apply stop_upToDate.
  - apply start_upToDate, runHook_upToDate, stop_upToDate, H0.
  - destruct scoreListener; [|discriminate]. destruct H0 as [_ H0].
    split; [reflexivity|exact H0].
  - now apply stop_upToDate.
  - unfold fireFrame. destruct (existsb _ _); [|exact H0].
    apply gameLoop_upToDate. exact H0.
  - now apply runHook_upToDate.
Qed.

End Frames.

Lemma paused_time_is_not_played_witness :
  let hooks := DoodleStack.doodleHooks DoodleStack.halves DoodleStack.componentConfig in
  let e := @start _ hooks 0
             (DoodleStack.newEngine DoodleStack.halves DoodleStack.componentConfig) in
  let paused := @fireFrame _ hooks 1 16 (pause e) in
  let resumed := @fireFrame _ hooks 2 32 (pause paused) in
  In 1%nat (frames e)
  /\ game paused = game e
  /\ lastTime paused = 16
  /\ game resumed = fst (@update _ hooks (32 - 16) (state e) (game e)).
Proof.
  intros hooks e paused resumed.
  assert (Hh : In 1%nat (frames e)) by (vm_compute; auto).
  split; [exact Hh|].
  destruct (@paused_time_is_not_played _ hooks e 1 16 32)
    as (H1 & _ & _ & H4 & _ & H6);
    [reflexivity | reflexivity | reflexivity | exact Hh |].
  repeat split; assumption.
Defined.

Lemma idle_engine_runs_no_update_witness :
  let hooks := DoodleStack.doodleHooks DoodleStack.halves DoodleStack.componentConfig in
  let e := DoodleStack.newEngine DoodleStack.halves DoodleStack.componentConfig in
  let ops := [Frame 1 0; Pause; SetCallbacks true true; Frame 2 5; Pause] in
  game (@exec _ hooks ops e) = game e
  /\ notified (@exec _ hooks ops e) = notified e
  /\ nextHandle (@exec _ hooks ops e) = nextHandle e.
Proof.
  intros hooks e ops.
  destruct (@idle_engine_runs_no_update _ hooks ops e)
    as (H1 & H2 & _ & _ & _ & H6 & _);
    [reflexivity | reflexivity |].
  repeat split; assumption.
Defined.

Lemma start_before_stale_frame_doubles_the_loop_witness :
  let hooks := TapSnake.snakeHooks TapSnake.halves TapSnake.componentConfig in
  let e := @exec _ hooks TapSnake.doubleTap
             (TapSnake.newEngine TapSnake.halves TapSnake.componentConfig) in
  let ended := @fireFrame _ hooks 1 200 e in
  let again := @start _ hooks 210 ended in
  isPlaying (state ended) = false
  /\ isPlaying (state again) = true
  /\ In 2%nat (frames again)
  /\ In 3%nat (frames again)
  /\ game (@fireFrame _ hooks 2 220 again)
     = fst (@update _ hooks (220 - 210) (state again) (game again)).
Proof.
  intros hooks e ended again.
  assert (H1 : isPlaying (state e) = true) by (vm_compute; reflexivity).
  assert (H2 : In 1%nat (frames e)) by (vm_compute; auto).
  assert (H3 : isPlaying (state (@fireFrame _ hooks 1 200 e)) = false)
    by (vm_compute; reflexivity).
  assert (H4 : isPlaying (state (@start _ hooks 210 (@fireFrame _ hooks 1 200 e))) = true)
    by (vm_compute; reflexivity).
  assert (Hn : nextHandle e = 2%nat) by (vm_compute; reflexivity).
  pose proof (@start_before_stale_frame_doubles_the_loop _ hooks e 1 200 210 220
                H1 H2 H3 H4) as H.
  cbv zeta in H. rewrite Hn in H. destruct H as (_ & Hb & Hc & Hd).
  unfold again, ended.
  split; [exact H3|]. split; [exact H4|]. split; [exact Hb|].
  split; [exact Hc | exact Hd].
Defined.

Lemma score_listener_is_up_to_date_witness :
  let hooks := TapSnake.snakeHooks TapSnake.halves TapSnake.componentConfig in
  let e := @exec _ hooks
             (SetCallbacks true true :: TapSnake.doubleTap ++ [Frame 1 200; Restart 400])
             (TapSnake.newEngine TapSnake.halves TapSnake.componentConfig) in
  lastScoreHeard (notified e) = score (state e).
Proof.
  intros hooks e.
  apply (@score_listener_is_up_to_date _ hooks
           (TapSnake.initialFields TapSnake.halves TapSnake.componentConfig) true
           (TapSnake.doubleTap ++ [Frame 1 200; Restart 400])).
  reflexivity.
Defined.

End FrameFacts.

(* ===================================================================== *)
(** ** Doodle Stack: blocks, collapse and score *)
(* ===================================================================== *)

Module DoodleFacts.
Import Engine DoodleStack.
Local Open Scope Q_scope.

Section Blocks.
Variable random : nat -> Q.
Variable config : GameConfig.

Lemma nth_error_split_length (bs : list DoodleBlock) (i : nat) (b : DoodleBlock) :
  nth_error bs i = Some b ->
  List.length (firstn i bs) = i
  /\ (List.length (skipn (S i) bs) + S i = List.length bs)%nat.
Proof.
  intros H.
  assert (Hi : (i < List.length bs)%nat) by (apply nth_error_Some; congruence).
  rewrite length_firstn, length_skipn. lia.
Qed.

Lemma updateBlocks_length (n : nat) (bs : list DoodleBlock) :
  (List.length (updateBlocks config n bs) <= List.length bs)%nat.
Proof.
  revert bs. induction n as [|i IH]; intros bs; cbn [updateBlocks]; [lia|].
  destruct (nth_error bs i) as [block|] eqn:E; [|apply IH].
  destruct (nth_error_split_length _ _ E) as [Hb Ha].
  destruct (stepBlock _ _ _) as [block'|].
  - etransitivity; [apply IH|]. rewrite length_app. cbn [List.length]. lia.
  - etransitivity; [apply IH|]. rewrite length_app. lia.
Qed.

(** X4.  With three blocks or fewer on the board, [update] never ends the
    game, whatever the blocks do; and [update] never adds a block. *)
Theorem few_blocks_never_collapse (dt : Z) (s : GameState) (f : Fields) :
  (List.length (blocks f) <= 3)%nat ->
  ~ In CallStop (snd (doodleUpdate config dt s f))
  /\ (List.length (blocks (fst (doodleUpdate config dt s f)))
      <= List.length (blocks f))%nat.
Proof.
  intros H.
  pose proof (updateBlocks_length (List.length (blocks f)) (blocks f)) as Hl.
  unfold doodleUpdate.
  destruct (updateBlocks config (List.length (blocks f)) (blocks f))
    as [|b bs] eqn:E.
  - simpl. split; [tauto | lia].
  - replace (Nat.ltb 3 (List.length (b :: bs))) with false
      by (symmetry; apply Nat.ltb_ge; lia).
    cbn [andb snd fst blocks app]. split; [|exact Hl].
    intros [Hc|[]]. discriminate.
Qed.

(** *** Blocks kept on the board *)

Lemma stepBlock_onBoard (block block' : DoodleBlock) (others : list DoodleBlock) :
  stepBlock config block others = Some block' -> onBoard config block'.
Proof.
  unfold stepBlock. cbv zeta.
  match goal with |- context [Qltb ?a ?b] => destruct (Qltb a b) eqn:E end;
    [discriminate|].
  intros H. injection H as <-. unfold onBoard.
  unfold Qltb in E. apply negb_false_iff in E. now apply Qle_bool_iff in E.
Qed.

Lemma updateBlocks_onBoard (n : nat) (bs : list DoodleBlock) :
  Forall (onBoard config) (skipn n bs) -> Forall (onBoard config) (updateBlocks config n bs).
Proof.
  revert bs. induction n as [|i IH]; intros bs H; cbn [updateBlocks]; [exact H|].
  destruct (nth_error bs i) as [block|] eqn:E.
  - destruct (nth_error_split_length _ _ E) as [Hb _].
    destruct (stepBlock _ _ _) as [block'|] eqn:Es; apply IH;
      rewrite skipn_app, Hb, Nat.sub_diag, skipn_all2 by lia; simpl.
    + constructor; [eapply stepBlock_onBoard; eassumption | exact H].
    + exact H.
  - apply IH. apply nth_error_None in E. rewrite skipn_all2 by exact E.
    constructor.
Qed.

Lemma lowestPoint_le (b : DoodleBlock) (bs : list DoodleBlock) :
  lowestPoint b bs <= y b.
Proof.
  unfold lowestPoint. generalize (y b) as m.
  induction bs as [|c bs IH]; intros m; simpl; [apply Qle_refl|].
  eapply Qle_trans; [apply IH | apply Q.le_min_l].
Qed.

(** X5.  A block that [update] keeps is at most 100 below the lower edge of
    the board, and the score that [update] reports, the floor of a tenth of
    the height of the highest block, is therefore never below -10. (It is
    negative when every block left has sunk below the edge.) *)
Theorem reported_score_at_least_minus_ten (dt : Z) (s : GameState) (f : Fields) :
  Forall (onBoard config) (blocks (fst (doodleUpdate config dt s f)))
  /\ forall n : Z,
       In (CallUpdateScore n) (snd (doodleUpdate config dt s f)) -> (-10 <= n)%Z.
Proof.
  assert (Hb : Forall (onBoard config) (updateBlocks config (List.length (blocks f)) (blocks f))).
  { apply updateBlocks_onBoard. rewrite skipn_all. constructor. }
  unfold doodleUpdate.
  destruct (updateBlocks config (List.length (blocks f)) (blocks f))
    as [|b bs] eqn:E.
  - split; [exact Hb|]. intros n Hn. simpl in Hn.
    repeat match type of Hn with
           | context [if ?c then _ else _] => destruct c; simpl in Hn
           end;
      intuition discriminate.
  - split; [exact Hb|]. intros n Hn. cbn [snd] in Hn.
    apply in_app_or in Hn. destruct Hn as [Hn|[Hn|[]]].
    + match type of Hn with
      | context [if ?c then _ else _] => destruct c; simpl in Hn
      end; intuition discriminate.
    + replace n with (Qfloor ((Engine.height config - lowestPoint b bs) / 10))
        by congruence.
      pose proof (lowestPoint_le b bs) as Hl.
      apply Forall_inv in Hb. unfold onBoard in Hb.
      change (-10)%Z with (Qfloor (-10)).
      apply Qfloor_resp_le. apply Qle_shift_div_l; lra.
Qed.

(** *** The block that waits to be dropped *)

Lemma Qfloor_index (r : Q) (n : Z) :
  0 <= r -> r < 1 -> (0 < n)%Z ->
  (Z.to_nat (Qfloor (r * inject_Z n)) < Z.to_nat n)%nat.
Proof.
  intros H0 H1 Hn.
  assert (Hq : 0 < inject_Z n) by (change 0 with (inject_Z 0); now rewrite <- Zlt_Qlt).
  assert (Hlo : (0 <= Qfloor (r * inject_Z n))%Z).
  { change 0%Z with (Qfloor 0). apply Qfloor_resp_le. nra. }
  assert (Hhi : (Qfloor (r * inject_Z n) < n)%Z).
  { rewrite Zlt_Qlt. eapply Qle_lt_trans; [apply Qfloor_le|]. nra. }
  lia.
Qed.

(** X6.  When [Math.random()] stays in [0, 1), the block that
    [spawnNewBlock] puts in waiting is a square of side between 30 and
    70, at height 50, at rest, and its colour is one of the six of the
    palette; on a board at least 70 wide it lies within the board
    horizontally; the blocks already dropped are untouched.  (The side is
    below 70 in exact arithmetic; with the rounding of floating point,
    which keeps the order of numbers, it can be 70 itself, so that only
    the bounds that rounding keeps are stated.) *)
Theorem spawned_block_is_well_formed (f : Fields) :
  (forall n, 0 <= random n /\ random n < 1) ->
  exists b,
    currentBlock (spawnNewBlock random config f) = Some b
    /\ 30 <= width b /\ width b <= 70 /\ height b = width b
    /\ (70 <= Engine.width config ->
        0 <= x b /\ x b + width b <= Engine.width config)
    /\ y b = 50
    /\ velocityX b = 0 /\ velocityY b = 0
    /\ In (color b) colors
    /\ blocks (spawnNewBlock random config f) = blocks f.
Proof.
  intros Hr. unfold spawnNewBlock. eexists. split; [reflexivity|].
  cbn [width height x y velocityX velocityY color blocks].
  destruct (Hr (draws f)) as [H0 H1].
  assert (Hhalf : forall a : Q, a / 2 == a * (1 # 2)) by (intros a; field).
  repeat split; try lra.
  - rewrite !Hhalf. lra.
  - rewrite !Hhalf. lra.
  - apply nth_In.
    destruct (Hr (S (S (draws f)))) as [H2 H3].
    apply (@Qfloor_index (random (S (S (draws f)))) 6 H2 H3). lia.
Qed.

End Blocks.

Lemma few_blocks_never_collapse_witness :
  (List.length (blocks droppedOnce) <= 3)%nat
  /\ ~ In CallStop
          (snd (doodleUpdate componentConfig 16 (mkGameState 0 true false false)
                             droppedOnce)).
Proof.
  assert (H : (List.length (blocks droppedOnce) <= 3)%nat) by (simpl; lia).
  split; [exact H|].
  apply (@few_blocks_never_collapse componentConfig 16
           (mkGameState 0 true false false) droppedOnce H).
Defined.

Lemma reported_score_at_least_minus_ten_witness :
  In (CallUpdateScore (-3))
     (snd (doodleUpdate componentConfig 16 (mkGameState 0 true false false) sunkBoard))
  /\ (-10 <= -3)%Z.
Proof.
  assert (H : In (CallUpdateScore (-3))
                 (snd (doodleUpdate componentConfig 16
                         (mkGameState 0 true false false) sunkBoard)))
    by (vm_compute; auto).
  split; [exact H|].
  apply (proj2 (@reported_score_at_least_minus_ten componentConfig 16
                  (mkGameState 0 true false false) sunkBoard) (-3)%Z H).
Defined.

Lemma spawned_block_is_well_formed_witness :
  exists b,
    currentBlock (spawnNewBlock halves componentConfig droppedOnce) = Some b
    /\ 30 <= width b /\ width b <= 70
    /\ In (color b) colors.
Proof.
  destruct (@spawned_block_is_well_formed halves componentConfig droppedOnce)
    as (b & Hb & Hlo & Hhi & _ & _ & _ & _ & _ & Hc & _).
  - intros n. unfold halves. split; [unfold Qle | unfold Qlt]; simpl; lia.
  - exists b. repeat split; assumption.
Defined.

End DoodleFacts.

(* ===================================================================== *)
(** ** Tap Snake *)
(* ===================================================================== *)

Module SnakeFacts.
Import Engine TapSnake.

Section Snake.
Variable random : nat -> Q.
Variable config : GameConfig.

Let hooks : GameHooks Fields := snakeHooks random config.

(** *** The food *)

Lemma tryFood_candidate (retries : nat) (segments : list Position) (d : nat) :
  exists k, (k <= retries)%nat
    /\ fst (tryFood random config retries segments d)
       = candidate random config (d + 2 * k)
    /\ snd (tryFood random config retries segments d) = (d + 2 * S k)%nat
    /\ (isPositionOnSnake (fst (tryFood random config retries segments d)) segments
        = true ->
        k = retries
        /\ forall j, (j <= retries)%nat ->
             isPositionOnSnake (candidate random config (d + 2 * j)) segments = true).
Proof.
  revert d. induction retries as [|r IH]; intros d; cbn [tryFood].
  - exists 0%nat. rewrite Nat.add_0_r. cbn [fst snd].
    split; [lia|]. split; [reflexivity|]. split; [lia|].
    intros H. split; [reflexivity|]. intros j Hj.
    replace j with 0%nat by lia. now rewrite Nat.add_0_r.
  - destruct (isPositionOnSnake (candidate random config d) segments) eqn:E.
    + destruct (IH (S (S d))) as (k & Hk & Hf & Hs & Hon).
      exists (S k). rewrite Hf, Hs. split; [lia|].
      split; [f_equal; lia|]. split; [lia|].
      intros H. rewrite <- Hf in H. destruct (Hon H) as [-> Hall].
      split; [reflexivity|]. intros [|j] Hj.
      * now rewrite Nat.add_0_r.
      * replace (d + 2 * S j)%nat with (S (S d) + 2 * j)%nat by lia.
        apply Hall. lia.
    + exists 0%nat. cbn [fst snd]. rewrite Nat.add_0_r.
      split; [lia|]. split; [reflexivity|]. split; [lia|].
      intros H. congruence.
Qed.

Lemma candidate_insideBoard (d : nat) :
  (forall n, 0 <= random n /\ random n < 1)%Q ->
  (0 < Engine.width config)%Q -> (0 < Engine.height config)%Q ->
  insideBoard config (candidate random config d).
Proof.
  intros Hr Hw Hh.
  assert (cell : forall (r size : Q),
             (0 <= r)%Q -> (r < 1)%Q -> (0 < size)%Q ->
             0 <= Qfloor (r * (size / inject_Z gridSize)) * gridSize
             /\ (inject_Z (Qfloor (r * (size / inject_Z gridSize)) * gridSize)
                 < size)%Q).
  { intros r size H0 H1 Hs.
    change (inject_Z gridSize) with 20%Q. unfold gridSize, Qdiv.
    change (/ 20)%Q with (1 # 20)%Q.
    set (q := (r * (size * (1 # 20)))%Q).
    assert (Hq0 : (0 <= q)%Q) by (apply Qmult_le_0_compat; lra).
    assert (Hq1 : (q < size * (1 # 20))%Q).
    { apply Qlt_le_trans with (1 * (size * (1 # 20)))%Q; [|lra].
      apply Qmult_lt_compat_r; lra. }
    assert (Hf0 : 0 <= Qfloor q)
      by (change 0 with (Qfloor 0); now apply Qfloor_resp_le).
    pose proof (Qfloor_le q) as Hfl.
    split; [lia|].
    rewrite inject_Z_mult. change (inject_Z 20) with 20%Q. lra. }
  destruct (Hr d) as [Hd0 Hd1]. destruct (Hr (S d)) as [He0 He1].
  destruct (cell _ _ Hd0 Hd1 Hw) as [Hx0 Hx1].
  destruct (cell _ _ He0 He1 Hh) as [Hy0 Hy1].
  unfold insideBoard, candidate. cbn [x y].
  repeat split; trivial; apply Z.divide_factor_r.
Qed.

(** X7.  When [Math.random()] stays in [0, 1) and the board has a positive
    width and height, the food that [generateFood] places is a cell of the
    grid inside the board, and the snake is left as it was. The food is on
    the snake only if all of the hundred positions drawn were. *)
Theorem food_is_placed_on_the_board (f : Fields) :
  (forall n, 0 <= random n /\ random n < 1)%Q ->
  (0 < Engine.width config)%Q -> (0 < Engine.height config)%Q ->
  insideBoard config (food (generateFood random config f))
  /\ snake (generateFood random config f) = snake f
  /\ (isPositionOnSnake (food (generateFood random config f)) (snake f) = true ->
      forall j, (j < 100)%nat ->
        isPositionOnSnake (candidate random config (draws f + 2 * j)) (snake f)
        = true).
Proof.
  intros Hr Hw Hh. unfold generateFood.
  destruct (tryFood_candidate 99 (snake f) (draws f)) as (k & _ & Hf & _ & Hon).
  destruct (tryFood random config 99 (snake f) (draws f)) as [newFood d].
  cbn [fst snd] in Hf, Hon. cbn [food snake]. subst newFood.
  split; [now apply candidate_insideBoard|]. split; [reflexivity|].
  intros H j Hj. apply (proj2 (Hon H)). lia.
Qed.

(** *** What a session keeps true *)

Lemma generateFood_fields (f : Fields) :
  snake (generateFood random config f) = snake f
  /\ direction (generateFood random config f) = direction f
  /\ lastMoveTime (generateFood random config f) = lastMoveTime f
  /\ moveInterval (generateFood random config f) = moveInterval f
  /\ foodEaten (generateFood random config f) = foodEaten f.
Proof. unfold generateFood. now destruct (tryFood _ _ _ _ _). Qed.

Lemma length_removelast_cons (p : Position) (l : list Position) :
  List.length (removelast (p :: l)) = List.length l.
Proof.
  revert p. induction l as [|q l IH]; intros p; [reflexivity|].
  change (removelast (p :: q :: l)) with (p :: removelast (q :: l)).
  cbn [List.length]. now rewrite IH.
Qed.

Lemma moveSnake_consistent (sc : Z) (f : Fields) :
  consistent sc f ->
  let f1 := fst (moveSnake random config f) in
  sc = foodEaten f * 10
  /\ scoreAfter (snd (moveSnake random config f)) sc = foodEaten f1 * 10
  /\ 0 <= foodEaten f1
  /\ direction f1 = direction f
  /\ 3 + foodEaten f1 <= Z.of_nat (List.length (snake f1)).
Proof.
  intros (Hs & H0 & Hm & Hd & Hl). unfold moveSnake.
  destruct (snake f) as [|first rest] eqn:E.
  - cbn [fst snd scoreAfter fold_left]. rewrite E. repeat split; trivial.
  - destruct (checkCollision _ _ _); [|destruct (_ && _)].
    + cbn [fst snd scoreAfter fold_left withSnake foodEaten direction snake].
      repeat split; trivial. cbn [List.length] in *. lia.
    + cbn [fst snd scoreAfter fold_left].
      match goal with |- context [generateFood _ _ ?g] =>
        destruct (generateFood_fields g) as (-> & -> & _ & _ & ->) end.
      cbn [foodEaten direction snake]. repeat split; trivial; try lia.
      cbn [List.length] in *. lia.
    + cbn [fst snd scoreAfter fold_left withSnake foodEaten direction snake].
      rewrite length_removelast_cons. repeat split; trivial.
Qed.

Lemma snakeUpdate_preserves (dt : Z) :
  preserves consistent (snakeUpdate random config dt).
Proof.
  intros s f H. unfold snakeUpdate.
  destruct (moveInterval f <=? lastMoveTime f + dt).
  - assert (H' : consistent (score s) (withLastMoveTime (lastMoveTime f + dt) f))
      by exact H.
    destruct (moveSnake_consistent H') as (_ & Hsc & H0 & Hd & Hl).
    destruct H as (_ & _ & _ & Hdir & _).
    destruct (moveSnake random config (withLastMoveTime (lastMoveTime f + dt) f))
      as [f1 calls].
    cbn [fst snd] in *. cbn [withLastMoveTime direction] in Hd.
    unfold consistent. cbn [foodEaten moveInterval direction snake].
    rewrite Hd. repeat split; trivial.
  - exact H.
Qed.

Lemma snakeReset_preserves : preserves consistent (snakeReset random config).
Proof.
  intros s f _. unfold snakeReset, initializeGame.
  match goal with |- context [generateFood _ _ ?g] =>
    destruct (generateFood_fields g) as (Hs & Hd & _) end.
  unfold consistent.
  cbn [fst snd scoreAfter fold_left foodEaten moveInterval direction snake].
  rewrite Hs, Hd. cbn [snake direction List.length].
  repeat split; try lia. now left.
Qed.

Lemma handleTap_preserves : preserves consistent handleTap.
Proof.
  intros s f H. unfold handleTap. destruct (isPlaying s); [|exact H].
  destruct H as (Hs & H0 & Hm & Hd & Hl).
  unfold consistent.
  cbn [fst snd scoreAfter fold_left changeDirection foodEaten moveInterval
       direction snake].
  repeat split; trivial.
  destruct Hd as [<-|[<-|[<-|[<-|[]]]]]; simpl; auto.
Qed.

(** X8.  Whatever the player and the host do in a session of Tap Snake
    (starting, pausing, stopping, restarting, frames, taps), from the
    construction of the engine on: the score is ten times the food eaten,
    the interval between two moves is 200 ms less 5 ms for each food eaten,
    but not less than 100 ms, the direction is one of the four along an
    axis, and the snake has at least three segments and one more for each
    food eaten. *)
Theorem session_keeps_snake_consistent (ops : list Op) :
  Forall sessionOp ops ->
  let e := @exec _ hooks ops (newEngine random config) in
  score (state e) = foodEaten (game e) * 10
  /\ 0 <= foodEaten (game e)
  /\ moveInterval (game e) = Z.max 100 (200 - foodEaten (game e) * 5)
  /\ In (direction (game e))
        [mkPosition 1 0; mkPosition 0 1; mkPosition (-1) 0; mkPosition 0 (-1)]
  /\ 3 + foodEaten (game e) <= Z.of_nat (List.length (snake (game e))).
Proof.
  intros Hops.
  apply (@FrameFacts.exec_preserves _ hooks consistent).
  - exact snakeUpdate_preserves.
  - exact snakeReset_preserves.
  - eapply Forall_impl; [|exact Hops].
    intros [| | | | | | |handler] Hop; trivial.
    simpl in Hop. subst handler. exact handleTap_preserves.
  - unfold newEngine, create, initialFields, initializeGame.
    cbn [state game score].
    match goal with |- context [generateFood _ _ ?g] =>
      destruct (generateFood_fields g) as (Hs & Hd & _ & Hm & He) end.
    unfold consistent. rewrite Hs, Hd, Hm, He.
    cbn [snake direction moveInterval foodEaten List.length].
    repeat split; try lia. now left.
Qed.

(** *** Turning back on oneself *)

(** X9.  [changeDirection] has no guard against a half turn. When the
    segment behind the head lies one cell against the direction of travel,
    as it does after every move, two taps reverse the direction and the next
    move ends the game: the new head lands on that segment (or outside the
    board). *)
Theorem double_tap_before_a_move_ends_the_game
        (dt : Z) (s : GameState) (f : Fields)
        (head neck : Position) (rest : list Position) :
  isPlaying s = true ->
  snake f = head :: neck :: rest ->
  x neck = x head - x (direction f) * gridSize ->
  y neck = y head - y (direction f) * gridSize ->
  moveInterval f <= lastMoveTime f + dt ->
  let turned := fst (handleTap s (fst (handleTap s f))) in
  direction turned = mkPosition (- x (direction f)) (- y (direction f))
  /\ snd (snakeUpdate random config dt s turned) = [CallStop].
Proof.
  intros Hp Hs Hx Hy Ht. unfold handleTap. rewrite Hp. cbn [fst].
  cbv zeta. split; [reflexivity|].
  unfold snakeUpdate.
  cbn [changeDirection moveInterval lastMoveTime].
  apply Z.leb_le in Ht. rewrite Ht.
  unfold moveSnake.
  cbn [withLastMoveTime changeDirection snake direction x y].
  rewrite Hs.
  assert (Hc : checkCollision config
                 (mkPosition (x head + - x (direction f) * gridSize)
                             (y head + - y (direction f) * gridSize))
                 (head :: neck :: rest) = true).
  { unfold checkCollision. cbn [existsb x y].
    replace (x head + - x (direction f) * gridSize =? x neck) with true
      by (symmetry; apply Z.eqb_eq; lia).
    replace (y head + - y (direction f) * gridSize =? y neck) with true
      by (symmetry; apply Z.eqb_eq; lia).
    cbn [andb]. now rewrite !orb_true_r. }
  rewrite Hc. reflexivity.
Qed.

End Snake.

Lemma food_is_placed_on_the_board_witness :
  insideBoard componentConfig
    (food (generateFood halves componentConfig
             (initialFields halves componentConfig))).
Proof.
  apply (@food_is_placed_on_the_board halves componentConfig
           (initialFields halves componentConfig)).
  - intros n. unfold halves. split; [unfold Qle | unfold Qlt]; simpl; lia.
  - reflexivity.
  - reflexivity.
Defined.

Lemma session_keeps_snake_consistent_witness :
  let hooks := snakeHooks halves componentConfig in
  let e := @exec _ hooks (doubleTap ++ [Frame 1 200; Restart 400])
             (newEngine halves componentConfig) in
  score (state e) = foodEaten (game e) * 10
  /\ moveInterval (game e) = Z.max 100 (200 - foodEaten (game e) * 5).
Proof.
  intros hooks e.
  destruct (@session_keeps_snake_consistent halves componentConfig
              (doubleTap ++ [Frame 1 200; Restart 400]))
    as (H1 & _ & H3 & _).
  - unfold doubleTap. simpl. repeat constructor.
  - split; assumption.
Defined.

Lemma double_tap_before_a_move_ends_the_game_witness :
  let f := initialFields halves componentConfig in
  let s := mkGameState 0 true false false in
  snd (snakeUpdate halves componentConfig 200 s
         (fst (handleTap s (fst (handleTap s f)))))
  = [CallStop].
Proof.
  intros f s.
  apply (@double_tap_before_a_move_ends_the_game halves componentConfig 200 s f
           (mkPosition 200 240) (mkPosition 180 240) [mkPosition 160 240]).
  - reflexivity.
  - vm_compute. reflexivity.
  - vm_compute. reflexivity.
  - vm_compute. reflexivity.
  - vm_compute. discriminate.
Defined.

End SnakeFacts.

(* ===================================================================== *)
(** ** More on the store and the routes *)
(* ===================================================================== *)

Module StoreFacts.
Import MemStorage Routes.

(** *** The map behind each collection *)

Lemma get_set_same {V} (k : string) (v : V) (m : Map V) :
  get k (set k v m) = Some v.
Proof.
  induction m as [|[k' v'] m IH]; simpl.
  - now rewrite String.eqb_refl.
  - destruct (String.eqb k' k) eqn:E; simpl.
    + now rewrite String.eqb_refl.
    + now rewrite E.
Qed.

Lemma get_set_other {V} (k k' : string) (v : V) (m : Map V) :
  k' <> k -> get k' (set k v m) = get k' m.
Proof.
  intros Hk. apply String.eqb_neq in Hk.
  induction m as [|[k0 v0] m IH]; simpl.
  - now rewrite String.eqb_sym, Hk.
  - destruct (String.eqb k0 k) eqn:E; simpl.
    + apply String.eqb_eq in E. subst k0.
      now rewrite (String.eqb_sym k k'), Hk.
    + now rewrite IH.
Qed.

Lemma values_set_fresh {V} (k : string) (v : V) (m : Map V) :
  get k m = None -> values (set k v m) = values m ++ [v].
Proof.
  unfold values. induction m as [|[k' v'] m IH]; simpl; intros H; trivial.
  destruct (String.eqb k' k); [discriminate|]. simpl. now rewrite IH.
Qed.

(** X10.  A game or a user that has been created is the one [getGame] or
    [getUser] returns for its identifier, which is the UUID drawn for it; a
    game carries the time of its creation. The records stored under other
    identifiers, and the other collections, are as before. *)
Theorem created_record_is_found_by_id
        (s : MemStorage.t) (env : Env) (g : InsertGame.t) (u : InsertUser.t) :
  let game := fst (createGame env g s) in
  let withGame := snd (createGame env g s) in
  let user := fst (createUser env u s) in
  let withUser := snd (createUser env u s) in
  getGame (uuid env) withGame = Some game
  /\ Game.id game = uuid env
  /\ Game.slug game = InsertGame.slug g
  /\ Game.createdAt game = Some (clock env)
  /\ getUser (uuid env) withUser = Some user
  /\ User.id user = uuid env
  /\ User.username user = InsertUser.username u
  /\ (forall id, id <> uuid env ->
        getGame id withGame = getGame id s /\ getUser id withUser = getUser id s)
  /\ users withGame = users s /\ scores withGame = scores s
  /\ challenges withGame = challenges s
  /\ games withUser = games s /\ scores withUser = scores s
  /\ challenges withUser = challenges s.
Proof.
  cbv zeta. unfold getGame, getUser, createGame, createUser.
  cbn [fst snd games users scores challenges].
  rewrite !get_set_same. repeat split.
  - now apply get_set_other.
  - now apply get_set_other.
Qed.

(** *** Games that are not active *)

Lemma isOne_false (n : option Z) : n <> Some 1 -> isOne n = false.
Proof. destruct n as [[|[p|p|]|p]|]; simpl; congruence. Qed.

(** X11.  A game created with an [isActive] other than 1, or with none
    (the store does not apply the column's default), is not listed by
    [GET /api/games], yet [GET /api/games/:slug] serves it. *)
Theorem inactive_game_is_served_but_not_listed
        (s : MemStorage.t) (env : Env) (g : InsertGame.t) :
  InsertGame.isActive g <> Some 1 ->
  get (uuid env) (games s) = None ->
  getGameBySlug (InsertGame.slug g) s = None ->
  GET_api_games (snd (createGame env g s)) = GET_api_games s
  /\ GET_api_games_slug (InsertGame.slug g) (snd (createGame env g s))
     = mkResponse 200 (GameBody (fst (createGame env g s))).
Proof.
  intros Ha Hid Hslug. split.
  - unfold GET_api_games. simpl. unfold getGames. simpl.
    rewrite values_set_fresh by exact Hid. rewrite filter_app. simpl.
    rewrite (isOne_false Ha). now rewrite app_nil_r.
  - unfold GET_api_games_slug. simpl. unfold getGameBySlug in *. simpl.
    rewrite ServerFacts.find_set_new; trivial.
    simpl. apply String.eqb_refl.
Qed.

(** *** Limits written in decimal *)

Lemma parseDigits_digit (radix : Z) (c : ascii) (s : string) (acc : option Z) (d : Z) :
  digitValue c = Some d -> (d <? radix) = true ->
  parseDigits radix (String c s) acc
  = parseDigits radix s
      (Some (radix * match acc with Some a => a | None => 0 end + d)).
Proof. intros H1 H2. cbn [parseDigits]. now rewrite H1, H2. Qed.

Lemma parseDigits_decimal (d : Decimal.uint) (a : Z) :
  0 <= a ->
  parseDigits 10 (DecimalString.NilEmpty.string_of_uint d) (Some a)
  = Some (Z.of_nat (Nat.of_uint_acc d (Z.to_nat a))).
Proof.
  revert a.
  induction d; intros a Ha;
    cbn [DecimalString.NilEmpty.string_of_uint Nat.of_uint_acc];
    [cbn [parseDigits]; now rewrite Z2Nat.id|..];
    erewrite parseDigits_digit by (vm_compute; reflexivity);
    rewrite IHd by lia; rewrite Nat.tail_mul_spec; do 3 f_equal; lia.
Qed.

Lemma parseInt_digits (d : Decimal.uint) :
  d <> Decimal.Nil ->
  parseInt (DecimalString.NilEmpty.string_of_uint d)
  = Some (Z.of_nat (Nat.of_uint d)).
Proof.
  intros Hd.
  assert (E : parseInt (DecimalString.NilEmpty.string_of_uint d)
              = option_map (Z.mul 1)
                  (parseDigits 10 (DecimalString.NilEmpty.string_of_uint d) None)).
  { destruct d as [|d|d|d|d|d|d|d|d|d|d]; [congruence|..].
    all: destruct d as [|d|d|d|d|d|d|d|d|d|d]; reflexivity. }
  rewrite E. clear E. unfold Nat.of_uint.
  destruct d as [|d|d|d|d|d|d|d|d|d|d]; [congruence|..];
    cbn [DecimalString.NilEmpty.string_of_uint Nat.of_uint_acc];
    erewrite parseDigits_digit by (vm_compute; reflexivity);
    rewrite parseDigits_decimal by lia; cbn [option_map];
    rewrite Z.mul_1_l; do 3 f_equal.
Qed.

Lemma parseInt_decimal (n : nat) : parseInt (decimal n) = Some (Z.of_nat n).
Proof.
  unfold decimal. rewrite parseInt_digits.
  - now rewrite DecimalNat.Unsigned.of_to.
  - rewrite <- (DecimalNat.Unsigned.of_to n) at 1.
    rewrite DecimalNat.Unsigned.to_of. apply DecimalFacts.unorm_nonnil.
Qed.

(** X12.  For every limit k >= 1 written in decimal, [GET /api/scores] and
    [GET /api/leaderboard/:gameId] answer with the first k records of the
    ranking of the matching records, which are all of them when there are
    fewer than k. *)
Theorem decimal_limit_is_honoured
        (gameId : option string) (g : string) (k : nat) (s : MemStorage.t) :
  (1 <= k)%nat ->
  sentScores (GET_api_scores gameId (Some (decimal k)) s)
  = firstn k (ranked gameId s)
  /\ sentScores (GET_api_leaderboard g (Some (decimal k)) s)
     = firstn k (ranked (Some g) s)
  /\ List.length (sentScores (GET_api_scores gameId (Some (decimal k)) s))
     = Nat.min k (List.length (matching gameId s)).
Proof.
  intros Hk.
  assert (Hlimit : orDefault (parseIntQuery (Some (decimal k))) 10 = Z.of_nat k).
  { unfold parseIntQuery. rewrite parseInt_decimal.
    destruct k; [lia|reflexivity]. }
  assert (E1 : sentScores (GET_api_scores gameId (Some (decimal k)) s)
               = firstn k (ranked gameId s)).
  { unfold GET_api_scores. rewrite Hlimit. simpl.
    rewrite ServerFacts.getScores_ranked, slice0_nonneg by lia.
    now rewrite Nat2Z.id. }
  split; [exact E1|]. split.
  - unfold GET_api_leaderboard. rewrite Hlimit. simpl.
    unfold getTopScores.
    rewrite ServerFacts.getScores_ranked, slice0_nonneg by lia.
    now rewrite Nat2Z.id.
  - rewrite E1. apply ServerFacts.firstn_ranked_length.
Qed.

(** *** Records with the same score *)

Section Ties.
Context {A : Type} (score : A -> Z).

Lemma insert_keeps_ties (v : Z) (x : A) (l : list A) :
  filter (fun r => score r =? v) (insert (byScoreDesc score) x l)
  = filter (fun r => score r =? v) (x :: l).
Proof.
  induction l as [|y l IH]; [reflexivity|].
  cbn [insert]. unfold byScoreDesc at 1.
  destruct (0 <? score y - score x) eqn:E; [|reflexivity].
  apply Z.ltb_lt in E.
  cbn [filter] in *. rewrite IH.
  destruct (score x =? v) eqn:Ex; [|reflexivity].
  apply Z.eqb_eq in Ex.
  replace (score y =? v) with false by (symmetry; apply Z.eqb_neq; lia).
  reflexivity.
Qed.

Lemma sort_keeps_ties (v : Z) (l : list A) :
  filter (fun r => score r =? v) (sort (byScoreDesc score) l)
  = filter (fun r => score r =? v) l.
Proof.
  induction l as [|x l IH]; [reflexivity|].
  change (sort (byScoreDesc score) (x :: l))
    with (insert (byScoreDesc score) x (sort (byScoreDesc score) l)).
  rewrite insert_keeps_ties. cbn [filter]. now rewrite IH.
Qed.

Lemma slice0_prefix (l : list A) (limit : Z) :
  exists rest, l = slice0 l limit ++ rest.
Proof.
  unfold slice0. eexists. symmetry. apply firstn_skipn.
Qed.

End Ties.

(** X13.  Among the records that [GET /api/scores] sends, those with the
    same score come in the order in which they were stored, and they are the
    ones stored first: the records with a given score that the response
    carries are a prefix of the matching records with that score, in
    insertion order. *)
Theorem equal_scores_keep_insertion_order
        (gameId q : option string) (s : MemStorage.t) (v : Z) :
  exists later,
    filter (fun r => Score.score r =? v) (matching gameId s)
    = filter (fun r => Score.score r =? v)
             (sentScores (GET_api_scores gameId q s))
      ++ later.
Proof.
  change (sentScores (GET_api_scores gameId q s))
    with (slice0 (ranked gameId s) (orDefault (parseIntQuery q) 10)).
  destruct (slice0_prefix (ranked gameId s)
              (orDefault (parseIntQuery q) 10)) as [rest Hrest].
  exists (filter (fun r => Score.score r =? v) rest).
  rewrite <- filter_app, <- Hrest. unfold ranked.
  symmetry. apply sort_keeps_ties.
Qed.

(** *** A new score and the other games *)

Lemma scoresOf_created (g : string) (env : Env) (data : InsertScore.t)
      (s : MemStorage.t) :
  get (uuid env) (scores s) = None ->
  scoresOf g (snd (createScore env data s))
  = scoresOf g s
    ++ (if String.eqb (InsertScore.gameId data) g
        then [fullScore (uuid env) (clock env) data] else []).
Proof.
  intros Hid. unfold scoresOf, createScore. cbn [snd scores].
  rewrite values_set_fresh by exact Hid. now rewrite filter_app.
Qed.

(** X14.  A score posted for one game, under an identifier not yet in
    use, is added after the records of that game and leaves the answers
    of [GET /api/leaderboard/:gameId] and [GET /api/scores?gameId=] for
    every other game, and the list of games, as they were. *)
Theorem posted_score_leaves_other_games
        (schema : value -> Completion InsertScore.t)
        (s : MemStorage.t) (env : Env) (body : value) (data : InsertScore.t)
        (g : string) (q : option string) :
  schema body = Normal data ->
  get (uuid env) (scores s) = None ->
  g <> "" ->
  g <> InsertScore.gameId data ->
  let s' := snd (POST_api_scores schema env body s) in
  scoresOf (InsertScore.gameId data) s'
  = scoresOf (InsertScore.gameId data) s ++ [fullScore (uuid env) (clock env) data]
  /\ GET_api_leaderboard g q s' = GET_api_leaderboard g q s
  /\ GET_api_scores (Some g) q s' = GET_api_scores (Some g) q s
  /\ GET_api_games s' = GET_api_games s.
Proof.
  intros Hbody Hid Hg Hother s'.
  assert (Es : s' = snd (createScore env data s)).
  { unfold s', POST_api_scores. now rewrite Hbody. }
  assert (Hsame : scoresOf g s' = scoresOf g s).
  { rewrite Es, scoresOf_created by exact Hid.
    replace (String.eqb (InsertScore.gameId data) g) with false
      by (symmetry; apply String.eqb_neq; congruence).
    apply app_nil_r. }
  assert (Hranked : ranked (Some g) s' = ranked (Some g) s).
  { unfold ranked. now rewrite !ServerFacts.matching_scoresOf, Hsame. }
  split; [|split; [|split]].
  - rewrite Es, scoresOf_created by exact Hid. now rewrite String.eqb_refl.
  - unfold GET_api_leaderboard. simpl. unfold getTopScores.
    now rewrite !ServerFacts.getScores_ranked, Hranked.
  - unfold GET_api_scores. simpl.
    now rewrite !ServerFacts.getScores_ranked, Hranked.
  - now rewrite Es.
Qed.

(** *** Challenges *)

(** X15.  The challenge that [GET /api/challenges/:gameId] serves for a game
    is always one of those that [GET /api/challenges] lists, and it belongs
    to that game. *)
Theorem served_challenge_is_listed
        (env : Env) (gameId : string) (s : MemStorage.t) (c : Challenge.t) :
  GET_api_challenges_gameId env gameId s = mkResponse 200 (ChallengeBody c) ->
  exists listed,
    GET_api_challenges s = mkResponse 200 (ChallengesBody listed)
    /\ In c listed
    /\ Challenge.gameId c = gameId.
Proof.
  unfold GET_api_challenges_gameId, GET_api_challenges. simpl.
  destruct (getActiveChallenge env gameId s) as [c'|] eqn:E; [|discriminate].
  intros [= ->]. eexists. split; [reflexivity|].
  unfold getActiveChallenge in E. apply find_some in E. destruct E as [Hin Hact].
  unfold activeFor in Hact.
  apply andb_prop in Hact. destruct Hact as [Hact _].
  apply andb_prop in Hact. destruct Hact as [Hact _].
  apply andb_prop in Hact. destruct Hact as [Hg Hone].
  split.
  - unfold getChallenges. apply filter_In. now split.
  - now apply String.eqb_eq.
Qed.

(** *** The store at construction *)

Lemma NoDup_eqb (a b : string) (l : list string) :
  NoDup (a :: l) -> In b l -> String.eqb a b = false /\ String.eqb b a = false.
Proof.
  intros H Hb. inversion H as [|? ? Hn _]; subst.
  split; apply String.eqb_neq; intros ->; contradiction.
Qed.

Ltac distinct_ids :=
  repeat match goal with
         | H : forall b : string, In b _ -> String.eqb ?a b = false /\ _
           |- context [String.eqb ?a ?c] =>
             rewrite (proj1 (H c ltac:(simpl; tauto)))
         | H : forall b : string, In b _ -> _ /\ String.eqb b ?a = false
           |- context [String.eqb ?c ?a] =>
             rewrite (proj2 (H c ltac:(simpl; tauto)))
         end.

(** X16.  The store as the constructor leaves it, when the nine UUIDs drawn
    are distinct: [GET /api/games] lists the six default games in the order
    of the source, each under its UUID; the three default challenges belong
    to the first three games, so each refers to a game that exists; and at
    the time of construction the only challenge that
    [GET /api/challenges/:gameId] serves is the one of the first game, the
    other two beginning a day and two days later. *)
Theorem new_store_is_consistent (uuids : list string) (today : Z) :
  (9 <= List.length uuids)%nat ->
  NoDup (firstn 9 uuids) ->
  let s := create uuids today in
  map Game.slug (getGames s) = map InsertGame.slug defaultGames
  /\ map Game.id (getGames s) = firstn 6 uuids
  /\ map Challenge.gameId (getChallenges s) = firstn 3 uuids
  /\ map Challenge.id (getChallenges s) = firstn 3 (skipn 6 uuids)
  /\ forall env gameId,
       clock env = today ->
       option_map Challenge.title (getActiveChallenge env gameId s)
       = if String.eqb gameId (nth 0 uuids "")
         then Some "Bottle Flip Master" else None.
Proof.
  intros Hlen Hnd.
  destruct uuids as [|u1 [|u2 [|u3 [|u4 [|u5 [|u6 [|u7 [|u8 [|u9 rest]]]]]]]]];
    simpl in Hlen; try lia.
  cbn [firstn] in Hnd.
  repeat match type of Hnd with
         | NoDup (?a :: ?l) =>
             let H := fresh "Hd" in
             pose proof (fun b => @NoDup_eqb a b l Hnd) as H;
             apply NoDup_cons_iff in Hnd; destruct Hnd as [_ Hnd]
         end.
  cbv zeta. unfold create, getGames, getChallenges, getActiveChallenge.
  cbn [games challenges].
  assert (Eg : initializeGames
                 (u1 :: u2 :: u3 :: u4 :: u5 :: u6 :: u7 :: u8 :: u9 :: rest)
                 today defaultGames []
               = combine [u1; u2; u3; u4; u5; u6]
                   (map (fun p => fullGame (fst p) today (snd p))
                        (combine [u1; u2; u3; u4; u5; u6] defaultGames))).
  { unfold defaultGames. cbn [initializeGames set combine map fst snd].
    repeat (distinct_ids; cbn [set]). reflexivity. }
  rewrite Eg. clear Eg.
  assert (Ec : initializeChallenges
                 (skipn (List.length defaultGames)
                    (u1 :: u2 :: u3 :: u4 :: u5 :: u6 :: u7 :: u8 :: u9 :: rest))
                 (defaultChallenges
                    (values
                       (combine [u1; u2; u3; u4; u5; u6]
                          (map (fun p => fullGame (fst p) today (snd p))
                               (combine [u1; u2; u3; u4; u5; u6] defaultGames))))
                    today) []
               = combine [u7; u8; u9]
                   (map (fun p => fullChallenge (fst p) (snd p))
                        (combine [u7; u8; u9]
                           (map (fun p => InsertChallenge.make (fst p)
                                            (InsertChallenge.title (snd p))
                                            (InsertChallenge.description (snd p))
                                            (InsertChallenge.target (snd p))
                                            (InsertChallenge.reward (snd p))
                                            (InsertChallenge.startDate (snd p))
                                            (InsertChallenge.endDate (snd p))
                                            (InsertChallenge.isActive (snd p)))
                                (combine [u1; u2; u3] (defaultChallenges [] today)))))).
  { unfold defaultGames, defaultChallenges, idOfSlug, fullGame. simpl.
    repeat (progress distinct_ids; simpl). now destruct rest. }
  rewrite Ec. clear Ec.
  split; [reflexivity|]. split; [reflexivity|].
  split; [reflexivity|]. split; [reflexivity|].
  intros env gameId Hclock. rewrite Hclock.
  unfold defaultChallenges, values, activeFor.
  cbn [combine map fst snd find fullChallenge Challenge.gameId Challenge.isActive
       Challenge.startDate Challenge.endDate InsertChallenge.gameId
       InsertChallenge.isActive InsertChallenge.startDate InsertChallenge.endDate
       InsertChallenge.title InsertChallenge.description InsertChallenge.target
       InsertChallenge.reward isOne nth].
  assert (Hday : 0 < day) by reflexivity.
  replace (today <=? today) with true by (symmetry; apply Z.leb_le; lia).
  replace (today + day >=? today) with true by (symmetry; apply Z.geb_le; lia).
  replace (today + day <=? today) with false by (symmetry; apply Z.leb_gt; lia).
  replace (today + day + day <=? today) with false
    by (symmetry; apply Z.leb_gt; lia).
  rewrite !andb_true_r, !andb_false_r, (String.eqb_sym gameId u1).
  now destruct (String.eqb u1 gameId).
Qed.

(** *** Instances *)

Lemma inactive_game_is_served_but_not_listed_witness :
  let draft := InsertGame.make "Pong" "pong" "Two paddles." "Classic" "0.5MB" None None in
  let env := mkEnv "g7" (Samples.today + 3) in
  GET_api_games (snd (createGame env draft Samples.fresh))
  = GET_api_games Samples.fresh
  /\ GET_api_games_slug "pong" (snd (createGame env draft Samples.fresh))
     = mkResponse 200 (GameBody (fst (createGame env draft Samples.fresh))).
Proof.
  intros draft env.
  apply (@inactive_game_is_served_but_not_listed Samples.fresh env draft).
  - discriminate.
  - reflexivity.
  - reflexivity.
Defined.

Lemma decimal_limit_is_honoured_witness :
  sentScores (GET_api_scores (Some "g1") (Some (decimal 1)) Samples.afterTwo)
  = firstn 1 (ranked (Some "g1") Samples.afterTwo)
  /\ List.length (sentScores (GET_api_scores (Some "g1") (Some (decimal 5))
                                Samples.afterTwo))
     = 2%nat.
Proof.
  split.
  - apply (@decimal_limit_is_honoured (Some "g1") "g1" 1 Samples.afterTwo). lia.
  - destruct (@decimal_limit_is_honoured (Some "g1") "g1" 5 Samples.afterTwo)
      as (_ & _ & H); [lia|].
    rewrite H. reflexivity.
Defined.

Lemma posted_score_leaves_other_games_witness :
  let env := mkEnv "s2" (Samples.today + 2) in
  let s' := snd (POST_api_scores Samples.insertScoreSchema env Samples.body900
                                 Samples.afterOne) in
  GET_api_leaderboard "g2" None s' = GET_api_leaderboard "g2" None Samples.afterOne
  /\ List.length (scoresOf "g1" s') = 2%nat.
Proof.
  intros env s'.
  destruct (@posted_score_leaves_other_games Samples.insertScoreSchema
              Samples.afterOne env Samples.body900
              (InsertScore.make "g1" None None 900 None) "g2" None)
    as (H1 & H2 & _); try reflexivity; try discriminate.
  split; [exact H2|].
  fold env in H1. fold s' in H1. simpl InsertScore.gameId in H1.
  rewrite H1. reflexivity.
Defined.

Lemma served_challenge_is_listed_witness :
  let c := Challenge.make "u7" "u1" "Bottle Flip Master" "Land 10 consecutive flips"
             10 500 Samples.today (Samples.today + day) (Some 1) in
  exists listed,
    GET_api_challenges Samples.fresh = mkResponse 200 (ChallengesBody listed)
    /\ In c listed
    /\ Challenge.gameId c = "u1".
Proof.
  intros c.
  apply (@served_challenge_is_listed (mkEnv "x" Samples.today) "u1" Samples.fresh c).
  reflexivity.
Defined.

Lemma new_store_is_consistent_witness :
  map Game.id (getGames Samples.fresh) = ["u1"; "u2"; "u3"; "u4"; "u5"; "u6"]
  /\ map Challenge.gameId (getChallenges Samples.fresh) = ["u1"; "u2"; "u3"].
Proof.
  destruct (@new_store_is_consistent Samples.uuids Samples.today)
    as (_ & H2 & H3 & _).
  - simpl. lia.
  - simpl. repeat constructor; simpl; intuition discriminate.
  - split; assumption.
Defined.

End StoreFacts.

(* ===================================================================== *)
(** ** More on the client-side cache *)
(* ===================================================================== *)

Module StorageFacts.
Import LocalStorage.

(** *** The browser's storage *)

Lemma getItem_removeItem (key : string) (ls : Storage) :
  getItem key (removeItem key ls) = None.
Proof.
  unfold removeItem. induction ls as [|[k text] ls IH]; simpl; trivial.
  destruct (String.eqb k key) eqn:E; simpl; trivial. now rewrite E.
Qed.

Lemma getItem_removeItem_other (key key' : string) (ls : Storage) :
  key' <> key -> getItem key' (removeItem key ls) = getItem key' ls.
Proof.
  intros Hne. unfold removeItem.
  induction ls as [|[k text] ls IH]; simpl; trivial.
  destruct (String.eqb k key) eqn:E; simpl.
  - apply String.eqb_eq in E. subst k.
    replace (String.eqb key key') with false
      by (symmetry; apply String.eqb_neq; congruence).
    exact IH.
  - now rewrite IH.
Qed.

Lemma keys_differ : PREFERENCES_KEY <> SCORES_KEY.
Proof. discriminate. Qed.

(** *** The highest score *)

Lemma fold_max_ge (rest : list GameScore) (m : Z) :
  m <= fold_left (fun m r => Z.max m (score r)) rest m
  /\ forall r, In r rest -> score r <= fold_left (fun m r => Z.max m (score r)) rest m.
Proof.
  revert m. induction rest as [|x rest IH]; intros m; simpl.
  - split; [lia|tauto].
  - destruct (IH (Z.max m (score x))) as [H1 H2]. split; [lia|].
    intros r [<-|Hr]; [lia|auto].
Qed.

Lemma fold_max_attained (rest : list GameScore) (m : Z) :
  fold_left (fun m r => Z.max m (score r)) rest m = m
  \/ exists r, In r rest /\ fold_left (fun m r => Z.max m (score r)) rest m = score r.
Proof.
  revert m. induction rest as [|x rest IH]; intros m; simpl; [now left|].
  destruct (IH (Z.max m (score x))) as [H|(r & Hr & H)].
  - rewrite H. destruct (Z.max_spec m (score x)) as [[_ ->]|[_ ->]].
    + right. exists x. auto.
    + now left.
  - right. exists r. auto.
Qed.

Lemma highestScore_bound (l : list GameScore) (r : GameScore) :
  In r l -> score r <= highestScore l.
Proof.
  destruct l as [|first rest]; [contradiction|]. simpl.
  destruct (fold_max_ge rest (score first)) as [H1 H2].
  intros [<-|Hr]; auto.
Qed.

Lemma highestScore_attained (l : list GameScore) :
  l <> [] -> exists r, In r l /\ score r = highestScore l.
Proof.
  destruct l as [|first rest]; [congruence|]. intros _. simpl.
  destruct (fold_max_attained rest (score first)) as [H|(r & Hr & H)].
  - exists first. auto.
  - exists r. auto.
Qed.

Lemma highestScore_head (first : GameScore) (rest l : list GameScore) :
  descending score (first :: rest) ->
  (forall r, In r l -> In r (first :: rest)) ->
  In first l ->
  highestScore l = score first.
Proof.
  intros Hd Hsub Hin.
  assert (Hmax : forall r, In r (first :: rest) -> score r <= score first).
  { inversion Hd as [|? ? _ Hall]; subst. rewrite Forall_forall in Hall.
    intros r [<-|Hr]; [lia|auto]. }
  pose proof (highestScore_bound l first Hin).
  destruct (highestScore_attained (l := l)) as (r & Hr & Hb).
  - intros ->. contradiction.
  - specialize (Hmax r (Hsub r Hr)). lia.
Qed.

Lemma highestScore_snoc (l : list GameScore) (s : GameScore) :
  highestScore (l ++ [s])
  = match l with
    | [] => score s
    | _ :: _ => Z.max (highestScore l) (score s)
    end.
Proof.
  destruct l as [|first rest]; [reflexivity|]. simpl.
  now rewrite fold_left_app.
Qed.

Section Typed.
Variable textToNumber : value -> option Z.

Lemma getScores_of_game (ls : Storage) (l : list GameScore) (g : string) :
  holds ls l -> g <> "" ->
  getScores (Some g) ls = VArr (map encode (ofGame g l)).
Proof.
  intros H Hg. unfold holds in H. unfold getScores.
  rewrite (@ServerFacts.truthyString_nonempty g Hg).
  destruct (getItem SCORES_KEY ls) as [[| |v]|]; subst; cbn [JSON_parse bind];
    try reflexivity.
  cbn [filterArray]. now rewrite CacheFacts.filterM_hasSlug.
Qed.

Lemma getTopScores_of_game (ls : Storage) (l : list GameScore) (g : string)
      (limit : option Z) :
  holds ls l -> g <> "" ->
  getTopScores textToNumber g limit ls
  = Normal (map encode
              (slice0 (sort (byScoreDesc score) (ofGame g l))
                      (match limit with Some n => n | None => 10 end))).
Proof.
  intros H Hg. unfold getTopScores. rewrite (@getScores_of_game ls l g H Hg).
  cbn [sortArray]. rewrite CacheFacts.sortM_encode. cbn [bind].
  f_equal. unfold slice0. now rewrite length_map, firstn_map.
Qed.

Lemma getBestScore_of_game (ls : Storage) (l : list GameScore) (g : string) :
  holds ls l -> g <> "" ->
  getBestScore textToNumber g ls = Normal (VNum (highestScore (ofGame g l))).
Proof.
  intros H Hg. unfold getBestScore.
  rewrite (@getTopScores_of_game ls l g (Some 1) H Hg). cbn [bind].
  rewrite slice0_nonneg by lia. change (Z.to_nat 1) with 1%nat.
  pose proof (sort_descending score (ofGame g l)) as Hd.
  pose proof (sort_perm score (ofGame g l)) as Hp.
  destruct (sort (byScoreDesc score) (ofGame g l)) as [|first rest] eqn:E.
  - apply Permutation_nil in Hp. now rewrite Hp.
  - cbn [firstn map]. change (getProp (encode first) "score") with (Normal (VNum (score first))).
    do 2 f_equal. symmetry. apply (@highestScore_head first rest); trivial.
    + intros r Hr. apply (Permutation_in _ (Permutation_sym Hp)). exact Hr.
    + apply (Permutation_in _ Hp). now left.
Qed.

(** X17.  On a cache that holds score records (or is absent, empty or
    unparsable), [getTopScores] of a game returns the game's records in
    descending order of score, cut to the limit (10 when none is given), and
    [getBestScore] returns the highest score among the game's records, and 0
    when the game has none: so a game whose scores are all negative has a
    negative best score. *)
Theorem best_score_is_the_highest_of_the_game
        (ls : Storage) (l : list GameScore) (g : string) (limit : option Z) :
  holds ls l -> g <> "" ->
  getTopScores textToNumber g limit ls
  = Normal (map encode
              (slice0 (sort (byScoreDesc score) (ofGame g l))
                      (match limit with Some n => n | None => 10 end)))
  /\ getBestScore textToNumber g ls = Normal (VNum (highestScore (ofGame g l)))
  /\ (forall r, In r l -> gameSlug r = g -> score r <= highestScore (ofGame g l))
  /\ (ofGame g l <> [] ->
      exists r, In r l /\ gameSlug r = g /\ score r = highestScore (ofGame g l)).
Proof.
  intros H Hg. split; [now apply getTopScores_of_game|].
  split; [now apply getBestScore_of_game|]. split.
  - intros r Hr Hs. apply highestScore_bound. apply filter_In.
    split; [exact Hr|]. now apply String.eqb_eq.
  - intros Hne. destruct (highestScore_attained Hne) as (r & Hr & Hb).
    apply filter_In in Hr. destruct Hr as [Hr Hs].
    exists r. repeat split; trivial. now apply String.eqb_eq.
Qed.

(** *** Saving a score and reading the best one *)

Lemma sort_of_descending (l : list GameScore) :
  descending score l -> sort (byScoreDesc score) l = l.
Proof.
  unfold descending. induction 1 as [|x l Hs IH Hx]; [reflexivity|].
  change (sort (byScoreDesc score) (x :: l))
    with (insert (byScoreDesc score) x (sort (byScoreDesc score) l)).
  rewrite IH. destruct l as [|y l]; [reflexivity|].
  cbn [insert]. unfold byScoreDesc.
  apply Forall_inv in Hx.
  replace (0 <? score y - score x) with false
    by (symmetry; apply Z.ltb_ge; lia).
  reflexivity.
Qed.

Lemma holds_after_save (s : GameScore) (ls : Storage) (l : list GameScore) :
  holds ls l ->
  exists ls',
    saveScore textToNumber s ls = Normal ls'
    /\ holds ls' (saved s l)
    /\ forall key, key <> SCORES_KEY -> getItem key ls' = getItem key ls.
Proof.
  intros H. rewrite (@CacheFacts.saveScore_holds textToNumber s ls l H).
  eexists. split; [reflexivity|]. split.
  - unfold holds. now rewrite CacheFacts.getItem_setItem.
  - intros key Hk. now apply CacheFacts.getItem_setItem_other.
Qed.

(** X18.  After [saveScore(s)] on such a cache, the best score of the game
    of [s] is the higher of its previous best score and the score saved; it
    is the score saved when the game had no score yet, even a negative one. *)
Theorem saved_score_raises_the_best
        (s : GameScore) (ls : Storage) (l : list GameScore) :
  holds ls l -> gameSlug s <> "" ->
  exists ls',
    saveScore textToNumber s ls = Normal ls'
    /\ getBestScore textToNumber (gameSlug s) ls'
       = Normal (VNum (match ofGame (gameSlug s) l with
                       | [] => score s
                       | _ :: _ =>
                           Z.max (highestScore (ofGame (gameSlug s) l)) (score s)
                       end))
    /\ getBestScore textToNumber (gameSlug s) ls
       = Normal (VNum (highestScore (ofGame (gameSlug s) l))).
Proof.
  intros H Hg.
  destruct (@holds_after_save s ls l H) as (ls' & Hsave & Hholds & _).
  exists ls'. split; [exact Hsave|]. split; [|now apply getBestScore_of_game].
  rewrite (@getBestScore_of_game ls' (saved s l) (gameSlug s) Hholds Hg). do 2 f_equal.
  rewrite CacheFacts.ofGame_saved, <- highestScore_snoc.
  set (all := ofGame (gameSlug s) l ++ [s]).
  pose proof (sort_descending score all) as Hd.
  pose proof (sort_perm score all) as Hp.
  destruct (sort (byScoreDesc score) all) as [|first rest] eqn:E.
  - apply Permutation_nil in Hp. unfold all in Hp.
    now destruct (ofGame (gameSlug s) l).
  - assert (H1 : highestScore all = score first).
    { apply (@highestScore_head first rest); trivial.
      - intros r Hr. apply (Permutation_in _ (Permutation_sym Hp)). exact Hr.
      - apply (Permutation_in _ Hp). now left. }
    rewrite H1. change (firstn 100 (first :: rest)) with (first :: firstn 99 rest).
    apply (@highestScore_head first (firstn 99 rest)).
    + change (first :: firstn 99 rest) with (firstn 100 (first :: rest)).
      now apply descending_firstn.
    + auto.
    + now left.
Qed.

(** *** Clearing *)

Lemma ofGame_of_others (g : string) (l : list GameScore) :
  ofGame g (ofOtherGames g l) = [].
Proof.
  unfold ofGame, ofOtherGames. apply CacheFacts.filter_nothing.
  intros x Hx. apply filter_In in Hx. now apply negb_true_iff.
Qed.

Lemma ofGame_of_others_other (g g' : string) (l : list GameScore) :
  g' <> g -> ofGame g' (ofOtherGames g l) = ofGame g' l.
Proof.
  intros Hne. unfold ofGame, ofOtherGames.
  induction l as [|x l IH]; simpl; trivial.
  destruct (String.eqb (gameSlug x) g) eqn:E; simpl.
  - apply String.eqb_eq in E.
    replace (String.eqb (gameSlug x) g') with false
      by (symmetry; apply String.eqb_neq; congruence).
    exact IH.
  - now rewrite IH.
Qed.

(** X19.  [clearScores(g)] on a cache that holds score records removes the
    records of the game [g] and keeps those of the other games, in their
    order: afterwards the best score of [g] is 0, the top scores of every
    other game are what they were, and the preferences are untouched.
    Without a slug, or with the empty one, [clearScores] removes the records
    of every game, whatever the cache held. *)
Theorem clearing_a_game_keeps_the_others
        (ls : Storage) (l : list GameScore) (g : string) :
  (holds ls l -> g <> "" ->
   exists ls',
     clearScores (Some g) ls = Normal ls'
     /\ holds ls' (ofOtherGames g l)
     /\ getBestScore textToNumber g ls' = Normal (VNum 0)
     /\ getPreferences ls' = getPreferences ls
     /\ forall g' limit,
          g' <> g -> g' <> "" ->
          getTopScores textToNumber g' limit ls'
          = getTopScores textToNumber g' limit ls)
  /\ clearScores None ls = Normal (removeItem SCORES_KEY ls)
  /\ clearScores (Some "") ls = Normal (removeItem SCORES_KEY ls)
  /\ holds (removeItem SCORES_KEY ls) [].
Proof.
  split; [|repeat split].
  - intros H Hg. unfold clearScores.
    rewrite (@ServerFacts.truthyString_nonempty g Hg).
    rewrite (@CacheFacts.getScores_holds ls l H). cbn [filterArray].
    rewrite CacheFacts.filterM_hasOtherSlug. cbn [bind].
    eexists. split; [reflexivity|].
    assert (Hh : holds (setItem SCORES_KEY (Json (VArr (map encode (ofOtherGames g l)))) ls)
                       (ofOtherGames g l)).
    { unfold holds. now rewrite CacheFacts.getItem_setItem. }
    split; [exact Hh|]. split; [|split].
    + rewrite (@getBestScore_of_game _ _ g Hh Hg). now rewrite ofGame_of_others.
    + unfold getPreferences.
      now rewrite CacheFacts.getItem_setItem_other by exact keys_differ.
    + intros g' limit Hne Hg'.
      rewrite (@getTopScores_of_game _ _ g' limit Hh Hg').
      rewrite (@getTopScores_of_game _ _ g' limit H Hg').
      now rewrite ofGame_of_others_other.
  - unfold holds. now rewrite getItem_removeItem.
Qed.

End Typed.

(** X20.  [clearAll] repairs any cache: whatever the storage held, even
    texts on which the reads or [saveScore] failed, afterwards [getScores]
    returns the empty list, [getPreferences] the defaults, [getTopScores]
    the empty list, [getBestScore] 0, and [saveScore] returns, leaving the
    saved record as the only one. *)
Theorem clearAll_resets_every_read
        (textToNumber : value -> option Z) (ls : Storage)
        (slug : option string) (g : string) (limit : option Z) (s : GameScore) :
  getScores slug (clearAll ls) = VArr []
  /\ getPreferences (clearAll ls) = defaultPreferences
  /\ getTopScores textToNumber g limit (clearAll ls) = Normal []
  /\ getBestScore textToNumber g (clearAll ls) = Normal (VNum 0)
  /\ saveScore textToNumber s (clearAll ls)
     = Normal (setItem SCORES_KEY (Json (VArr [encode s])) (clearAll ls)).
Proof.
  assert (Hs : getItem SCORES_KEY (clearAll ls) = None).
  { unfold clearAll.
    rewrite getItem_removeItem_other by (intros E; symmetry in E; now apply keys_differ).
    apply getItem_removeItem. }
  assert (Hp : getItem PREFERENCES_KEY (clearAll ls) = None)
    by apply getItem_removeItem.
  assert (Hg : forall slug, getScores slug (clearAll ls) = VArr []).
  { intros sl. unfold getScores. rewrite Hs. cbn [JSON_parse bind].
    destruct (truthyString sl); reflexivity. }
  assert (Ht : forall n, getTopScores textToNumber g n (clearAll ls) = Normal []).
  { intros n. unfold getTopScores. rewrite Hg. cbn [sortArray sortM bind].
    unfold slice0. now rewrite firstn_nil. }
  repeat split.
  - apply Hg.
  - unfold getPreferences. now rewrite Hp.
  - apply Ht.
  - unfold getBestScore. now rewrite Ht.
  - unfold saveScore. rewrite Hg. cbn [app filterM bind].
    rewrite CacheFacts.hasSlug_encode, CacheFacts.hasOtherSlug_encode.
    rewrite String.eqb_refl. reflexivity.
Qed.

(** *** Statistics *)

Section Stats.
Variable textToNumber : value -> option Z.
Variable concatenation : Total -> value -> string.

Lemma totalOf_encode (l : list GameScore) (acc : Z) :
  totalOf textToNumber concatenation (map encode l) (TotalNumber (Some acc))
  = Normal (TotalNumber (Some (fold_left (fun t r => t + score r) l acc))).
Proof.
  revert acc. induction l as [|r l IH]; intros acc; [reflexivity|].
  cbn [map totalOf fold_left].
  change (getProp (encode r) "score") with (Normal (VNum (score r))).
  cbn [bind plus toNumber addNumbers]. apply IH.
Qed.

Lemma mapM_score_encode (l : list GameScore) :
  mapM (fun s => getProp s "score") (map encode l)
  = Normal (map (fun r => VNum (score r)) l).
Proof.
  induction l as [|r l IH]; [reflexivity|].
  cbn [map mapM].
  change (getProp (encode r) "score") with (Normal (VNum (score r))).
  cbn [bind]. now rewrite IH.
Qed.

Lemma mapM_toNumber (l : list GameScore) :
  mapM (toNumber textToNumber) (map (fun r => VNum (score r)) l)
  = Normal (map (fun r => Some (score r)) l).
Proof.
  induction l as [|r l IH]; [reflexivity|].
  cbn [map mapM toNumber bind]. now rewrite IH.
Qed.

Lemma fold_maxNumbers (l : list GameScore) (m : Z) :
  fold_left maxNumbers (map (fun r => Some (score r)) l) (Some m)
  = Some (fold_left (fun m r => Z.max m (score r)) l m).
Proof.
  revert m. induction l as [|r l IH]; intros m; [reflexivity|].
  cbn [map fold_left maxNumbers]. apply IH.
Qed.

Lemma sum_le_highest (l : list GameScore) (h acc : Z) :
  (forall r, In r l -> score r <= h) ->
  fold_left (fun t r => t + score r) l acc <= acc + Z.of_nat (List.length l) * h.
Proof.
  revert acc. induction l as [|r l IH]; intros acc H; cbn [fold_left List.length].
  - lia.
  - specialize (IH (acc + score r) (fun x Hx => H x (or_intror Hx))).
    pose proof (H r (or_introl eq_refl)). lia.
Qed.


End Stats.

(** *** Scores and preferences side by side *)

(** X21.  The two keys do not interfere: saving a score or clearing scores
    leaves the preferences as they read before, and saving preferences
    leaves the scores as they read before. *)
Theorem scores_and_preferences_are_kept_apart
        (textToNumber : value -> option Z) (codeUnits : string -> list string)
        (ls ls' : Storage) (s : GameScore) (slug : option string)
        (preferences : PreferencesPatch) :
  (saveScore textToNumber s ls = Normal ls' ->
   getPreferences ls' = getPreferences ls)
  /\ (clearScores slug ls = Normal ls' -> getPreferences ls' = getPreferences ls)
  /\ getScores slug (savePreferences codeUnits preferences ls) = getScores slug ls.
Proof.
  split; [|split].
  - unfold saveScore.
    destruct (getScores None ls); try discriminate.
    destruct (filterM _ _); cbn [bind]; [|discriminate].
    destruct (filterM _ _); cbn [bind]; [|discriminate].
    destruct (sortM _ _); cbn [bind]; [|discriminate].
    intros [= <-]. unfold getPreferences.
    now rewrite CacheFacts.getItem_setItem_other by exact keys_differ.
  - unfold clearScores. destruct (truthyString slug).
    + destruct (filterArray _ _); cbn [bind]; [|discriminate].
      intros [= <-]. unfold getPreferences.
      now rewrite CacheFacts.getItem_setItem_other by exact keys_differ.
    + intros [= <-]. unfold getPreferences.
      now rewrite getItem_removeItem_other by exact keys_differ.
  - unfold savePreferences, getScores.
    rewrite CacheFacts.getItem_setItem_other; [reflexivity|].
    intros E. symmetry in E. now apply keys_differ.
Qed.

(** *** Saving preferences and reading them back *)

Lemma lookup_defineProperty (k p : string) (v : value) (fields : list (string * value)) :
  lookup (defineProperty k v fields) p
  = if String.eqb k p then v else lookup fields p.
Proof.
  induction fields as [|[k' v'] rest IH]; [reflexivity|].
  cbn [defineProperty]. destruct (String.eqb k' k) eqn:E; cbn [lookup].
  - apply String.eqb_eq in E. subst k'. now destruct (String.eqb k p).
  - rewrite IH. destruct (String.eqb k' p) eqn:E1; trivial.
    destruct (String.eqb k p) eqn:E2; trivial.
    apply String.eqb_eq in E1, E2. subst. now rewrite String.eqb_refl in E.
Qed.

Lemma keys_defineProperty (k x : string) (v : value) (fields : list (string * value)) :
  In x (map fst (defineProperty k v fields)) <-> x = k \/ In x (map fst fields).
Proof.
  induction fields as [|[k' v'] rest IH]; simpl.
  - intuition.
  - destruct (String.eqb k' k) eqn:E; simpl.
    + apply String.eqb_eq in E. subst k'. intuition.
    + rewrite IH. intuition.
Qed.

Lemma NoDup_defineProperty (k : string) (v : value) (fields : list (string * value)) :
  NoDup (map fst fields) -> NoDup (map fst (defineProperty k v fields)).
Proof.
  induction fields as [|[k' v'] rest IH]; simpl; intros H.
  - repeat constructor. tauto.
  - inversion H as [|? ? Hn Hr]; subst.
    destruct (String.eqb k' k) eqn:E; simpl.
    + apply String.eqb_eq in E. subst k'. now constructor.
    + constructor; [|auto]. rewrite keys_defineProperty.
      apply String.eqb_neq in E. intuition.
Qed.

Lemma NoDup_assign (source target : list (string * value)) :
  NoDup (map fst target) -> NoDup (map fst (assign target source)).
Proof.
  unfold assign. revert target.
  induction source as [|[k v] source IH]; intros target H; simpl; trivial.
  apply IH. now apply NoDup_defineProperty.
Qed.

Lemma lookup_app_defineProperty (k p : string) (v : value)
      (source target : list (string * value)) :
  ~ In k (map fst source) ->
  lookup (source ++ defineProperty k v target) p
  = if String.eqb k p then v else lookup (source ++ target) p.
Proof.
  induction source as [|[k1 v1] source IH]; simpl; intros Hk.
  - apply lookup_defineProperty.
  - rewrite IH by tauto. destruct (String.eqb k1 p) eqn:E1; trivial.
    destruct (String.eqb k p) eqn:E2; trivial.
    apply String.eqb_eq in E1, E2. subst. tauto.
Qed.

Lemma lookup_assign (p : string) (source target : list (string * value)) :
  NoDup (map fst source) ->
  lookup (assign target source) p = lookup (source ++ target) p.
Proof.
  unfold assign. revert target.
  induction source as [|[k v] source IH]; intros target H; simpl; trivial.
  inversion H as [|? ? Hn Hr]; subst.
  rewrite IH by exact Hr. now apply lookup_app_defineProperty.
Qed.

Lemma lookup_app_same (p : string) (a b b' : list (string * value)) :
  lookup b p = lookup b' p -> lookup (a ++ b) p = lookup (a ++ b') p.
Proof.
  intros H. induction a as [|[k v] a IH]; simpl; trivial.
  now destruct (String.eqb k p).
Qed.

Lemma lookup_app_absent (p : string) (a b : list (string * value)) :
  ~ In p (map fst a) -> lookup (a ++ b) p = lookup b p.
Proof.
  induction a as [|[k v] a IH]; simpl; intros H; trivial.
  destruct (String.eqb k p) eqn:E; [|tauto].
  apply String.eqb_eq in E. tauto.
Qed.

Lemma lookup_app_present (p : string) (w : value) (a b : list (string * value)) :
  NoDup (map fst a) -> In (p, w) a -> lookup (a ++ b) p = w.
Proof.
  induction a as [|[k v] a IH]; simpl; intros Hn Hin; [contradiction|].
  inversion Hn as [|? ? Hk Hr]; subst.
  destruct Hin as [[= -> ->]|Hin].
  - now rewrite String.eqb_refl.
  - destruct (String.eqb k p) eqn:E; [|auto].
    apply String.eqb_eq in E. subst k. exfalso. apply Hk.
    change p with (fst (p, w)). now apply in_map.
Qed.

Lemma lookup_stringified (p : string) (fields : list (string * value)) :
  NoDup (map fst fields) ->
  getProp (stringified (VObj fields)) p = Normal (stringified (lookup fields p)).
Proof.
  cbn [stringified getProp]. intros H. f_equal.
  induction fields as [|[k w] rest IH]; [reflexivity|].
  inversion H as [|? ? Hk Hr]; subst. specialize (IH Hr).
  assert (Habsent : String.eqb k p = true ->
                    lookup (flat_map (fun kv => let '(k, w) := kv in
                                                match w with
                                                | VUndefined => []
                                                | _ => [(k, stringified w)]
                                                end) rest) p = VUndefined).
  { intros E. apply String.eqb_eq in E. subst k. clear IH Hr H.
    induction rest as [|[k1 w1] rest IH]; [reflexivity|].
    simpl in Hk. cbn [flat_map].
    assert (E1 : String.eqb k1 p = false) by (apply String.eqb_neq; tauto).
    destruct w1; cbn [app lookup]; rewrite ?E1; apply IH; tauto. }
  cbn [flat_map lookup].
  destruct w; cbn [app lookup];
    destruct (String.eqb k p) eqn:E; auto.
Qed.

Lemma nameOf_injective (a b : PreferenceName) : nameOf a = nameOf b -> a = b.
Proof. destruct a, b; simpl; congruence. Qed.

Lemma NoDup_properties (preferences : PreferencesPatch) :
  NoDup (map fst preferences) -> NoDup (map fst (properties preferences)).
Proof.
  unfold properties. rewrite map_map. cbn [fst].
  rewrite <- (map_map fst nameOf).
  generalize (map fst preferences) as names.
  induction 1 as [|x names Hx Hn IH]; simpl; constructor; trivial.
  rewrite in_map_iff. intros (y & Hy & Hin).
  apply nameOf_injective in Hy. now subst.
Qed.

(** X22.  When the preferences read as an object (the stored one, or the
    defaults when nothing readable is stored), [savePreferences] merges
    its argument into them: what is read afterwards is an object in
    which each property that the argument gives has the value given (it
    is absent when given as [undefined]), and every other property is as
    before. *)
Theorem saved_preferences_are_read_back
        (codeUnits : string -> list string) (ls : Storage)
        (fields : list (string * value)) (preferences : PreferencesPatch) :
  getPreferences ls = VObj fields ->
  NoDup (map fst fields) ->
  NoDup (map fst preferences) ->
  exists updated,
    getPreferences (savePreferences codeUnits preferences ls) = VObj updated
    /\ (forall name w,
          In (name, w) preferences ->
          lookup updated (nameOf name) = stringified w)
    /\ (forall p,
          (forall name, In name (map fst preferences) -> nameOf name <> p) ->
          lookup updated p = stringified (lookup fields p)).
Proof.
  intros Hcur Hfields Hpatch.
  set (ls' := savePreferences codeUnits preferences ls).
  pose proof (@NoDup_properties preferences Hpatch) as Hprops.
  assert (Hread : forall p,
             getProp (getPreferences ls') p
             = Normal (stringified (lookup (properties preferences ++ fields) p))).
  { intros p. unfold ls', savePreferences, getPreferences at 1.
    rewrite CacheFacts.getItem_setItem. cbn [JSON_parse].
    rewrite Hcur. cbn [spread].
    rewrite lookup_stringified by (apply NoDup_assign, NoDup_assign; constructor).
    do 2 f_equal. rewrite lookup_assign by exact Hprops.
    apply lookup_app_same. rewrite lookup_assign by exact Hfields.
    now rewrite app_nil_r. }
  assert (Hobj : exists updated, getPreferences ls' = VObj updated).
  { unfold ls', savePreferences, getPreferences at 1.
    rewrite CacheFacts.getItem_setItem. cbn [JSON_parse stringified]. eauto. }
  destruct Hobj as [updated Hupdated]. exists updated.
  split; [exact Hupdated|].
  assert (Hlook : forall p,
             lookup updated p
             = stringified (lookup (properties preferences ++ fields) p)).
  { intros p. specialize (Hread p). rewrite Hupdated in Hread.
    cbn [getProp] in Hread. now injection Hread. }
  split.
  - intros name w Hin. rewrite Hlook. f_equal.
    apply lookup_app_present; [exact Hprops|].
    unfold properties. apply in_map_iff. now exists (name, w).
  - intros p Hp. rewrite Hlook. f_equal.
    apply lookup_app_absent. unfold properties.
    rewrite map_map. cbn [fst]. rewrite in_map_iff.
    intros ([name w] & Hn & Hin). apply (Hp name); trivial.
    change name with (fst (name, w)). now apply in_map.
Qed.

(** *** Instances *)

Lemma best_score_is_the_highest_of_the_game_witness :
  getBestScore noConversion "tap-snake" (cacheOf twoGames) = Normal (VNum 9)
  /\ getTopScores noConversion "tap-snake" None (cacheOf twoGames)
     = Normal [encode (snakeScore 9); encode (snakeScore 5)].
Proof.
  destruct (@best_score_is_the_highest_of_the_game noConversion (cacheOf twoGames)
              twoGames "tap-snake" None) as (H1 & H2 & _).
  - reflexivity.
  - discriminate.
  - split; [exact H2 | exact H1].
Defined.

Lemma saved_score_raises_the_best_witness :
  exists ls',
    saveScore noConversion (snakeScore 12) (cacheOf twoGames) = Normal ls'
    /\ getBestScore noConversion "tap-snake" ls' = Normal (VNum 12).
Proof.
  destruct (@saved_score_raises_the_best noConversion (snakeScore 12)
              (cacheOf twoGames) twoGames) as (ls' & H1 & H2 & _).
  - reflexivity.
  - discriminate.
  - exists ls'. split; [exact H1 | exact H2].
Defined.

Lemma clearing_a_game_keeps_the_others_witness :
  exists ls',
    clearScores (Some "tap-snake") (cacheOf twoGames) = Normal ls'
    /\ getBestScore noConversion "tap-snake" ls' = Normal (VNum 0)
    /\ getBestScore noConversion "color-trap" ls' = Normal (VNum 30).
Proof.
  destruct (proj1 (@clearing_a_game_keeps_the_others noConversion
                     (cacheOf twoGames) twoGames "tap-snake"))
    as (ls' & H1 & H2 & H3 & _).
  - reflexivity.
  - discriminate.
  - exists ls'. split; [exact H1|]. split; [exact H3|].
    apply (@getBestScore_of_game noConversion ls'
             (ofOtherGames "tap-snake" twoGames) "color-trap" H2).
    discriminate.
Defined.


Lemma scores_and_preferences_are_kept_apart_witness :
  let ls := (PREFERENCES_KEY, Json (VObj [("theme", VStr "dark")])) :: cacheOf twoGames in
  let ls' := setItem SCORES_KEY
               (Json (VArr (map encode (saved (snakeScore 12) twoGames)))) ls in
  saveScore noConversion (snakeScore 12) ls = Normal ls'
  /\ getPreferences ls' = getPreferences ls.
Proof.
  intros ls ls'.
  assert (H : saveScore noConversion (snakeScore 12) ls = Normal ls')
    by (vm_compute; reflexivity).
  split; [exact H|].
  apply (proj1 (@scores_and_preferences_are_kept_apart noConversion noCodeUnits
                  ls ls' (snakeScore 12) None annInTheDark) H).
Defined.

Lemma saved_preferences_are_read_back_witness :
  exists updated,
    getPreferences (savePreferences noCodeUnits annInTheDark []) = VObj updated
    /\ lookup updated "playerName" = VStr "Ann"
    /\ lookup updated "theme" = VStr "dark"
    /\ lookup updated "soundEnabled" = VBool true.
Proof.
  destruct (@saved_preferences_are_read_back noCodeUnits []
              [("theme", VStr "system"); ("soundEnabled", VBool true)]
              annInTheDark) as (updated & Hupdated & Hgiven & Hkept).
  - reflexivity.
  - simpl. repeat constructor; simpl; intuition discriminate.
  - simpl. repeat constructor; simpl; intuition discriminate.
  - exists updated. split; [exact Hupdated|]. split; [|split].
    + apply (Hgiven PlayerName (VStr "Ann")). simpl. auto.
    + apply (Hgiven Theme (VStr "dark")). simpl. auto.
    + apply (Hkept "soundEnabled").
      intros name Hin. simpl in Hin.
      destruct Hin as [<-|[<-|[]]]; discriminate.
Defined.

End StorageFacts.

(* ===================================================================== *)
(** ** Color Trap *)
(* ===================================================================== *)

Module TrapFacts.
Import Engine ColorTrap.

Section Trap.
Variable random : nat -> Q.
Variable config : GameConfig.

Let hooks : GameHooks Fields := trapHooks random config.

(** *** The level *)

Lemma targets_snoc (bs : list ColorButton) (b : ColorButton) :
  targets (bs ++ [b]) = (targets bs + (if isTarget b then 1 else 0))%nat.
Proof.
  unfold targets. rewrite filter_app, length_app. simpl.
  now destruct (isTarget b).
Qed.

Lemma placeButtons_spec (remaining : nat) (i buttonCount cols : Z) (startX startY : Q)
      (target : string) (acc : list ColorButton) (placed : bool) (d : nat) :
  let '(bs, placed', _) :=
    placeButtons random remaining i buttonCount cols startX startY target acc placed d in
  List.length bs = (List.length acc + remaining)%nat
  /\ targets bs
     = (targets acc + (if negb placed && placed' then 1 else 0))%nat
  /\ (placed = true -> placed' = true)
  /\ ((0 < remaining)%nat -> i + Z.of_nat remaining = buttonCount -> placed' = true)
  /\ (Forall (placedFor target) acc -> Forall (placedFor target) bs).
Proof.
  revert i acc placed d.
  induction remaining as [|r IH]; intros i acc placed d; cbn [placeButtons].
  - rewrite Nat.add_0_r, andb_negb_l, Nat.add_0_r.
    repeat split; trivial. lia.
  - assert (Hnew : forall b,
               placedFor target b ->
               Forall (placedFor target) acc ->
               Forall (placedFor target) (acc ++ [b])).
    { intros b Hb Hacc. apply Forall_app. split; [exact Hacc|].
      constructor; [exact Hb | constructor]. }
    destruct placed; [|destruct (i =? buttonCount - 1)%Z eqn:Ei;
                       [|destruct (DoodleStack.Qltb (random (S d)) targetChance)]];
      cbn [orb];
      match goal with
      | |- context [placeButtons _ r ?i' _ _ _ _ _ ?acc' ?p ?d'] =>
          specialize (IH i' acc' p d');
          destruct (placeButtons random r i' buttonCount cols startX startY target
                                 acc' p d')
            as [[bs placed'] d'']
      end;
      destruct IH as (Hlen & Htargets & Hmono & Hlast & Hall);
      rewrite length_app in Hlen; cbn [List.length] in Hlen;
      rewrite targets_snoc in Htargets; cbn [isTarget negb andb] in *.
    + rewrite (Hmono eq_refl) in *. repeat split; trivial; try lia.
      intros Hacc. apply Hall, Hnew; [|exact Hacc].
      repeat split; trivial. discriminate.
    + rewrite (Hmono eq_refl) in *. repeat split; trivial; try lia.
      intros Hacc. apply Hall, Hnew; [|exact Hacc]. now repeat split.
    + rewrite (Hmono eq_refl) in *. repeat split; trivial; try lia.
      intros Hacc. apply Hall, Hnew; [|exact Hacc]. now repeat split.
    + apply Z.eqb_neq in Ei. repeat split; trivial; try lia.
      * intros _ Hi. apply Hlast; lia.
      * intros Hacc. apply Hall, Hnew; [|exact Hacc].
        repeat split; trivial. discriminate.
Qed.

(** X24.  When [Math.random()] stays in [0, 1), a level that
    [generateLevel] builds has between four and nine buttons, each 60 by
    60; exactly one of them is the target, and it shows the target
    colour, which is one of the six of the palette.  The loop always
    places the target, in its last round at the latest: the buttons of
    the level are the ones the loop leaves, and no further random number
    is drawn, so the branch that forces a target afterwards is never
    taken.  The countdown and the correct clicks are untouched. *)
Theorem level_has_exactly_one_target (f : Fields) :
  (forall n, 0 <= random n /\ random n < 1)%Q ->
  let level := generateLevel random config f in
  (4 <= List.length (buttons level) <= 9)%nat
  /\ List.length (filter isTarget (buttons level)) = 1%nat
  /\ (forall b, In b (buttons level) ->
        width b = buttonSize /\ height b = buttonSize
        /\ (isTarget b = true -> color b = targetColor level))
  /\ In (targetColor level) colors
  /\ levelLoop random config f = (buttons level, true, draws level)
  /\ timeLeft level = timeLeft f
  /\ correctClicks level = correctClicks f.
Proof.
  intros Hr. unfold generateLevel, levelLoop. cbv zeta.
  set (count := (4 + Qfloor (random (S (draws f)) * 6))%Z).
  assert (Hcount : (4 <= count <= 9)%Z).
  { destruct (Hr (S (draws f))) as [H0 H1].
    assert (Hlo : (0 <= Qfloor (random (S (draws f)) * 6))%Z).
    { change 0%Z with (Qfloor 0). apply Qfloor_resp_le. lra. }
    assert (Hhi : (Qfloor (random (S (draws f)) * 6) < 6)%Z).
    { rewrite Zlt_Qlt. eapply Qle_lt_trans; [apply Qfloor_le|].
      change (inject_Z 6) with 6%Q. lra. }
    unfold count. lia. }
  match goal with
  | |- context [placeButtons random ?n ?i ?c ?cols ?sx ?sy ?t ?acc ?p ?d] =>
      pose proof (placeButtons_spec n i c cols sx sy t acc p d) as Hspec;
      destruct (placeButtons random n i c cols sx sy t acc p d)
        as [[placed targetPlaced] d']
  end.
  destruct Hspec as (Hlen & Htargets & _ & Hlast & Hall).
  assert (Hplaced : targetPlaced = true).
  { apply Hlast; [lia|]. rewrite Z2Nat.id by lia. lia. }
  subst targetPlaced. cbn [negb andb] in *.
  cbn [buttons targetColor timeLeft correctClicks draws List.length] in *.
  split; [lia|]. split; [exact Htargets|].
  split; [|split; [|split; [|split]]]; trivial.
  - intros b Hb. specialize (Hall (Forall_nil _)).
    rewrite Forall_forall in Hall. exact (Hall b Hb).
  - unfold pickColor. apply nth_In.
    destruct (Hr (draws f)) as [H0 H1].
    change (List.length colors) with (Z.to_nat 6).
    apply (@DoodleFacts.Qfloor_index (random (draws f)) 6 H0 H1). lia.
Qed.

(** *** What a session keeps true *)

Lemma generateLevel_fields (f : Fields) :
  timeLeft (generateLevel random config f) = timeLeft f
  /\ lastTimeUpdate (generateLevel random config f) = lastTimeUpdate f
  /\ correctClicks (generateLevel random config f) = correctClicks f.
Proof.
  unfold generateLevel. cbv zeta.
  destruct (placeButtons _ _ _ _ _ _ _ _ _ _ _) as [[placed targetPlaced] d].
  now destruct (negb targetPlaced && Nat.ltb 0 (List.length placed)).
Qed.

Lemma trapUpdate_preserves (dt : Z) : preserves consistent (trapUpdate dt).
Proof.
  intros s f (Hs & H0 & Ht). unfold trapUpdate. cbv zeta.
  destruct (1000 <=? lastTimeUpdate f + dt).
  - destruct (timeLeft f - 1 <=? 0); unfold consistent; cbn; repeat split; lia.
  - unfold consistent. cbn. repeat split; lia.
Qed.

Lemma trapReset_preserves : preserves consistent (trapReset random config).
Proof.
  intros s f _. unfold trapReset, consistent. cbn [fst snd scoreAfter fold_left].
  destruct (generateLevel_fields (mkFields (buttons f) (targetColor f) 30 0 0 (draws f)))
    as (-> & _ & ->).
  cbn. repeat split; lia.
Qed.

Lemma click_preserves (px py : Q) :
  preserves consistent (handleClickAtPosition random config px py).
Proof.
  intros s f (Hs & H0 & Ht). unfold handleClickAtPosition.
  destruct (negb (isPlaying s)); [now repeat split|].
  destruct (find _ (buttons f)) as [button|]; [|now repeat split].
  destruct (isTarget button); [|now repeat split].
  cbv zeta. unfold consistent. cbn [fst snd scoreAfter fold_left].
  match goal with |- context [generateLevel _ _ ?g] =>
    destruct (generateLevel_fields g) as (-> & _ & ->) end.
  cbn. repeat split; lia.
Qed.

(** X25.  Whatever the player and the host do in a session of Color Trap
    (starting, pausing, stopping, restarting, frames, clicks and touches
    anywhere on the canvas), from the construction of the engine on: the
    score is ten times the number of correct clicks, which is not
    negative, and the countdown is at most 30. *)
Theorem session_keeps_trap_consistent (ops : list Op) :
  Forall (sessionOp random config) ops ->
  let e := @exec _ hooks ops (newEngine random config) in
  (score (state e) = correctClicks (game e) * 10
   /\ 0 <= correctClicks (game e)
   /\ timeLeft (game e) <= 30)%Z.
Proof.
  intros Hops.
  apply (@FrameFacts.exec_preserves _ hooks consistent).
  - exact trapUpdate_preserves.
  - exact trapReset_preserves.
  - eapply Forall_impl; [|exact Hops].
    intros [| | | | | | |handler] Hop; trivial.
    destruct Hop as (px & py & ->). apply click_preserves.
  - unfold newEngine, create, initialFields. cbn [state game score].
    unfold consistent.
    match goal with |- context [generateLevel _ _ ?g] =>
      destruct (generateLevel_fields g) as (-> & _ & ->) end.
    cbn. repeat split; lia.
Qed.

(** *** The countdown *)

Lemma trapUpdate_countdown (dt : Z) (s : GameState) (f : Fields) :
  (timeLeft f - 1 <= timeLeft (fst (trapUpdate dt s f)) <= timeLeft f)%Z
  /\ (In CallStop (snd (trapUpdate dt s f)) -> (timeLeft f <= 1)%Z).
Proof.
  unfold trapUpdate. cbv zeta.
  destruct (1000 <=? lastTimeUpdate f + dt); cbn [fst snd timeLeft].
  - split; [lia|]. destruct (timeLeft f - 1 <=? 0) eqn:E.
    + intros _. apply Z.leb_le in E. lia.
    + intros [].
  - split; [lia|]. intros [].
Qed.

(** X26.  The countdown of Color Trap counts the calls of [update] that
    complete a second, not the time: one call lowers [timeLeft] by at
    most one, however large its [deltaTime], so after n calls at most n
    seconds are gone, and no sequence of fewer calls than [timeLeft]
    ends the game. *)
Theorem countdown_loses_at_most_one_second_per_update
        (deltaTimes : list Z) (s : GameState) (f : Fields) :
  (timeLeft f - Z.of_nat (List.length deltaTimes)
   <= timeLeft (fst (runUpdates deltaTimes s f)) <= timeLeft f)%Z
  /\ ((Z.of_nat (List.length deltaTimes) < timeLeft f)%Z ->
      ~ In CallStop (snd (runUpdates deltaTimes s f))).
Proof.
  revert f. induction deltaTimes as [|dt later IH]; intros f.
  - cbn. split; [lia|]. intros _ [].
  - cbn [runUpdates].
    pose proof (trapUpdate_countdown dt s f) as [Hstep Hstop].
    destruct (trapUpdate dt s f) as [f1 calls]. cbn [fst snd] in Hstep, Hstop.
    specialize (IH f1). destruct (runUpdates later s f1) as [f2 calls'].
    cbn [fst snd] in *. destruct IH as [Hrest Hnone].
    cbn [List.length] in *. split; [lia|].
    intros Hlen Hin. apply in_app_or in Hin. destruct Hin as [Hin|Hin].
    + specialize (Hstop Hin). lia.
    + apply Hnone; [lia | exact Hin].
Qed.

End Trap.

Lemma level_has_exactly_one_target_witness :
  let level := generateLevel halves componentConfig
                 (initialFields halves componentConfig) in
  List.length (filter isTarget (buttons level)) = 1%nat
  /\ (4 <= List.length (buttons level) <= 9)%nat
  /\ levelLoop halves componentConfig (initialFields halves componentConfig)
     = (buttons level, true, draws level).
Proof.
  intros level.
  destruct (@level_has_exactly_one_target halves componentConfig
              (initialFields halves componentConfig)) as (H1 & H2 & _ & _ & H5 & _).
  - intros n. unfold halves. split; [unfold Qle | unfold Qlt]; simpl; lia.
  - split; [exact H2 | split; [exact H1 | exact H5]].
Defined.

Lemma session_keeps_trap_consistent_witness :
  let hooks := trapHooks halves componentConfig in
  let ops := [Start 0; Listener (handleClickAtPosition halves componentConfig 200 250);
              Frame 1 1000; Restart 2000] in
  let e := @exec _ hooks ops (newEngine halves componentConfig) in
  (score (state e) = correctClicks (game e) * 10)%Z.
Proof.
  intros hooks ops e.
  destruct (@session_keeps_trap_consistent halves componentConfig ops) as (H & _).
  - unfold ops. repeat constructor. now exists 200%Q, 250%Q.
  - exact H.
Defined.

Lemma countdown_loses_at_most_one_second_per_update_witness :
  let f := initialFields halves componentConfig in
  let s := mkGameState 0 true false false in
  (Z.of_nat (List.length [5000; 5000; 5000]) < timeLeft f)%Z
  /\ ~ In CallStop (snd (runUpdates [5000; 5000; 5000] s f))
  /\ (27 <= timeLeft (fst (runUpdates [5000; 5000; 5000] s f)))%Z.
Proof.
  intros f s.
  assert (H : (Z.of_nat (List.length [5000; 5000; 5000]) < timeLeft f)%Z)
    by (vm_compute; reflexivity).
  destruct (@countdown_loses_at_most_one_second_per_update [5000; 5000; 5000] s f)
    as [Hleft Hnone].
  split; [exact H|]. split; [exact (Hnone H)|].
  assert (Ht : timeLeft f = 30%Z) by (vm_compute; reflexivity).
  rewrite Ht in Hleft. cbn [List.length Z.of_nat] in Hleft. lia.
Defined.

End TrapFacts.
